(** * Template diff: the one-shot merge and the live synchronisation

    A shallow embedding of [packages/cli/src/lib/template-diff.ts]
    ([applyTemplateDiff], [prepareDiffDirectory] and the closures they
    build) together with the properties of the merge, of the manifest
    transform, of the watch callbacks and of the teardown.

    Conventions of the model.
    - A JavaScript string is a [string]: a sequence of 8-bit code units.
    - Paths are absolute; the separator is [/], and the path functions of
      [pathe] read a backslash as a separator too.  The file system is
      keyed by the segments that these functions compute, and the name of
      a directory entry holds neither separator ([plain]).
    - A symbolic link is a node of its own: the model looks a path up as
      it is written and does not follow links.  A statement that depends on
      what lies behind a path assumes that no link sits on it
      ([no_link_on]).
    - The file system is a finite map from resolved absolute paths to
      nodes; a promise is a computation in a state-and-exception monad and
      the promises of one batch are run one after the other, in the order
      of the batch. *)

From Stdlib Require Import Ascii String.
From stdpp Require Import gmap strings list fin_maps.

Local Open Scope string_scope.
Local Open Scope list_scope.

(** ** Strings *)

Module Str.

Fixpoint strip_prefix (p s : string) : option string :=
  match p, s with
  | EmptyString, _ => Some s
  | String a p', String b s' =>
      if Ascii.eqb a b then strip_prefix p' s' else None
  | String _ _, EmptyString => None
  end.

(** The first occurrence of [pat] in [s]: the text before it and the text
    after it. *)
Fixpoint find (pat s : string) : option (string * string) :=
  match strip_prefix pat s with
  | Some rest => Some (EmptyString, rest)
  | None =>
      match s with
      | EmptyString => None
      | String c s' =>
          match find pat s' with
          | Some (before, after) => Some (String c before, after)
          | None => None
          end
      end
  end.

(** [GetSubstitution] for a pattern that is a string, hence without
    captures: in the replacement text [$$] is a dollar, [$&] the matched
    text, [$`] the text before the match and [$'] the text after it; any
    other dollar stands for itself. *)
Fixpoint substitute (rep matched before after : string) : string :=
  match rep with
  | EmptyString => EmptyString
  | String c rep' =>
      if Ascii.eqb c "$" then
        match rep' with
        | String d rep'' =>
            if Ascii.eqb d "$"
            then String "$" (substitute rep'' matched before after)
            else if Ascii.eqb d "&"
            then matched +:+ substitute rep'' matched before after
            else if Ascii.eqb d "`"
            then before +:+ substitute rep'' matched before after
            else if Ascii.eqb d "'"
            then after +:+ substitute rep'' matched before after
            else String c (substitute rep' matched before after)
        | EmptyString => String c EmptyString
        end
      else String c (substitute rep' matched before after)
  end.

(** [String.prototype.replace] called with a string pattern: the first
    occurrence of [pat] is replaced by the expansion of [rep]. *)
Definition replace (pat rep s : string) : string :=
  match find pat s with
  | Some (before, after) => before +:+ substitute rep pat before after +:+ after
  | None => s
  end.

(** [s.split(sep)] for a one-character separator. *)
Fixpoint split (sep : ascii) (s : string) : list string :=
  match s with
  | EmptyString => [EmptyString]
  | String c s' =>
      if Ascii.eqb c sep then EmptyString :: split sep s'
      else match split sep s' with
           | h :: t => String c h :: t
           | [] => [String c EmptyString]
           end
  end.

(** [segs.join(sep)]. *)
Fixpoint join (sep : string) (segs : list string) : string :=
  match segs with
  | [] => EmptyString
  | [x] => x
  | x :: rest => x +:+ sep +:+ join sep rest
  end.

Fixpoint has_char (c : ascii) (s : string) : bool :=
  match s with
  | EmptyString => false
  | String a s' => Ascii.eqb a c || has_char c s'
  end.

Fixpoint last_char (s : string) : option ascii :=
  match s with
  | EmptyString => None
  | String c EmptyString => Some c
  | String _ s' => last_char s'
  end.

Fixpoint all_chars (p : ascii -> bool) (s : string) : bool :=
  match s with
  | EmptyString => true
  | String c s' => p c && all_chars p s'
  end.

End Str.

(** ** Regular expressions

    The three literals of the source are written in a small abstract syntax
    and run by a backtracking matcher with the priorities of ECMAScript:
    the left alternative first, the longest repetition first. *)

Module Regex.

Inductive atom :=
| AChar (c : ascii)   (* a pattern character *)
| AAny                (* [.] *)
| ASpace.             (* [\s] *)

Inductive t :=
| Eps
| Atom (a : atom)
| Bol                 (* [^] *)
| Eol                 (* [$] *)
| Seq (r1 r2 : t)
| Alt (r1 r2 : t)
| Plus (a : atom).    (* [a+], greedy *)

Definition code (c : ascii) : N := N_of_ascii c.

(** Canonicalize of the [i] flag, on the code units that can meet a
    pattern character of the source (all of them ASCII). *)
Definition canonicalize (c : ascii) : ascii :=
  if (97 <=? code c)%N && (code c <=? 122)%N
  then ascii_of_N (code c - 32) else c.

Definition is_line_terminator (c : ascii) : bool :=
  (code c =? 10)%N || (code c =? 13)%N.

(** WhiteSpace and LineTerminator code units below 256. *)
Definition is_space (c : ascii) : bool :=
  ((9 <=? code c)%N && (code c <=? 13)%N) || (code c =? 32)%N || (code c =? 160)%N.

Definition atom_ok (icase : bool) (a : atom) (c : ascii) : bool :=
  match a with
  | AChar p =>
      if icase then Ascii.eqb (canonicalize p) (canonicalize c)
      else Ascii.eqb p c
  | AAny => negb (is_line_terminator c)
  | ASpace => is_space c
  end.

(** The continuation receives whether the position is still index 0 and
    the rest of the input; the result is the input left after the match. *)
Definition cont := bool -> string -> option string.

Fixpoint plus_match (icase : bool) (a : atom) (s : string) (k : cont)
  : option string :=
  match s with
  | EmptyString => None
  | String c s' =>
      if atom_ok icase a c then
        match plus_match icase a s' k with
        | Some rest => Some rest
        | None => k false s'
        end
      else None
  end.

Fixpoint rmatch (icase : bool) (r : t) (bol : bool) (s : string) (k : cont)
  : option string :=
  match r with
  | Eps => k bol s
  | Atom a =>
      match s with
      | String c s' => if atom_ok icase a c then k false s' else None
      | EmptyString => None
      end
  | Bol => if bol then k bol s else None
  | Eol => match s with EmptyString => k bol s | _ => None end
  | Seq r1 r2 => rmatch icase r1 bol s (fun b s' => rmatch icase r2 b s' k)
  | Alt r1 r2 =>
      match rmatch icase r1 bol s k with
      | Some rest => Some rest
      | None => rmatch icase r2 bol s k
      end
  | Plus a => plus_match icase a s k
  end.

Definition match_here (icase : bool) (r : t) (bol : bool) (s : string)
  : option string :=
  rmatch icase r bol s (fun _ rest => Some rest).

(** The leftmost match: the text before it and the text after it. *)
Fixpoint search (icase : bool) (r : t) (bol : bool) (s : string)
  : option (string * string) :=
  match match_here icase r bol s with
  | Some rest => Some (EmptyString, rest)
  | None =>
      match s with
      | EmptyString => None
      | String c s' =>
          match search icase r false s' with
          | Some (pre, rest) => Some (String c pre, rest)
          | None => None
          end
      end
  end.

Record regexp := { pattern : t; ignoreCase : bool }.

(** [re.test(s)] for a regular expression without the [g] flag. *)
Definition test (re : regexp) (s : string) : bool :=
  match search (ignoreCase re) (pattern re) true s with
  | Some _ => true
  | None => false
  end.

(** [s.replace(re, rep)] for a regular expression without the [g] flag
    and a replacement text without [$]: only the leftmost match is
    replaced. *)
Definition replace (re : regexp) (rep s : string) : string :=
  match search (ignoreCase re) (pattern re) true s with
  | Some (pre, rest) => pre +:+ rep +:+ rest
  | None => s
  end.

Fixpoint lit (s : string) : t :=
  match s with
  | EmptyString => Eps
  | String c EmptyString => Atom (AChar c)
  | String c s' => Seq (Atom (AChar c)) (lit s')
  end.

Fixpoint alts (rs : list t) : t :=
  match rs with
  | [] => Eps
  | [r] => r
  | r :: rs' => Alt r (alts rs')
  end.

End Regex.

Import Regex.

Definition slash : ascii := "/"%char.
Definition backslash : ascii := "\"%char.
Definition dollar : ascii := "$"%char.

(** [(^|\/|\\)] and [(\/|\\|$)], shared by the two exclusion patterns. *)
Definition segment_start : Regex.t :=
  alts [Bol; Atom (AChar slash); Atom (AChar backslash)].
Definition segment_end : Regex.t :=
  alts [Atom (AChar slash); Atom (AChar backslash); Eol].

(** [/(^|\/|\\)(dist|node_modules|\.cache|\.turbo|\.shopify|CHANGELOG\.md)(\/|\\|$)/i] *)
Definition templateExclude : regexp :=
  {| pattern :=
       Seq segment_start
         (Seq (alts [lit "dist"; lit "node_modules"; lit ".cache";
                     lit ".turbo"; lit ".shopify"; lit "CHANGELOG.md"])
              segment_end);
     ignoreCase := true |}.

(** [/(^|\/|\\)(dist|node_modules|\.cache|.turbo|package\.json|tsconfig\.json)(\/|\\|$)/i]:
    the dot before [turbo] is not escaped. *)
Definition diffExclude : regexp :=
  {| pattern :=
       Seq segment_start
         (Seq (alts [lit "dist"; lit "node_modules"; lit ".cache";
                     Seq (Atom AAny) (lit "turbo");
                     lit "package.json"; lit "tsconfig.json"])
              segment_end);
     ignoreCase := true |}.

(** [/\s+--diff/] *)
Definition diffFlag : regexp :=
  {| pattern := Seq (Plus ASpace) (lit "--diff"); ignoreCase := false |}.

(** ** Paths

    [joinPath] and [relativePath] of [@shopify/cli-kit/node/path], which
    are those of [pathe], on absolute paths: both turn every backslash into
    a slash and then work on the list of segments of the path, in which
    empty and [.] segments are dropped and [..] removes the segment before
    it.  (The drive letter of a Windows path is outside the model.) *)

Module Path.

Definition step (stack : list string) (seg : string) : list string :=
  if String.eqb seg "" || String.eqb seg "." then stack
  else if String.eqb seg ".." then removelast stack
  else stack ++ [seg].

Definition normalize (segs : list string) : list string :=
  fold_left step segs [].

(** [normalizeWindowsPath] of [pathe]: every backslash becomes a slash. *)
Fixpoint normalizeWindowsPath (s : string) : string :=
  match s with
  | EmptyString => EmptyString
  | String c s' =>
      String (if Ascii.eqb c backslash then slash else c) (normalizeWindowsPath s')
  end.

(** The segments of the absolute path that [s] denotes. *)
Definition resolve (s : string) : list string :=
  normalize (Str.split slash (normalizeWindowsPath s)).

Definition to_string (p : list string) : string :=
  "/" +:+ Str.join "/" p.

Definition joinPath (a b : string) : string :=
  to_string (resolve (a +:+ "/" +:+ b)).

Fixpoint drop_common (from to : list string) : list string * list string :=
  match from, to with
  | f :: from', t :: to' =>
      if String.eqb f t then drop_common from' to' else (from, to)
  | _, _ => (from, to)
  end.

Definition relativePath (from to : string) : string :=
  let '(f, t) := drop_common (resolve from) (resolve to) in
  Str.join "/" (map (fun _ => "..") f ++ t).

(** The path of an entry [r] levels below the directory [base], as the
    directory walk of the copy and the watch backend build it. *)
Definition render (base : string) (r : list string) : string :=
  fold_left (fun acc seg => acc +:+ "/" +:+ seg) r base.

(** A segment that names a directory entry: it is not empty, [.] or [..]
    and holds neither separator. *)
Definition plain (seg : string) : bool :=
  negb (String.eqb seg "") && negb (String.eqb seg ".")
  && negb (String.eqb seg "..") && negb (Str.has_char slash seg)
  && negb (Str.has_char backslash seg).

End Path.

Import Path.

(** ** Package manifests *)

(** The values met under [dependencies] and [scripts]. *)
Inductive jsval :=
| JNull
| JBool (b : bool)
| JNum (n : Z)
| JStr (s : string).

Definition truthy (v : jsval) : bool :=
  match v with
  | JNull => false
  | JBool b => b
  | JNum n => negb (n =? 0)%Z
  | JStr s => negb (String.eqb s "")
  end.

(** [o ?? d] on the result of a property access. *)
Definition nullish_or (o : option jsval) (d : jsval) : jsval :=
  match o with
  | None | Some JNull => d
  | Some v => v
  end.

Record DiffOptions := {
  skipFiles : option (list string);
  skipDependencies : option (list string);
  skipDevDependencies : option (list string)
}.

(** The keys of a manifest that the program reads or writes. *)
Record PackageJson := {
  dependencies : option (gmap string jsval);
  devDependencies : option (gmap string jsval);
  scripts : option (gmap string jsval);
  h2_diff : option DiffOptions
}.

Definition set_dependencies (d : gmap string jsval) (p : PackageJson) :=
  {| dependencies := Some d; devDependencies := devDependencies p;
     scripts := scripts p; h2_diff := h2_diff p |}.

Definition set_devDependencies (d : gmap string jsval) (p : PackageJson) :=
  {| dependencies := dependencies p; devDependencies := Some d;
     scripts := scripts p; h2_diff := h2_diff p |}.

Definition set_scripts (s : gmap string jsval) (p : PackageJson) :=
  {| dependencies := dependencies p; devDependencies := devDependencies p;
     scripts := Some s; h2_diff := h2_diff p |}.

Definition no_options : DiffOptions :=
  {| skipFiles := None; skipDependencies := None; skipDevDependencies := None |}.

Definition cli_hydrogen : string := "@shopify/cli-hydrogen".

(** The body of the loop over [['build', 'dev', 'preview']]. *)
Definition strip_flag (pkgJson : PackageJson) (key : string) : PackageJson :=
  match scripts pkgJson with
  | Some sc =>
      match sc !! key with
      | Some (JStr scriptLine) =>
          if truthy (JStr scriptLine)
          then set_scripts (<[key := JStr (Regex.replace diffFlag "" scriptLine)]> sc) pkgJson
          else pkgJson
      | _ => pkgJson
      end
  | None => pkgJson
  end.

Definition delete_all (names : list string) (m : gmap string jsval)
  : gmap string jsval :=
  fold_left (fun acc name => delete name acc) names m.

(** The [onResult] callback that [applyTemplateDiff] hands to the manifest
    merge. *)
Definition onResult (templatePkgJson : PackageJson) (diffOptions : DiffOptions)
    (pkgJson : PackageJson) : PackageJson :=
  let pinned :=
    match dependencies pkgJson, dependencies templatePkgJson with
    | Some deps, Some templateDeps =>
        set_dependencies
          (<[cli_hydrogen := nullish_or (templateDeps !! cli_hydrogen) (JStr "*")]> deps)
          pkgJson
    | _, _ => pkgJson
    end in
  let stripped := fold_left strip_flag ["build"; "dev"; "preview"] pinned in
  let skipped :=
    match skipDependencies diffOptions, dependencies stripped with
    | Some names, Some deps => set_dependencies (delete_all names deps) stripped
    | _, _ => stripped
    end in
  match skipDevDependencies diffOptions, devDependencies skipped with
  | Some names, Some deps => set_devDependencies (delete_all names deps) skipped
  | _, _ => skipped
  end.

(** [pkgJson.scripts?.[key]] *)
Definition script_of (pkgJson : PackageJson) (key : string) : option jsval :=
  match scripts pkgJson with Some sc => sc !! key | None => None end.

(** [pkgJson.dependencies?.[name]] *)
Definition dependency_of (pkgJson : PackageJson) (name : string) : option jsval :=
  match dependencies pkgJson with Some deps => deps !! name | None => None end.

(** [createFilter(re, skipFiles)] of [applyTemplateDiff]: the file name is
    taken relative to the template directory in both copy passes. *)
Definition createFilter (templateDir : string) (re : regexp)
    (skipFiles : option (list string)) (filepath : string) : bool :=
  let filename := relativePath templateDir filepath in
  negb (Regex.test re filename)
  && negb (match skipFiles with
           | Some l => bool_decide (filename ∈ l)
           | None => false
           end).

(** ** The world: file system, watches, and what escaped

    A node of the file system sits at its resolved path.  [readonly] lists
    the paths that the operating system refuses to modify, [unwatchable]
    the directories that the watch backend fails to subscribe to, [stuck]
    the watched directories whose subscription rejects its [unsubscribe];
    [trace] records the mutating calls in the order in which they were
    made, [unhandled] the rejections of promises that nobody awaited or
    caught, and [console] what was logged. *)

Inductive node :=
| File (data : string)
| Dir
| Symlink (target : string).

Definition is_dir (n : node) : bool :=
  match n with Dir => true | _ => false end.

Inductive Error :=
| ENOENT (p : string)
| ENOTDIR (p : string)
| EISDIR (p : string)
| EACCES (p : string)
| EINVAL (src dest : string)
| SyntaxError (p : string)
| SubscribeError (dir : string)
| UnsubscribeError (dir : string)
| ImportError.

Inductive Op :=
| OpCopy (src dest : string)
| OpRemove (p : string)
| OpWrite (p : string)
| OpSymlink (src dest : string)
| OpMkdir (p : string)
| OpSubscribe (dir : string)
| OpUnsubscribe (dir : string).

Record World := {
  fs : gmap (list string) node;
  readonly : gset (list string);
  watching : gset string;
  stuck : gset string;
  unwatchable : gset string;
  watcher_loads : bool;
  trace : list Op;
  unhandled : list Error;
  console : list Error
}.

Definition set_fs (m : gmap (list string) node) (w : World) : World :=
  {| fs := m; readonly := readonly w; watching := watching w; stuck := stuck w;
     unwatchable := unwatchable w; watcher_loads := watcher_loads w; trace := trace w;
     unhandled := unhandled w; console := console w |}.

Definition set_watching (s : gset string) (w : World) : World :=
  {| fs := fs w; readonly := readonly w; watching := s; stuck := stuck w;
     unwatchable := unwatchable w; watcher_loads := watcher_loads w; trace := trace w;
     unhandled := unhandled w; console := console w |}.

Definition log_op (o : Op) (w : World) : World :=
  {| fs := fs w; readonly := readonly w; watching := watching w; stuck := stuck w;
     unwatchable := unwatchable w; watcher_loads := watcher_loads w; trace := trace w ++ [o];
     unhandled := unhandled w; console := console w |}.

Definition log_unhandled (e : Error) (w : World) : World :=
  {| fs := fs w; readonly := readonly w; watching := watching w; stuck := stuck w;
     unwatchable := unwatchable w; watcher_loads := watcher_loads w; trace := trace w;
     unhandled := unhandled w ++ [e]; console := console w |}.

Definition log_console (e : Error) (w : World) : World :=
  {| fs := fs w; readonly := readonly w; watching := watching w; stuck := stuck w;
     unwatchable := unwatchable w; watcher_loads := watcher_loads w; trace := trace w;
     unhandled := unhandled w; console := console w ++ [e] |}.

(** ** Promises *)

Inductive Result (A : Type) :=
| Fulfilled (a : A)
| Rejected (e : Error).
Arguments Fulfilled {A} a.
Arguments Rejected {A} e.

Definition Promise (A : Type) : Type := World -> Result A * World.

Definition resolve_with {A} (a : A) : Promise A := fun w => (Fulfilled a, w).
Definition reject {A} (e : Error) : Promise A := fun w => (Rejected e, w).

(** [await m] followed by [k]. *)
Definition await {A B} (m : Promise A) (k : A -> Promise B) : Promise B :=
  fun w =>
    match m w with
    | (Fulfilled a, w') => k a w'
    | (Rejected e, w') => (Rejected e, w')
    end.

#[export] Instance promise_bind : MBind Promise :=
  fun A B k m => await m k.
#[export] Instance promise_ret : MRet Promise :=
  fun A a => resolve_with a.

(** [m.catch(() => {})] *)
Definition catch_ignore {A} (m : Promise A) : Promise unit :=
  fun w => let '(_, w') := m w in (Fulfilled tt, w').

(** A promise that is created and then neither awaited nor given a
    rejection handler: its effects happen, and its rejection, if any, is
    left unhandled. *)
Definition detached {A} (m : Promise A) : Promise unit :=
  fun w =>
    match m w with
    | (Fulfilled _, w') => (Fulfilled tt, w')
    | (Rejected e, w') => (Fulfilled tt, log_unhandled e w')
    end.

(** [events.map(f)] whose array of promises is dropped ([await] of an array
    does not wait for its elements). *)
Fixpoint map_detached {A B} (f : A -> Promise B) (l : list A) : Promise unit :=
  match l with
  | [] => resolve_with tt
  | x :: l' => detached (f x);; map_detached f l'
  end.

(** [Promise.all(ps)]: every promise of the array has been started and runs
    to its end; the result is rejected as soon as one of them is.  The
    promises of the model run one after the other, so the rejection that
    is reported, the first in time, is the first of the array. *)
Fixpoint Promise_all {A} (ps : list (Promise A)) : Promise (list A) :=
  match ps with
  | [] => resolve_with []
  | p :: ps' =>
      fun w =>
        let '(r, w1) := p w in
        let '(rs, w2) := Promise_all ps' w1 in
        match r, rs with
        | Fulfilled a, Fulfilled l => (Fulfilled (a :: l), w2)
        | Rejected e, _ => (Rejected e, w2)
        | Fulfilled _, Rejected e => (Rejected e, w2)
        end
  end.

(** ** File-system primitives

    [fileExists], [copyFile] and [removeFile] of [@shopify/cli-kit/node/fs],
    [copy] and [createSymlink] of [fs-extra]. *)

Fixpoint drop_prefix (p k : list string) : option (list string) :=
  match p, k with
  | [], _ => Some k
  | a :: p', b :: k' => if String.eqb a b then drop_prefix p' k' else None
  | _ :: _, [] => None
  end.

Definition is_prefix (p k : list string) : bool :=
  match drop_prefix p k with Some _ => true | None => false end.

(** The directory walk of [copy]: the filter is asked for the directory
    itself and then for each entry on the way down; what it refuses is
    neither copied nor entered. *)
Fixpoint included (filter : string -> bool) (cur : string) (r : list string) : bool :=
  filter cur &&
  match r with
  | [] => true
  | seg :: r' => included filter (cur +:+ "/" +:+ seg) r'
  end.

(** The entries below [src] that the walk reaches, by their relative path. *)
Definition selected (filter : string -> bool) (src : string)
    (m : gmap (list string) node) : list (list string * node) :=
  omap (fun '(k, n) =>
          match drop_prefix (resolve src) k with
          | Some r => if included filter src r then Some (r, n) else None
          | None => None
          end)
       (map_to_list m).

(** What the walk writes below [d]. *)
Definition copied (filter : string -> bool) (src : string) (d : list string)
    (m : gmap (list string) node) : gmap (list string) node :=
  list_to_map (map (fun e => (d ++ e.1, e.2)) (selected filter src m)).

(** A directory cannot replace a non-directory, nor the converse. *)
Definition clashes (m : gmap (list string) node) (dest : list string)
    (e : list string * node) : bool :=
  match m !! (dest ++ e.1) with
  | Some n => negb (Bool.eqb (is_dir n) (is_dir e.2))
  | None => false
  end.

(** The proper ancestors of a path, the root first. *)
Fixpoint ancestors (p : list string) : list (list string) :=
  match p with
  | [] => []
  | seg :: p' => [] :: map (cons seg) (ancestors p')
  end.

Definition mkdirs (p : list string) (m : gmap (list string) node)
  : gmap (list string) node :=
  fold_right (fun q acc => match acc !! q with
                           | None => <[q := Dir]> acc
                           | Some _ => acc
                           end) m (ancestors p).

Definition blocked (m : gmap (list string) node) (p : list string) : bool :=
  existsb (fun q => match m !! q with
                    | Some Dir | None => false
                    | Some _ => true
                    end) (ancestors p).

(** Every proper ancestor of an entry is a directory. *)
Definition fs_wf (m : gmap (list string) node) : bool :=
  forallb (fun kv =>
             forallb (fun q => match m !! q with
                               | Some Dir => true
                               | _ => false
                               end) (ancestors kv.1))
          (map_to_list m).

(** No symbolic link sits at [k] or above it: the path means the same to
    the model, which looks it up as it is written, and to the operating
    system, which follows links. *)
Definition no_link_on (m : gmap (list string) node) (k : list string) : bool :=
  forallb (fun q => match m !! q with
                    | Some (Symlink _) => false
                    | _ => true
                    end) (ancestors k ++ [k]).

(** [fileExists(p)]: whether there is a node at [p].  (The program asks
    for what lies behind a link; the two agree where [no_link_on] holds.) *)
Definition fileExists (p : string) : Promise bool :=
  fun w => (Fulfilled (bool_decide (is_Some (fs w !! resolve p))), w).

Definition readFile (p : string) : Promise string :=
  fun w =>
    match fs w !! resolve p with
    | Some (File data) => (Fulfilled data, w)
    | Some _ => (Rejected (EISDIR p), w)
    | None => (Rejected (ENOENT p), w)
    end.

Definition writeFile (p data : string) : Promise unit :=
  fun w =>
    let w := log_op (OpWrite p) w in
    if bool_decide (resolve p ∈ readonly w) then (Rejected (EACCES p), w)
    else match fs w !! resolve p with
         | Some Dir => (Rejected (EISDIR p), w)
         | _ => (Fulfilled tt, set_fs (<[resolve p := File data]> (fs w)) w)
         end.

(** [copy(src, dest, {filter})], overwriting by default.  The source is read
    as it was when the call was made.  The copy is one step of the model:
    it either fails before anything is written or is made in full (the
    library writes entry by entry, so what the model says of a failed copy
    of a directory is not relied upon). *)
Definition copy (filter : string -> bool) (src dest : string) : Promise unit :=
  fun w =>
    let w := log_op (OpCopy src dest) w in
    let m := fs w in
    let s := resolve src in
    let d := resolve dest in
    match m !! s with
    | None => (Rejected (ENOENT src), w)
    | Some n =>
        if is_prefix s d then (Rejected (EINVAL src dest), w)
        else if clashes m d ([], n) then (Rejected (EISDIR dest), w)
        else if negb (filter src) then (Fulfilled tt, w)
        else if blocked m d then (Rejected (ENOTDIR dest), w)
        else if bool_decide (d ∈ readonly w) then (Rejected (EACCES dest), w)
        else
          let entries := selected filter src m in
          if existsb (clashes m d) entries then (Rejected (EISDIR dest), w)
          else
            (Fulfilled tt, set_fs (copied filter src d m ∪ mkdirs d m) w)
    end.

Definition copyDirectory := copy.

Definition copyFile (from to : string) : Promise unit :=
  copy (fun _ => true) from to.

(** [remove(p)]: recursive and forced, so an absent path is no failure.
    What goes is the entry at [p] as it is written, with all below it. *)
Definition remove (p : string) : Promise unit :=
  fun w =>
    let w := log_op (OpRemove p) w in
    if bool_decide (resolve p ∈ readonly w) then (Rejected (EACCES p), w)
    else (Fulfilled tt,
          set_fs (filter (fun kv => is_prefix (resolve p) kv.1 = false) (fs w)) w).

(** [createSymlink(src, dest)]: the source has to exist; a link that is
    already there and points to the source is left alone, anything else at
    the destination makes the call fail (the code of that failure, EEXIST,
    plays no part here and is reported as [EINVAL]). *)
Definition createSymlink (src dest : string) : Promise unit :=
  fun w =>
    let w := log_op (OpSymlink src dest) w in
    match fs w !! resolve src with
    | None => (Rejected (ENOENT src), w)
    | Some _ =>
        match fs w !! resolve dest with
        | Some (Symlink to) =>
            if String.eqb to src then (Fulfilled tt, w)
            else (Rejected (EINVAL src dest), w)
        | Some _ => (Rejected (EINVAL src dest), w)
        | None =>
            if blocked (fs w) (resolve dest) then (Rejected (ENOTDIR dest), w)
            else (Fulfilled tt,
                  set_fs (<[resolve dest := Symlink src]>
                            (mkdirs (resolve dest) (fs w))) w)
        end
    end.

(** ** Watch subscriptions ([@parcel/watcher]) *)

(** The [type] of an event: ['create'], ['update'] or ['delete']. *)
Inductive EventType := ev_create | ev_update | ev_delete.

Record Event := { path : string; type : EventType }.

Record Subscription := { watched : string }.

(** [subscribe(dir, callback, options)]: the backend may fail to watch the
    directory, and then the promise is rejected. *)
Definition subscribe (dir : string) : Promise Subscription :=
  fun w =>
    let w := log_op (OpSubscribe dir) w in
    if bool_decide (dir ∈ unwatchable w)
    then (Rejected (SubscribeError dir), w)
    else (Fulfilled {| watched := dir |}, set_watching ({[dir]} ∪ watching w) w).

Definition unsubscribe (sub : Subscription) : Promise unit :=
  fun w =>
    let w := log_op (OpUnsubscribe (watched sub)) w in
    if bool_decide (watched sub ∈ stuck w)
    then (Rejected (UnsubscribeError (watched sub)), w)
    else (Fulfilled tt, set_watching (watching w ∖ {[watched sub]}) w).

(** [subscriptions.map((sub) => sub?.unsubscribe())] *)
Definition unsubscribe_each (subs : list (option Subscription))
  : list (Promise unit) :=
  map (fun sub => match sub with
                  | Some s => unsubscribe s
                  | None => mret tt
                  end) subs.

(** The directories of the watches held in an array of subscriptions. *)
Definition watched_dirs (subs : list (option Subscription)) : list string :=
  omap (fun sub => watched <$> sub) subs.

Definition console_error (e : Error) : Promise unit :=
  fun w => (Fulfilled tt, log_console e w).

(** ** The callbacks of [prepareDiffDirectory]

    Each callback is given with the directories it closes over.  The
    [ignore] list handed to [subscribe] decides which events the backend
    delivers; a callback is modelled on the events that reach it. *)

Section Callbacks.

Variables targetDirectory diffDirectory templateDirectory : string.

(** The function mapped over the events of the target directory. *)
Definition targetEvent (event : Event) : Promise unit :=
  copyFile (path event)
    (joinPath diffDirectory (relativePath targetDirectory (path event))).

Definition targetCallback (error : option Error) (events : list Event)
  : Promise unit :=
  match error with
  | Some e => console_error e
  | None => map_detached targetEvent events
  end.

(** The function mapped over the events of the diff directory. *)
Definition diffEvent (event : Event) : Promise unit :=
  let targetFile :=
    joinPath targetDirectory (relativePath diffDirectory (path event)) in
  let fileInTemplate :=
    Str.replace diffDirectory templateDirectory (path event) in
  match type event with
  | ev_delete =>
      catch_ignore
        (exists_ ← fileExists fileInTemplate;
         if exists_ : bool
         then copyFile fileInTemplate targetFile
         else remove targetFile)
  | _ => copyFile (path event) targetFile
  end.

Definition diffCallback (error : option Error) (events : list Event)
  : Promise unit :=
  match error with
  | Some e => console_error e
  | None => map_detached diffEvent events
  end.

(** The function mapped over the events of the template directory. *)
Definition templateEvent (event : Event) : Promise unit :=
  let fileInDiff :=
    Str.replace templateDirectory diffDirectory (path event) in
  exists_ ← fileExists fileInDiff;
  if exists_ : bool then mret tt
  else
    let targetFile :=
      joinPath targetDirectory (relativePath templateDirectory (path event)) in
    match type event with
    | ev_delete => catch_ignore (remove targetFile)
    | _ => copyFile (path event) targetFile
    end.

Definition templateCallback (error : option Error) (events : list Event)
  : Promise unit :=
  match error with
  | Some e => console_error e
  | None => map_detached templateEvent events
  end.

(** The operations of the object that [prepareDiffDirectory] returns. *)
Definition cleanup (subscriptions : list (option Subscription)) : Promise unit :=
  Promise_all (unsubscribe_each subscriptions);;
  remove targetDirectory.

Definition copyShopifyConfig : Promise unit :=
  let source := joinPath targetDirectory ".shopify" in
  exists_ ← fileExists source;
  if negb exists_ then mret tt
  else
    let target := joinPath diffDirectory ".shopify" in
    remove target;;
    copyDirectory (fun _ => true) source target.

Definition copyDiffBuild : Promise unit :=
  let target := joinPath diffDirectory "dist" in
  remove target;;
  Promise_all
    [copyDirectory (fun _ => true) (joinPath targetDirectory "dist") target;
     copyFile (joinPath targetDirectory ".env") (joinPath diffDirectory ".env")];;
  mret tt.

End Callbacks.

(** ** [applyTemplateDiff] and [prepareDiffDirectory] *)

Section Program.

(** What the program takes from its environment: the JSON codec, the
    locators of [./build.js], the name that [tempy] hands out, and the
    structural merge of two manifests done inside [mergePackageJson]. *)
Variable JSON_parse : string -> option PackageJson.
Variable JSON_stringify : PackageJson -> string.
Variable getStarterDir : bool -> string.
Variable isHydrogenMonorepo : bool.
Variable getRepoNodeModules : string.
Variable temporaryName : string.
Variable merge_documents :
  list string -> PackageJson -> PackageJson -> PackageJson.

(** [readAndParsePackageJson] of [@shopify/cli-kit]. *)
Definition readAndParsePackageJson (p : string) : Promise PackageJson :=
  exists_ ← fileExists p;
  if negb exists_ then reject (ENOENT p)
  else
    text ← readFile p;
    match JSON_parse text with
    | Some pkg => mret pkg
    | None => reject (SyntaxError p)
    end.

(** Modelled from the spec: [mergePackageJson] of [./file.js], which is
    not among the sources.  It reads and parses the manifest of the
    destination and that of the source, merges the two (the keys of the
    source override those of the destination, the ignored keys apart:
    [merge_documents]), applies the caller's transform to the merged
    document and writes the result back to the destination; a manifest
    that is missing or cannot be parsed fails the step before anything
    is written. *)
Definition mergePackageJson (sourceDir targetDir : string)
    (ignoredKeys : list string) (transform : PackageJson -> PackageJson)
  : Promise unit :=
  targetPkgJson ← readAndParsePackageJson (joinPath targetDir "package.json");
  sourcePkgJson ← readAndParsePackageJson (joinPath sourceDir "package.json");
  writeFile (joinPath targetDir "package.json")
    (JSON_stringify
       (transform (merge_documents ignoredKeys sourcePkgJson targetPkgJson))).

Definition templateFilter (templateDir : string) (diffOptions : DiffOptions)
  : string -> bool :=
  createFilter templateDir templateExclude
    (Some (match skipFiles diffOptions with Some l => l | None => [] end)).

Definition diffFilter (templateDir : string) : string -> bool :=
  createFilter templateDir diffExclude None.

Definition applyTemplateDiff (targetDirectory diffDirectory : string)
    (templateDir : option string) : Promise unit :=
  let templateDir :=
    match templateDir with Some d => d | None => getStarterDir false end in
  manifests ← Promise_all
    [readAndParsePackageJson (joinPath diffDirectory "package.json");
     readAndParsePackageJson (joinPath templateDir "package.json")];
  match manifests with
  | [diffPkgJson; templatePkgJson] =>
      let diffOptions :=
        match h2_diff diffPkgJson with Some o => o | None => no_options end in
      copyDirectory (templateFilter templateDir diffOptions)
        templateDir targetDirectory;;
      copyDirectory (diffFilter templateDir) diffDirectory targetDirectory;;
      mergePackageJson diffDirectory targetDirectory ["h2:diff"]
        (onResult templatePkgJson diffOptions)
  | _ => mret tt
  end.

(** [temporaryDirectory] of [tempy]: a new directory is made. *)
Definition temporaryDirectory : Promise string :=
  fun w =>
    let w := log_op (OpMkdir temporaryName) w in
    (Fulfilled temporaryName,
     set_fs (<[resolve temporaryName := Dir]>
               (mkdirs (resolve temporaryName) (fs w))) w).

(** The dynamic import of the watch backend, with its [catch]. *)
Definition import_watcher : Promise bool :=
  fun w =>
    if watcher_loads w then (Fulfilled true, w)
    else (Fulfilled false, log_console ImportError w).

Definition subscribe_with (pw : bool) (dir : string)
  : Promise (option Subscription) :=
  if pw then (s ← subscribe dir; mret (Some s)) else mret None.

Record Session := {
  sessionTarget : string;
  sessionTemplate : string;
  subscriptions : list (option Subscription)
}.

(** The session that [prepareDiffDirectory] sets up; what it prints on the
    terminal is left out.  The operations of the returned object are
    [cleanup], [copyShopifyConfig] and [copyDiffBuild] above, applied to
    the directories and to the subscriptions of the session. *)
Definition prepareDiffDirectory (diffDirectory : string) (watch : bool)
  : Promise Session :=
  targetDirectory ← temporaryDirectory;
  let templateDirectory := getStarterDir isHydrogenMonorepo in
  applyTemplateDiff targetDirectory diffDirectory (Some templateDirectory);;
  createSymlink getRepoNodeModules (joinPath targetDirectory "node_modules");;
  pw ← (if watch then import_watcher else mret false);
  subs ← Promise_all
    [subscribe_with pw targetDirectory;
     subscribe_with pw diffDirectory;
     subscribe_with pw templateDirectory];
  mret {| sessionTarget := targetDirectory;
          sessionTemplate := templateDirectory;
          subscriptions := subs |}.

End Program.


(** ** Notions used in the statements *)

(** The path that a logged call writes to. *)
Definition writes_to (o : Op) (p : string) : Prop :=
  match o with
  | OpCopy _ dest => dest = p
  | OpRemove q => q = p
  | _ => False
  end.

(** [pkgJson.devDependencies?.[name]] *)
Definition devDependency_of (pkgJson : PackageJson) (name : string) : option jsval :=
  match devDependencies pkgJson with Some deps => deps !! name | None => None end.

(** The manifest after the pin and the loop over the scripts. *)
Definition stripped_manifest (tpl pkg : PackageJson) : PackageJson :=
  fold_left strip_flag ["build"; "dev"; "preview"]
    (match dependencies pkg, dependencies tpl with
     | Some deps, Some templateDeps =>
         set_dependencies
           (<[cli_hydrogen := nullish_or (templateDeps !! cli_hydrogen) (JStr "*")]> deps)
           pkg
     | _, _ => pkg
     end).

(** Two strings that differ by the case of their letters only. *)
Fixpoint same_letters (a b : string) : bool :=
  match a, b with
  | EmptyString, EmptyString => true
  | String x a', String y b' =>
      Ascii.eqb (canonicalize x) (canonicalize y) && same_letters a' b'
  | _, _ => false
  end.

(** The names that the pattern of the template pass spells out, and those
    of the diff pass. *)
Definition template_excluded : list string :=
  ["dist"; "node_modules"; ".cache"; ".turbo"; ".shopify"; "CHANGELOG.md"].
Definition diff_excluded : list string :=
  ["dist"; "node_modules"; ".cache"; ".turbo"; "package.json"; "tsconfig.json"].

(** Two continuations of the matcher that agree on strings of the same
    letters. *)
Definition cont_same (k k' : cont) : Prop :=
  forall b t t', same_letters t t' = true -> is_Some (k b t) <-> is_Some (k' b t').

(** What a copy pass takes from [dir] for the relative path [r]. *)
Definition taken (f : string -> bool) (dir : string)
    (m : gmap (list string) node) (r : list string) : option node :=
  if included f dir r then m !! (resolve dir ++ r) else None.

(** The entry of the diff if the diff pass takes one, else the entry of the
    template if the template pass takes one, else what was there. *)
Definition overlay (fromDiff fromTemplate old : option node) : option node :=
  match fromDiff with
  | Some n => Some n
  | None => match fromTemplate with Some n => Some n | None => old end
  end.

(** The names that neither pass copies. *)
Definition never_copied : list string :=
  ["dist"; "node_modules"; ".cache"; ".turbo"].

(** The names that the diff pass alone leaves out. *)
Definition left_to_the_template : list string :=
  ["package.json"; "tsconfig.json"].

(** [diffPkgJson['h2:diff'] ?? {}] *)
Definition options_of (pkg : PackageJson) : DiffOptions :=
  match h2_diff pkg with Some o => o | None => no_options end.

(** [w'] comes after [w] by steps that add or overwrite entries of the file
    system and leave the watches, the console and the permissions alone. *)
Definition extends (w w' : World) : Prop :=
  watching w' = watching w /\ stuck w' = stuck w
  /\ watcher_loads w' = watcher_loads w /\ console w' = console w
  /\ readonly w' = readonly w /\ unwatchable w' = unwatchable w
  /\ forall k, is_Some (fs w !! k) -> is_Some (fs w' !! k).

(** The backend can watch every directory of [dirs]. *)
Definition watchable (w : World) (dirs : list string) : bool :=
  forallb (fun d => negb (bool_decide (d ∈ unwatchable w))) dirs.

(** [w'] has the entries of [w] wherever the path is neither at or below
    [dir] nor one of the directories above it. *)
Definition same_outside (dir : list string) (w w' : World) : Prop :=
  forall k, ~ dir `prefix_of` k -> ~ k `prefix_of` dir -> fs w' !! k = fs w !! k.

(** Every run of [m], whatever its outcome, ends in a world related by [R]
    to the one it started in. *)
Definition preserving {A} (R : relation World) (m : Promise A) : Prop :=
  forall w, R w (m w).2.

(** The last steps of [prepareDiffDirectory]: the import of the backend and
    the three subscriptions. *)
Definition start_watching (targetDirectory diffDirectory templateDirectory : string)
    (watch : bool) : Promise Session :=
  pw ← (if watch then import_watcher else mret false);
  subs ← Promise_all
    [subscribe_with pw targetDirectory;
     subscribe_with pw diffDirectory;
     subscribe_with pw templateDirectory];
  mret {| sessionTarget := targetDirectory;
          sessionTemplate := templateDirectory;
          subscriptions := subs |}.

(** ** Scenarios *)

Definition two_flags : PackageJson :=
  {| dependencies := None; devDependencies := None;
     scripts := Some {[ "build" := JStr "vite build --diff --diff" ]};
     h2_diff := None |}.

Definition empty_manifest : PackageJson :=
  {| dependencies := None; devDependencies := None; scripts := None;
     h2_diff := None |}.

Definition mkfs (entries : list (string * node)) : gmap (list string) node :=
  list_to_map (map (fun e => (resolve e.1, e.2)) entries).

Definition world_of (m : gmap (list string) node) : World :=
  {| fs := m; readonly := ∅; watching := ∅; stuck := ∅; unwatchable := ∅;
     watcher_loads := true;
     trace := []; unhandled := []; console := [] |}.

(** A codec that knows one document, the empty manifest. *)
Definition demo_parse (text : string) : option PackageJson :=
  if String.eqb text "{}" then Some empty_manifest else None.
Definition demo_stringify (_ : PackageJson) : string := "{}".
Definition demo_starter (_ : bool) : string := "/t".
Definition demo_merge (_ : list string) (source _ : PackageJson) : PackageJson :=
  source.

(** A template [/t], a diff [/d] that overrides [app/root.tsx], and an empty
    target [/x]. *)
Definition before_merge : World :=
  world_of (mkfs
    [("/", Dir); ("/t", Dir); ("/d", Dir); ("/x", Dir);
     ("/t/package.json", File "{}"); ("/d/package.json", File "{}");
     ("/t/app", Dir); ("/t/app/root.tsx", File "template root");
     ("/t/app/entry.ts", File "template entry");
     ("/t/xturbo", Dir); ("/t/xturbo/f", File "template f");
     ("/t/.turbo", Dir); ("/t/.turbo/log", File "template log");
     ("/d/app", Dir); ("/d/app/root.tsx", File "diff root");
     ("/d/xturbo", Dir); ("/d/xturbo/g", File "diff g")]).

Definition after_merge : World :=
  (applyTemplateDiff demo_parse demo_stringify demo_starter demo_merge
     "/x" "/d" (Some "/t") before_merge).2.

(** The same directories without the manifest of the diff. *)
Definition without_diff_manifest : World :=
  world_of (mkfs
    [("/", Dir); ("/t", Dir); ("/d", Dir); ("/x", Dir);
     ("/t/package.json", File "{}");
     ("/x/keep.txt", File "kept")]).

(** A session in progress: the target holds the merge; since then the
    template has a newer [app/entry.ts]. *)
Definition live : World :=
  world_of (mkfs
    [("/", Dir); ("/t", Dir); ("/d", Dir); ("/x", Dir);
     ("/t/app", Dir); ("/t/app/root.tsx", File "template root");
     ("/t/app/entry.ts", File "template entry, edited");
     ("/d/app", Dir); ("/d/app/root.tsx", File "diff root");
     ("/x/app", Dir); ("/x/app/root.tsx", File "diff root");
     ("/x/app/entry.ts", File "template entry");
     ("/x/app/old.ts", File "old")]).

(** The same session once [app/root.tsx] has been deleted from the diff. *)
Definition live_diff_file_deleted : World :=
  world_of (mkfs
    [("/", Dir); ("/t", Dir); ("/d", Dir); ("/x", Dir);
     ("/t/app", Dir); ("/t/app/root.tsx", File "template root");
     ("/t/app/entry.ts", File "template entry, edited");
     ("/d/app", Dir);
     ("/x/app", Dir); ("/x/app/root.tsx", File "diff root");
     ("/x/app/entry.ts", File "template entry");
     ("/x/app/old.ts", File "old")]).

(** The three watches are live. *)
Definition live_watching : World :=
  {| fs := fs live; readonly := ∅; watching := {["/x"; "/d"; "/t"]};
     stuck := ∅; unwatchable := ∅; watcher_loads := true;
     trace := []; unhandled := []; console := [] |}.

(** The three watches are live and the one of the diff directory refuses
    to unsubscribe. *)
Definition live_stuck : World :=
  {| fs := fs live; readonly := ∅; watching := {["/x"; "/d"; "/t"]};
     stuck := {["/d"]}; unwatchable := ∅; watcher_loads := true;
     trace := []; unhandled := []; console := [] |}.

Definition all_subscriptions : list (option Subscription) :=
  [Some {| watched := "/x" |}; Some {| watched := "/d" |};
   Some {| watched := "/t" |}].

(** The manifests of the example of the specification. *)
Definition one_flag : PackageJson :=
  {| dependencies := Some {[ "a" := JStr "1.0.0" ]}; devDependencies := None;
     scripts := Some {[ "build" := JStr "vite build --diff" ]};
     h2_diff := None |}.
Definition template_manifest : PackageJson :=
  {| dependencies := Some {[ cli_hydrogen := JStr "^3.0.0" ]};
     devDependencies := None; scripts := None; h2_diff := None |}.

(** A session after a build: the target holds the build, its environment
    file, the tunnel configuration and a generated declaration file; the
    diff directory holds an older build. *)
Definition built : World :=
  world_of (mkfs
    [("/", Dir); ("/t", Dir); ("/d", Dir); ("/x", Dir);
     ("/x/dist", Dir); ("/x/dist/index.js", File "new build");
     ("/x/.env", File "SESSION_SECRET=1");
     ("/x/.shopify", Dir); ("/x/.shopify/project.json", File "tunnel");
     ("/x/env.generated.d.ts", File "declarations");
     ("/d/dist", Dir); ("/d/dist/old.js", File "old build")]).

(** The same session before any build. *)
Definition not_built : World :=
  world_of (mkfs
    [("/", Dir); ("/t", Dir); ("/d", Dir); ("/x", Dir);
     ("/d/dist", Dir); ("/d/dist/old.js", File "old build")]).

(** Options of a diff, and a merged manifest that they apply to. *)
Definition skipping : DiffOptions :=
  {| skipFiles := Some ["app/entry.ts"];
     skipDependencies := Some ["b"];
     skipDevDependencies := Some ["c"] |}.

Definition merged_manifest : PackageJson :=
  {| dependencies := Some {[ "a" := JStr "1.0.0"; "b" := JStr "2.0.0" ]};
     devDependencies := Some {[ "c" := JStr "3.0.0"; "d" := JStr "4.0.0" ]};
     scripts := Some {[ "build" := JStr "vite build --diff";
                        "test" := JStr "vitest --diff" ]};
     h2_diff := None |}.

Definition skipping_manifest : PackageJson :=
  {| dependencies := None; devDependencies := None; scripts := None;
     h2_diff := Some skipping |}.

(** A codec that also knows the manifest with the options. *)
Definition options_parse (text : string) : option PackageJson :=
  if String.eqb text "skip" then Some skipping_manifest else demo_parse text.

(** A template and a diff whose manifest skips [app/entry.ts]; both have
    a [tsconfig.json]. *)
Definition before_skipping_merge : World :=
  world_of (mkfs
    [("/", Dir); ("/t", Dir); ("/d", Dir); ("/x", Dir);
     ("/t/package.json", File "{}"); ("/d/package.json", File "skip");
     ("/t/tsconfig.json", File "template tsconfig");
     ("/d/tsconfig.json", File "diff tsconfig");
     ("/t/app", Dir); ("/t/app/entry.ts", File "template entry");
     ("/t/app/root.tsx", File "template root")]).

Definition after_skipping_merge : World :=
  (applyTemplateDiff options_parse demo_stringify demo_starter demo_merge
     "/x" "/d" (Some "/t") before_skipping_merge).2.

(** A template, a diff and the modules of the repository, before a session
    is prepared in [/tmp/h2]. *)
Definition before_session : World :=
  world_of (mkfs
    [("/", Dir); ("/t", Dir); ("/d", Dir); ("/node_modules", Dir);
     ("/t/package.json", File "{}"); ("/d/package.json", File "{}");
     ("/t/app", Dir); ("/t/app/root.tsx", File "template root");
     ("/d/app", Dir); ("/d/app/root.tsx", File "diff root")]).

Definition demo_session : Session :=
  {| sessionTarget := "/tmp/h2"; sessionTemplate := "/t";
     subscriptions := [Some {| watched := "/tmp/h2" |};
                       Some {| watched := "/d" |};
                       Some {| watched := "/t" |}] |}.

Definition after_prepare : World :=
  (prepareDiffDirectory demo_parse demo_stringify demo_starter true
     "/node_modules" "/tmp/h2" demo_merge "/d" true before_session).2.

(** The same, with a watch backend that does not load. *)
Definition before_session_without_backend : World :=
  {| fs := fs before_session; readonly := ∅; watching := ∅; stuck := ∅;
     unwatchable := ∅; watcher_loads := false;
     trace := []; unhandled := []; console := [] |}.

(** The same, with a backend that cannot watch the template. *)
Definition before_session_unwatchable : World :=
  {| fs := fs before_session; readonly := ∅; watching := ∅; stuck := ∅;
     unwatchable := {["/t"]}; watcher_loads := true;
     trace := []; unhandled := []; console := [] |}.

Definition after_failed_prepare : World :=
  (prepareDiffDirectory demo_parse demo_stringify demo_starter true
     "/node_modules" "/tmp/h2" demo_merge "/d" true without_diff_manifest).2.


(** * Properties *)

(** Unfolds the plumbing of promises. *)
Ltac run_promise :=
  unfold mbind, promise_bind, await, mret, promise_ret, resolve_with, reject.

(** ** Facts about strings *)

Lemma append_nil (b : string) : "" +:+ b = b.
Proof. reflexivity. Qed.

Lemma append_cons c (a b : string) : String c a +:+ b = String c (a +:+ b).
Proof. reflexivity. Qed.

Lemma append_assoc (a b c : string) : (a +:+ b) +:+ c = a +:+ (b +:+ c).
Proof.
  induction a as [|x a IH]; [done |].
  by rewrite !append_cons, IH.
Qed.

Lemma append_empty_r (a : string) : a +:+ "" = a.
Proof. induction a as [|x a IH]; [done |]. by rewrite append_cons, IH. Qed.

Lemma strip_prefix_app (p rest : string) :
  Str.strip_prefix p (p +:+ rest) = Some rest.
Proof.
  induction p as [|a p IH]; [done |].
  rewrite append_cons. simpl. by rewrite Ascii.eqb_refl.
Qed.

Lemma find_prefix (pat rest : string) :
  Str.find pat (pat +:+ rest) = Some ("", rest).
Proof.
  pose proof (strip_prefix_app pat rest) as H.
  destruct (pat +:+ rest); simpl; by rewrite H.
Qed.

(** A replacement text without a dollar is inserted as it is. *)
Lemma substitute_plain (rep matched before after : string) :
  Str.has_char dollar rep = false ->
  Str.substitute rep matched before after = rep.
Proof.
  induction rep as [|c rep IH]; [done |].
  cbn [Str.has_char Str.substitute]. intros H.
  apply orb_false_iff in H as [Hc Hr].
  fold dollar. by rewrite Hc, (IH Hr).
Qed.

Lemma replace_prefix (pat rep rest : string) :
  Str.has_char dollar rep = false ->
  Str.replace pat rep (pat +:+ rest) = rep +:+ rest.
Proof.
  intros H. unfold Str.replace. by rewrite find_prefix, substitute_plain.
Qed.

(** A dollar in the replacement text is not inserted as it is: here [$&]
    stands for the text that was matched. *)
Example replacement_text_is_expanded :
  Str.replace "/d" "/t$&" "/d/app/root.tsx" = "/t/d/app/root.tsx".
Proof. reflexivity. Qed.

Lemma has_char_app c (a b : string) :
  Str.has_char c (a +:+ b) = Str.has_char c a || Str.has_char c b.
Proof.
  induction a as [|x a IH]; [done |].
  rewrite append_cons. simpl. by rewrite IH, orb_assoc.
Qed.

Lemma split_nonempty sep s : Str.split sep s <> [].
Proof.
  destruct s as [|c s]; simpl; [done |].
  destruct (Ascii.eqb c sep); [done |].
  by destruct (Str.split sep s).
Qed.

Lemma split_app sep (a b : string) :
  Str.split sep (a +:+ String sep b) = Str.split sep a ++ Str.split sep b.
Proof.
  induction a as [|c a IH]; simpl.
  - by rewrite Ascii.eqb_refl.
  - destruct (Ascii.eqb c sep); [by rewrite IH |].
    rewrite IH. pose proof (split_nonempty sep a) as Hne.
    by destruct (Str.split sep a).
Qed.

Lemma split_no_sep sep s :
  Str.has_char sep s = false -> Str.split sep s = [s].
Proof.
  induction s as [|c s IH]; simpl; [done |].
  intros H. apply orb_false_iff in H as [Hc Hs].
  rewrite Hc, (IH Hs). done.
Qed.

Lemma split_no_sep_elem sep s x :
  x ∈ Str.split sep s -> Str.has_char sep x = false.
Proof.
  revert x. induction s as [|c s IH]; simpl; intros x Hx.
  - apply list_elem_of_singleton in Hx. by subst.
  - destruct (Ascii.eqb c sep) eqn:Hc.
    + apply elem_of_cons in Hx as [-> | Hx]; [done | by apply IH].
    + pose proof (split_nonempty sep s) as Hne.
      destruct (Str.split sep s) as [|h t]; [done |].
      apply elem_of_cons in Hx as [-> | Hx].
      * simpl. rewrite Hc. apply IH. by left.
      * apply IH. by right.
Qed.

Lemma split_has_char c sep s x :
  Str.has_char c s = false -> x ∈ Str.split sep s -> Str.has_char c x = false.
Proof.
  revert x. induction s as [|a s IH]; simpl; intros x Hs Hx.
  - apply list_elem_of_singleton in Hx. by subst.
  - apply orb_false_iff in Hs as [Ha Hs].
    destruct (Ascii.eqb a sep).
    + apply elem_of_cons in Hx as [-> | Hx]; [done | by apply IH].
    + pose proof (split_nonempty sep s) as Hne.
      destruct (Str.split sep s) as [|h t]; [done |].
      apply elem_of_cons in Hx as [-> | Hx].
      * simpl. rewrite Ha. apply IH; [done | by left].
      * apply IH; [done | by right].
Qed.

(** ** Facts about paths *)

Lemma normalizeWindowsPath_app (a b : string) :
  normalizeWindowsPath (a +:+ b)
  = normalizeWindowsPath a +:+ normalizeWindowsPath b.
Proof.
  induction a as [|c a IH]; [done |].
  rewrite append_cons. simpl. by rewrite IH.
Qed.

Lemma normalizeWindowsPath_id (s : string) :
  Str.has_char backslash s = false -> normalizeWindowsPath s = s.
Proof.
  induction s as [|c s IH]; [done |]. simpl. intros H.
  apply orb_false_iff in H as [Hc Hs]. by rewrite Hc, (IH Hs).
Qed.

Lemma normalizeWindowsPath_clean (s : string) :
  Str.has_char backslash (normalizeWindowsPath s) = false.
Proof.
  induction s as [|c s IH]; [done |]. simpl. rewrite IH.
  by destruct (Ascii.eqb c backslash) eqn:E; [| rewrite E].
Qed.

Lemma plain_no_backslash seg :
  plain seg = true -> Str.has_char backslash seg = false.
Proof.
  unfold plain. intros H. apply andb_true_iff in H as [_ H].
  by apply negb_true_iff.
Qed.

Lemma plain_spec seg :
  plain seg = true ->
  seg <> "" /\ seg <> "." /\ seg <> ".." /\ Str.has_char slash seg = false.
Proof.
  unfold plain. intros H.
  repeat (apply andb_true_iff in H as [H ?]).
  repeat split;
    try (intros ->; simpl in *; discriminate);
    by apply negb_true_iff.
Qed.

Lemma step_plain stack seg : plain seg = true -> step stack seg = stack ++ [seg].
Proof.
  unfold plain, step. intros H.
  repeat (apply andb_true_iff in H as [H ?]).
  apply negb_true_iff in H. rewrite H. simpl.
  destruct (String.eqb seg ".") eqn:E1; [done |].
  destruct (String.eqb seg "..") eqn:E2; [done |]. done.
Qed.

(** The segments of a path that continues [base] with a text free of
    backslashes. *)
Lemma resolve_app base s :
  Str.has_char backslash s = false ->
  resolve (base +:+ "/" +:+ s)
  = fold_left step (Str.split slash s) (resolve base).
Proof.
  intros H. unfold resolve, normalize.
  change (base +:+ "/" +:+ s) with (base +:+ String slash s).
  rewrite normalizeWindowsPath_app.
  change (normalizeWindowsPath (String slash s))
    with (String slash (normalizeWindowsPath s)).
  by rewrite (normalizeWindowsPath_id _ H), split_app, fold_left_app.
Qed.

Lemma resolve_child base seg :
  plain seg = true -> resolve (base +:+ "/" +:+ seg) = resolve base ++ [seg].
Proof.
  intros H. rewrite (resolve_app _ _ (plain_no_backslash _ H)).
  destruct (plain_spec _ H) as (_ & _ & _ & Hs).
  rewrite (split_no_sep _ _ Hs). simpl. by apply step_plain.
Qed.

Lemma resolve_render base r :
  forallb plain r = true -> resolve (render base r) = resolve base ++ r.
Proof.
  revert base. induction r as [|x r IH]; simpl; intros base H.
  - by rewrite app_nil_r.
  - apply andb_true_iff in H as [Hx Hr].
    unfold render in *. simpl. rewrite (IH _ Hr).
    rewrite (resolve_child _ _ Hx), <- app_assoc. done.
Qed.

(** The text that [render] appends to the directory. *)
Lemma render_append base r : render base r = base +:+ render "" r.
Proof.
  revert base. induction r as [|x r IH]; intros base.
  - simpl. by rewrite append_empty_r.
  - change (render base (x :: r)) with (render (base +:+ "/" +:+ x) r).
    change (render "" (x :: r)) with (render ("/" +:+ x) r).
    rewrite (IH (base +:+ _)), (IH ("/" +:+ x)).
    by rewrite append_assoc.
Qed.

Lemma replace_render (from to : string) r :
  Str.has_char dollar to = false ->
  Str.replace from to (render from r) = render to r.
Proof.
  intros H. by rewrite (render_append from), replace_prefix, <- render_append.
Qed.

Lemma drop_common_app l r : drop_common l (l ++ r) = ([], r).
Proof.
  induction l as [|x l IH]; simpl.
  - by destruct r.
  - by rewrite String.eqb_refl.
Qed.

Lemma drop_common_spec f t f' t' :
  drop_common f t = (f', t') -> exists c, f = c ++ f' /\ t = c ++ t'.
Proof.
  revert t. induction f as [|x f IH]; simpl; intros t H.
  - injection H as <- <-. by exists [].
  - destruct t as [|y t]; [injection H as <- <-; by exists [] |].
    destruct (String.eqb x y) eqn:E.
    + apply String.eqb_eq in E as ->.
      destruct (IH _ H) as (c & -> & ->). by exists (y :: c).
    + injection H as <- <-. by exists [].
Qed.

Lemma split_join r st :
  forallb plain r = true ->
  fold_left step (Str.split slash (Str.join "/" r)) st = st ++ r.
Proof.
  revert st. induction r as [|x r IH]; intros st H.
  - simpl. by rewrite app_nil_r.
  - simpl in H. apply andb_true_iff in H as [Hx Hr].
    destruct (plain_spec _ Hx) as (_ & _ & _ & Hs).
    destruct r as [|y r].
    + simpl. rewrite (split_no_sep _ _ Hs). simpl. by apply step_plain.
    + change (Str.join "/" (x :: y :: r))
        with (x +:+ String slash (Str.join "/" (y :: r))).
      rewrite split_app, fold_left_app, (split_no_sep _ _ Hs). simpl fold_left at 2.
      rewrite (step_plain _ _ Hx), (IH _ Hr), <- app_assoc. done.
Qed.

Lemma join_clean p :
  forallb plain p = true -> Str.has_char backslash (Str.join "/" p) = false.
Proof.
  induction p as [|x p IH]; [done |]. intros H.
  simpl in H. apply andb_true_iff in H as [Hx Hp].
  destruct p as [|y p]; [by apply plain_no_backslash |].
  change (Str.join "/" (x :: y :: p)) with (x +:+ "/" +:+ Str.join "/" (y :: p)).
  by rewrite !has_char_app, (plain_no_backslash _ Hx), (IH Hp).
Qed.

Lemma resolve_plain s : forallb plain (resolve s) = true.
Proof.
  unfold resolve, normalize.
  assert (forall l st,
            (forall x, x ∈ l -> Str.has_char slash x = false
                                /\ Str.has_char backslash x = false) ->
            forallb plain st = true -> forallb plain (fold_left step l st) = true) as H.
  { induction l as [|x l IH]; simpl; intros st Hl Hst; [done |].
    apply IH; [intros; apply Hl; by right |].
    unfold step.
    destruct (String.eqb x "") eqn:E0; [done |].
    destruct (String.eqb x ".") eqn:E1; [done |]. simpl.
    destruct (String.eqb x "..") eqn:E2.
    - clear -Hst. induction st as [|a st IH]; [done |].
      simpl in Hst. apply andb_true_iff in Hst as [Ha Hst].
      destruct st; [done |]. simpl removelast. simpl forallb.
      rewrite Ha. simpl. by apply IH.
    - rewrite forallb_app, Hst. simpl. unfold plain.
      destruct (Hl x) as [-> ->]; [by left |]. by rewrite E0, E1, E2. }
  apply H; [|done]. intros x Hx. split.
  - by apply (split_no_sep_elem _ _ _ Hx).
  - exact (split_has_char _ _ _ _ (normalizeWindowsPath_clean s) Hx).
Qed.

Lemma resolve_to_string p : forallb plain p = true -> resolve (to_string p) = p.
Proof.
  intros H. unfold to_string.
  change ("/" +:+ Str.join "/" p) with ("" +:+ "/" +:+ Str.join "/" p).
  rewrite (resolve_app _ _ (join_clean _ H)).
  change (resolve "") with (@nil string). by rewrite split_join.
Qed.

Lemma relativePath_render base r :
  forallb plain r = true -> relativePath base (render base r) = Str.join "/" r.
Proof.
  intros H. unfold relativePath. by rewrite resolve_render, drop_common_app.
Qed.

Lemma resolve_joinPath base r :
  forallb plain r = true ->
  resolve (joinPath base (Str.join "/" r)) = resolve base ++ r.
Proof.
  intros H. unfold joinPath.
  assert (resolve (base +:+ "/" +:+ Str.join "/" r) = resolve base ++ r) as ->.
  { by rewrite (resolve_app _ _ (join_clean _ H)), split_join. }
  apply resolve_to_string. rewrite forallb_app, resolve_plain. done.
Qed.

(** ** Facts about the matcher *)

Lemma rmatch_alt_r icase r1 r2 bol s k :
  is_Some (rmatch icase r2 bol s k) -> is_Some (rmatch icase (Alt r1 r2) bol s k).
Proof. simpl. intros H. by destruct (rmatch icase r1 bol s k). Qed.

Lemma search_unfold icase r bol s :
  search icase r bol s
  = match match_here icase r bol s with
    | Some rest => Some ("", rest)
    | None =>
        match s with
        | EmptyString => None
        | String c s' =>
            match search icase r false s' with
            | Some (pre, rest) => Some (String c pre, rest)
            | None => None
            end
        end
    end.
Proof. by destruct s. Qed.

Lemma search_here icase r bol s :
  is_Some (match_here icase r bol s) -> is_Some (search icase r bol s).
Proof. intros [x H]. rewrite search_unfold, H. eauto. Qed.

Lemma search_cons icase r bol c s :
  search icase r bol (String c s)
  = match match_here icase r bol (String c s) with
    | Some rest => Some ("", rest)
    | None =>
        match search icase r false s with
        | Some (pre, rest) => Some (String c pre, rest)
        | None => None
        end
    end.
Proof. reflexivity. Qed.

Lemma search_later icase r pre : forall c bol s,
  is_Some (search icase r false s) ->
  is_Some (search icase r bol (String c pre +:+ s)).
Proof.
  induction pre as [|c' pre IH]; intros c bol s Hs.
  - rewrite append_cons, append_nil, search_cons.
    destruct (match_here icase r bol (String c s)); [eauto |].
    destruct Hs as [[p q] ->]. eauto.
  - rewrite append_cons, search_cons.
    destruct (match_here icase r bol _); [eauto |].
    destruct (IH c' false s Hs) as [[p q] ->]. eauto.
Qed.

(** A pattern that matches a segment at the start of the text and after a
    slash matches every text that ends with that segment. *)
Lemma search_last_segment icase r seg pre :
  is_Some (search icase r true seg) ->
  (forall b, is_Some (search icase r b ("/" +:+ seg))) ->
  pre = "" \/ (exists pre0, pre = pre0 +:+ "/") ->
  is_Some (search icase r true (pre +:+ seg)).
Proof.
  intros H0 H1 [-> | [pre0 ->]]; [done |].
  rewrite append_assoc. destruct pre0 as [|c pre0]; [apply H1 |].
  apply search_later, H1.
Qed.

Lemma lit_match p : forall b s,
  rmatch false (lit p) b s (fun _ rest => Some rest) = Str.strip_prefix p s.
Proof.
  induction p as [|c p IH]; intros b s; [done |].
  destruct p as [|c' p].
  - simpl. destruct s as [|a s]; [done |]. by destruct (Ascii.eqb c a).
  - change (lit (String c (String c' p)))
      with (Seq (Atom (AChar c)) (lit (String c' p))).
    destruct s as [|a s]; [done |].
    cbn [rmatch atom_ok Str.strip_prefix].
    destruct (Ascii.eqb c a); [apply IH | done].
Qed.

Lemma string_app_eq_app (a : string) : forall b c d,
  a +:+ b = c +:+ d ->
  exists u, (a = c +:+ u /\ d = u +:+ b) \/ (c = a +:+ u /\ b = u +:+ d).
Proof.
  induction a as [|x a IH]; intros b c d H.
  - exists c. right. by rewrite append_nil in *.
  - destruct c as [|y c].
    + exists (String x a). left. by rewrite append_nil in *.
    + rewrite !append_cons in H. injection H as -> H.
      destruct (IH _ _ _ H) as [u [[-> ->] | [-> ->]]]; exists u; [left | right];
        by rewrite append_cons.
Qed.

Lemma all_chars_app p (a b : string) :
  Str.all_chars p (a +:+ b) = Str.all_chars p a && Str.all_chars p b.
Proof.
  induction a as [|x a IH]; [done |].
  rewrite append_cons. simpl. by rewrite IH, andb_assoc.
Qed.

Lemma last_char_all p (a : string) c :
  Str.all_chars p a = true -> Str.last_char a = Some c -> p c = true.
Proof.
  induction a as [|x a IH]; [done |].
  simpl. intros H Hl. apply andb_true_iff in H as [Hx Ha].
  destruct a; [by injection Hl as <- | by apply IH].
Qed.

Lemma last_char_exists (a : string) : a <> "" -> exists z, Str.last_char a = Some z.
Proof.
  induction a as [|x a IH]; [done |]. intros _.
  destruct a as [|y a]; [by exists x |].
  destruct IH as [z Hz]; [done |]. by exists z.
Qed.

(** *** The flag pattern *)

Lemma flag_here b s :
  match_here false (pattern diffFlag) b s
  = plus_match false ASpace s
      (fun _ s' => Str.strip_prefix "--diff" s').
Proof.
  unfold match_here. simpl pattern. cbn [rmatch].
  assert (forall s k1 k2, (forall b s', k1 b s' = k2 b s') ->
            plus_match false ASpace s k1 = plus_match false ASpace s k2) as Hext.
  { clear. induction s as [|c s IH]; intros k1 k2 Hk; [done |].
    simpl. destruct (is_space c); [|done].
    by rewrite (IH k1 k2 Hk), Hk. }
  apply Hext. intros b' s'. exact (lit_match "--diff" b' s').
Qed.

Lemma flag_here_intro w rest :
  w <> "" -> Str.all_chars is_space w = true ->
  forall b, match_here false (pattern diffFlag) b (w +:+ "--diff" +:+ rest) = Some rest.
Proof.
  intros Hne Hw b. rewrite flag_here. clear b.
  induction w as [|c w IH]; [done |].
  simpl in Hw. apply andb_true_iff in Hw as [Hc Hw].
  rewrite append_cons. cbn [plus_match atom_ok]. rewrite Hc.
  destruct w as [|c' w].
  - rewrite append_nil. by rewrite (strip_prefix_app "--diff" rest).
  - by rewrite IH.
Qed.

Lemma flag_here_elim s : forall b rest,
  match_here false (pattern diffFlag) b s = Some rest ->
  exists w, w <> "" /\ Str.all_chars is_space w = true
            /\ s = w +:+ "--diff" +:+ rest.
Proof.
  intros b rest. rewrite flag_here. clear b.
  induction s as [|c s IH]; [done |].
  cbn [plus_match atom_ok]. destruct (is_space c) eqn:Hc; [|done].
  destruct (plus_match false ASpace s _) as [r|] eqn:E.
  - intros [= ->]. destruct (IH eq_refl) as (w & Hne & Hw & ->).
    exists (String c w). split; [done |]. split; [simpl; by rewrite Hc, Hw |].
    by rewrite append_cons.
  - intros H. exists (String c ""). split; [done |]. split; [simpl; by rewrite Hc |].
    rewrite append_cons, append_nil. f_equal.
    clear -H. revert H.
    assert (forall p s rest, Str.strip_prefix p s = Some rest -> s = p +:+ rest) as Hs.
    { clear. induction p as [|a p IH]; intros s rest; simpl.
      - by intros [= ->].
      - destruct s as [|x s]; [done |].
        destruct (Ascii.eqb a x) eqn:E; [|done].
        apply Ascii.eqb_eq in E as ->. intros H. by rewrite (IH _ _ H). }
    apply Hs.
Qed.

Lemma flag_search_bol s : forall b b',
  search false (pattern diffFlag) b s = search false (pattern diffFlag) b' s.
Proof.
  intros b b'. by rewrite !search_unfold, (flag_here b), (flag_here b').
Qed.

(** The leftmost occurrence: nothing matches in [pre], and [pre] does not
    end with white space that would widen the match to the left. *)
Lemma flag_search pre w post :
  w <> "" -> Str.all_chars is_space w = true ->
  Regex.test diffFlag pre = false ->
  (forall c, Str.last_char pre = Some c -> is_space c = false) ->
  forall b,
    search false (pattern diffFlag) b (pre +:+ w +:+ "--diff" +:+ post)
    = Some (pre, post).
Proof.
  intros Hne Hw. induction pre as [|c pre IH]; intros Hpre Hlast b.
  - rewrite append_nil.
    by rewrite search_unfold, (flag_here_intro w post Hne Hw b).
  - unfold Regex.test in Hpre. simpl ignoreCase in Hpre.
    rewrite search_cons in Hpre.
    destruct (match_here false (pattern diffFlag) true (String c pre)) eqn:Hh; [done |].
    destruct (search false (pattern diffFlag) false pre) as [[??]|] eqn:Hs; [done |].
    rewrite append_cons, search_cons.
    destruct (match_here false (pattern diffFlag) b _) as [rest|] eqn:Hm.
    + exfalso. rewrite <- append_cons in Hm.
      apply flag_here_elim in Hm as (w1 & Hne1 & Hw1 & Heq).
      destruct w as [|s0 w]; [done |].
      simpl in Hw. apply andb_true_iff in Hw as [Hs0 Hw].
      apply string_app_eq_app in Heq as [u [[HP HB] | [HA HW]]].
      * (* the earlier match would end inside [pre], or cut the flag *)
        rewrite HP in Hh.
        apply string_app_eq_app in HB as [u' [[Hd Hr] | [Hu Hd]]].
        -- destruct u' as [|h u'].
           ++ rewrite append_empty_r in Hd. subst u.
              pose proof (flag_here_intro w1 "" Hne1 Hw1 true) as X.
              change ("--diff" +:+ "") with "--diff" in X. congruence.
           ++ assert (Str.all_chars (fun a => negb (is_space a)) "--diff" = true) as Hd'
                by done.
              rewrite Hd, all_chars_app in Hd'.
              apply andb_true_iff in Hd' as [_ Hd'].
              simpl in Hd'. apply andb_true_iff in Hd' as [Hh' _].
              rewrite !append_cons in Hr. injection Hr as -> _.
              by rewrite Hs0 in Hh'.
        -- subst u.
           pose proof (flag_here_intro w1 u' Hne1 Hw1 true) as X. congruence.
      * (* the earlier match would begin with the end of [pre] *)
        subst w1. rewrite all_chars_app in Hw1.
        apply andb_true_iff in Hw1 as [Hw1 _].
        destruct (last_char_exists (String c pre)) as [z Hz]; [done |].
        pose proof (last_char_all _ _ _ Hw1 Hz) as Hsp.
        by rewrite (Hlast z Hz) in Hsp.
    + rewrite (IH) ; [done | | ].
      * unfold Regex.test. simpl ignoreCase.
        by rewrite (flag_search_bol pre true false), Hs.
      * intros z Hz. apply Hlast. destruct pre; [done | exact Hz].
Qed.

Lemma rmatch_alt_l icase r1 r2 bol s k :
  is_Some (rmatch icase r1 bol s k) -> is_Some (rmatch icase (Alt r1 r2) bol s k).
Proof. simpl. intros [x ->]. eauto. Qed.

(** *** The exclusion patterns *)

Lemma template_turbo c :
  Regex.test templateExclude (String c "turbo") = Ascii.eqb c ".".
Proof. destruct c as [[] [] [] [] [] [] [] []]; by vm_compute. Qed.

Lemma diff_any_turbo_here c b :
  is_line_terminator c = false ->
  (b = true ->
   is_Some (match_here true (pattern diffExclude) b (String c "turbo")))
  /\ is_Some (match_here true (pattern diffExclude) b ("/" +:+ String c "turbo")).
Proof.
  intros Hc.
  assert (forall b', is_Some
            (rmatch true
               (Seq (alts [lit "dist"; lit "node_modules"; lit ".cache";
                           Seq (Atom AAny) (lit "turbo");
                           lit "package.json"; lit "tsconfig.json"])
                    segment_end)
               b' (String c "turbo") (fun _ rest => Some rest))) as Hseg.
  { intros b'.
    change (alts [lit "dist"; lit "node_modules"; lit ".cache";
                  Seq (Atom AAny) (lit "turbo");
                  lit "package.json"; lit "tsconfig.json"])
      with (Alt (lit "dist") (Alt (lit "node_modules") (Alt (lit ".cache")
             (Alt (Seq (Atom AAny) (lit "turbo"))
                (Alt (lit "package.json") (lit "tsconfig.json")))))).
    change (rmatch true (Seq ?r1 ?r2) ?b ?s ?k)
      with (rmatch true r1 b s (fun b0 s0 => rmatch true r2 b0 s0 k)).
    do 3 apply rmatch_alt_r. apply rmatch_alt_l.
    change (is_Some (if atom_ok true AAny c
                     then rmatch true (lit "turbo") false "turbo"
                            (fun b0 s0 => rmatch true segment_end b0 s0
                                            (fun _ rest => Some rest))
                     else None)).
    unfold atom_ok. rewrite Hc. vm_compute. eauto. }
  split.
  - intros ->. unfold match_here.
    change (pattern diffExclude) with (Seq segment_start
       (Seq (alts [lit "dist"; lit "node_modules"; lit ".cache";
                           Seq (Atom AAny) (lit "turbo");
                           lit "package.json"; lit "tsconfig.json"])
                    segment_end)).
    change (rmatch true (Seq segment_start ?r2) ?b ?s ?k)
      with (rmatch true segment_start b s (fun b0 s0 => rmatch true r2 b0 s0 k)).
    apply rmatch_alt_l. apply Hseg.
  - unfold match_here.
    change (pattern diffExclude) with (Seq segment_start
       (Seq (alts [lit "dist"; lit "node_modules"; lit ".cache";
                           Seq (Atom AAny) (lit "turbo");
                           lit "package.json"; lit "tsconfig.json"])
                    segment_end)).
    change (rmatch true (Seq segment_start ?r2) ?b ?s ?k)
      with (rmatch true segment_start b s (fun b0 s0 => rmatch true r2 b0 s0 k)).
    apply rmatch_alt_r. apply rmatch_alt_l. apply Hseg.
Qed.

Lemma join_snoc sep l x :
  l <> [] -> Str.join sep (l ++ [x]) = Str.join sep l +:+ sep +:+ x.
Proof.
  induction l as [|y l IH]; [done |]. intros _.
  destruct l as [|z l]; [done |].
  change (Str.join sep ((y :: z :: l) ++ [x]))
    with (y +:+ sep +:+ Str.join sep ((z :: l) ++ [x])).
  rewrite IH; [|done].
  change (Str.join sep (y :: z :: l)) with (y +:+ sep +:+ Str.join sep (z :: l)).
  by rewrite !append_assoc.
Qed.

(** The name, relative to [templateDir], of an entry of [base] ends with the
    last segment of the entry, unless the template directory lies at or
    below that entry. *)
Lemma relativePath_last templateDir base q seg :
  forallb plain (q ++ [seg]) = true ->
  ~ (resolve base ++ q ++ [seg]) `prefix_of` resolve templateDir ->
  exists pre, relativePath templateDir (render base (q ++ [seg])) = pre +:+ seg
              /\ (pre = "" \/ exists pre0, pre = pre0 +:+ "/").
Proof.
  intros Hp Hn. unfold relativePath. rewrite (resolve_render _ _ Hp).
  destruct (drop_common _ _) as [f' t'] eqn:E.
  apply drop_common_spec in E as (c & Hf & Ht).
  destruct t' as [|z t'] using rev_ind.
  { exfalso. apply Hn. rewrite app_nil_r in Ht. rewrite Ht, Hf. by exists f'. }
  clear IHt'.
  rewrite !app_assoc in Ht. apply app_inj_tail in Ht as [_ <-].
  rewrite app_assoc.
  destruct (map (fun _ => "..") f' ++ t') as [|y l] eqn:El.
  - exists "". split; [done | by left].
  - exists (Str.join "/" (y :: l) +:+ "/"). split.
    + rewrite join_snoc; [|done]. by rewrite append_assoc.
    + right. by eexists.
Qed.

Lemma excluded_last re seg templateDir base q skip :
  is_Some (search (ignoreCase re) (pattern re) true seg) ->
  (forall b, is_Some (search (ignoreCase re) (pattern re) b ("/" +:+ seg))) ->
  forallb plain (q ++ [seg]) = true ->
  ~ (resolve base ++ q ++ [seg]) `prefix_of` resolve templateDir ->
  createFilter templateDir re skip (render base (q ++ [seg])) = false.
Proof.
  intros H0 H1 Hp Hn. unfold createFilter.
  destruct (relativePath_last _ _ _ _ Hp Hn) as (pre & -> & Hpre).
  unfold Regex.test.
  destruct (search_last_segment _ _ _ _ H0 H1 Hpre) as [x ->]. done.
Qed.

Lemma included_cons f cur seg r :
  included f cur (seg :: r) = f cur && included f (cur +:+ "/" +:+ seg) r.
Proof. reflexivity. Qed.

Lemma included_refused f r' : forall q base,
  f (render base q) = false -> included f base (q ++ r') = false.
Proof.
  induction q as [|x q IH]; intros base H.
  - simpl in H. destruct r'; simpl; by rewrite H.
  - change ((x :: q) ++ r') with (x :: (q ++ r')).
    rewrite included_cons, (IH (base +:+ "/" +:+ x)); [apply andb_false_r | exact H].
Qed.

Lemma included_reached f : forall r base,
  included f base r = true -> f (render base r) = true.
Proof.
  induction r as [|x r IH]; intros base H.
  - simpl in *. by apply andb_true_iff in H as [H _].
  - rewrite included_cons in H. apply andb_true_iff in H as [_ H].
    exact (IH _ H).
Qed.

Lemma plain_any_turbo c :
  c <> slash -> c <> backslash -> plain (String c "turbo") = true.
Proof.
  intros Hc Hb. unfold plain.
  assert (Ascii.eqb c slash = false) as E by by apply Ascii.eqb_neq.
  assert (Ascii.eqb c backslash = false) as E' by by apply Ascii.eqb_neq.
  simpl. rewrite E, E'.
  destruct c as [[] [] [] [] [] [] [] []]; done.
Qed.

(** C10.  In the pattern of the diff pass the dot before [turbo] is not
    escaped: a directory of the diff whose name is any one character (other
    than a line terminator or a separator, which no name holds once
    [relativePath] has read it) followed by [turbo], such as [xturbo], is
    refused by the filter, and so is everything below it; the pattern of
    the template pass refuses such a name only when the character is the
    dot itself. *)
Theorem unescaped_dot_excludes_any_turbo
    (templateDir diffDirectory : string) (q below : list string) (c : ascii) :
  is_line_terminator c = false ->
  c <> slash ->
  c <> backslash ->
  forallb plain q = true ->
  ~ (resolve diffDirectory ++ q ++ [String c "turbo"]) `prefix_of` resolve templateDir ->
  included (diffFilter templateDir) diffDirectory
    (q ++ [String c "turbo"] ++ below) = false
  /\ templateFilter templateDir no_options
       (render templateDir [String c "turbo"]) = negb (Ascii.eqb c ".").
Proof.
  intros Hc Hs Hb Hq Hn. unfold diffFilter, templateFilter. simpl skipFiles.
  assert (forallb plain (q ++ [String c "turbo"]) = true) as Hp.
  { rewrite forallb_app, Hq. simpl. by rewrite plain_any_turbo. }
  split.
  - rewrite app_assoc. apply included_refused.
    apply excluded_last; [| | exact Hp | exact Hn].
    + apply search_here. by apply diff_any_turbo_here.
    + intros b. apply search_here. by apply diff_any_turbo_here.
  - unfold createFilter.
    rewrite relativePath_render; [| simpl; by rewrite plain_any_turbo].
    change (Str.join "/" [String c "turbo"]) with (String c "turbo").
    rewrite template_turbo.
    rewrite bool_decide_eq_false_2; [by rewrite andb_true_r | by apply not_elem_of_nil].
Qed.

Lemma unescaped_dot_witness :
  included (diffFilter "/t") "/d" ["xturbo"; "g"] = false
  /\ templateFilter "/t" no_options "/t/xturbo" = true.
Proof.
  apply (unescaped_dot_excludes_any_turbo "/t" "/d" [] ["g"] "x"%char).
  - reflexivity.
  - discriminate.
  - discriminate.
  - reflexivity.
  - intros [r Hr]. vm_compute in Hr. discriminate.
Defined.

(** The same on a whole merge: [xturbo/f] of the template reaches the
    target, [xturbo/g] of the diff does not, and [.turbo] of the template
    does not either. *)
Example xturbo_of_the_diff_is_not_copied :
  fs after_merge !! ["x"; "xturbo"; "f"] = Some (File "template f")
  /\ fs after_merge !! ["x"; "xturbo"; "g"] = None
  /\ fs after_merge !! ["x"; ".turbo"; "log"] = None.
Proof. vm_compute. repeat split. Qed.

(** ** The manifest transform *)

Lemma script_strip_same p key :
  script_of (strip_flag p key) key
  = match script_of p key with
    | Some (JStr s) => Some (JStr (Regex.replace diffFlag "" s))
    | o => o
    end.
Proof.
  unfold script_of, strip_flag.
  destruct (scripts p) as [sc|] eqn:Hsc; [|by rewrite Hsc].
  destruct (sc !! key) as [[| | |s]|] eqn:Hk; try (by rewrite Hsc, Hk).
  destruct (truthy (JStr s)) eqn:Ht.
  - simpl. by rewrite lookup_insert_eq.
  - rewrite Hsc, Hk. simpl in Ht. apply negb_false_iff, String.eqb_eq in Ht.
    by subst.
Qed.

Lemma script_strip_other p key' key :
  key' <> key -> script_of (strip_flag p key') key = script_of p key.
Proof.
  intros Hne. unfold script_of, strip_flag.
  destruct (scripts p) as [sc|] eqn:Hsc; [|by rewrite Hsc].
  destruct (sc !! key') as [[| | |s]|] eqn:Hk; try (by rewrite Hsc).
  destruct (truthy (JStr s)); [|by rewrite Hsc].
  simpl. by rewrite lookup_insert_ne.
Qed.

Lemma dependencies_strip p key : dependencies (strip_flag p key) = dependencies p.
Proof.
  unfold strip_flag. destruct (scripts p) as [sc|]; [|done].
  destruct (sc !! key) as [[| | |s]|]; try done.
  by destruct (truthy (JStr s)).
Qed.

Lemma delete_all_lookup names : forall (m : gmap string jsval) name,
  name ∉ names -> delete_all names m !! name = m !! name.
Proof.
  induction names as [|x names IH]; intros m name Hn; [done |].
  apply not_elem_of_cons in Hn as [Hx Hn].
  unfold delete_all in *. simpl. rewrite (IH _ _ Hn).
  by apply lookup_delete_ne.
Qed.

(** The steps of [onResult] after the loop leave the scripts alone. *)
Lemma script_of_onResult tpl opts pkg key :
  script_of (onResult tpl opts pkg) key
  = script_of
      (fold_left strip_flag ["build"; "dev"; "preview"]
         (match dependencies pkg, dependencies tpl with
          | Some deps, Some templateDeps =>
              set_dependencies
                (<[cli_hydrogen := nullish_or (templateDeps !! cli_hydrogen) (JStr "*")]> deps)
                pkg
          | _, _ => pkg
          end)) key.
Proof.
  unfold onResult.
  set (stripped := fold_left strip_flag _ _).
  destruct (skipDependencies opts), (dependencies stripped),
    (skipDevDependencies opts); simpl;
    repeat match goal with
           | |- context [devDependencies ?p] => destruct (devDependencies p)
           end; done.
Qed.

Lemma script_of_pinned tpl pkg key :
  script_of
    (match dependencies pkg, dependencies tpl with
     | Some deps, Some templateDeps =>
         set_dependencies
           (<[cli_hydrogen := nullish_or (templateDeps !! cli_hydrogen) (JStr "*")]> deps)
           pkg
     | _, _ => pkg
     end) key = script_of pkg key.
Proof. by destruct (dependencies pkg), (dependencies tpl). Qed.

Lemma onResult_script tpl opts pkg key :
  key ∈ ["build"; "dev"; "preview"] ->
  script_of (onResult tpl opts pkg) key
  = match script_of pkg key with
    | Some (JStr s) => Some (JStr (Regex.replace diffFlag "" s))
    | o => o
    end.
Proof.
  intros Hk. rewrite script_of_onResult.
  rewrite <- (script_of_pinned tpl pkg key).
  set (p := match dependencies pkg, dependencies tpl with
            | Some deps, Some templateDeps => _
            | _, _ => pkg
            end).
  simpl fold_left.
  repeat (apply elem_of_cons in Hk as [-> | Hk]).
  - rewrite !script_strip_other by done. apply script_strip_same.
  - rewrite script_strip_other by done.
    rewrite script_strip_same, script_strip_other by done. done.
  - rewrite script_strip_same, !script_strip_other by done. done.
  - by apply elem_of_nil in Hk.
Qed.

(** C4, as amended.  For each of the script keys [build], [dev] and
    [preview] whose value is a string, the leftmost occurrence of [--diff]
    preceded by white space is removed together with that white space: when
    the script reads [pre], white space, [--diff], [post], with no
    occurrence inside [pre], it becomes [pre] followed by [post].  Any
    later occurrence stays. *)
Theorem strips_leftmost_diff_flag
    (templatePkgJson : PackageJson) (diffOptions : DiffOptions)
    (pkgJson : PackageJson) (key pre w post : string) :
  key ∈ ["build"; "dev"; "preview"] ->
  script_of pkgJson key = Some (JStr (pre +:+ w +:+ "--diff" +:+ post)) ->
  w <> "" ->
  Str.all_chars is_space w = true ->
  Regex.test diffFlag pre = false ->
  (forall c, Str.last_char pre = Some c -> is_space c = false) ->
  script_of (onResult templatePkgJson diffOptions pkgJson) key
  = Some (JStr (pre +:+ post)).
Proof.
  intros Hk Hs Hne Hw Hpre Hlast.
  rewrite (onResult_script _ _ _ _ Hk), Hs.
  unfold Regex.replace. simpl ignoreCase.
  rewrite (flag_search pre w post Hne Hw Hpre Hlast true).
  by rewrite append_nil.
Qed.

Lemma strips_leftmost_diff_flag_witness :
  script_of (onResult template_manifest no_options one_flag) "build"
  = Some (JStr "vite build").
Proof.
  apply (strips_leftmost_diff_flag template_manifest no_options one_flag
           "build" "vite build" " " "").
  - set_solver.
  - reflexivity.
  - discriminate.
  - reflexivity.
  - reflexivity.
  - intros c [= <-]. reflexivity.
Defined.

(** C4, as stated, fails: of two occurrences the second one is still in
    the script after the merge. *)
Lemma second_flag_survives :
  script_of two_flags "build" = Some (JStr "vite build --diff --diff")
  /\ script_of (onResult template_manifest no_options two_flags) "build"
     = Some (JStr "vite build --diff")
  /\ Regex.test diffFlag "vite build --diff" = true.
Proof. repeat split; reflexivity. Qed.

Lemma dependency_of_onResult tpl opts pkg name :
  (forall names, skipDependencies opts = Some names -> name ∉ names) ->
  dependency_of (onResult tpl opts pkg) name
  = dependency_of
      (match dependencies pkg, dependencies tpl with
       | Some deps, Some templateDeps =>
           set_dependencies
             (<[cli_hydrogen := nullish_or (templateDeps !! cli_hydrogen) (JStr "*")]> deps)
             pkg
       | _, _ => pkg
       end) name.
Proof.
  intros Hskip. unfold onResult.
  set (p := match dependencies pkg, dependencies tpl with
            | Some deps, Some templateDeps => _
            | _, _ => pkg
            end).
  set (stripped := fold_left strip_flag _ p).
  assert (dependencies stripped = dependencies p) as Hd.
  { unfold stripped. simpl. by rewrite !dependencies_strip. }
  assert (dependency_of
            (match skipDependencies opts, dependencies stripped with
             | Some names, Some deps => set_dependencies (delete_all names deps) stripped
             | _, _ => stripped
             end) name = dependency_of p name) as Hs.
  { unfold dependency_of at 2. rewrite <- Hd.
    destruct (skipDependencies opts) as [names|] eqn:E; [|done].
    destruct (dependencies stripped) as [deps|] eqn:E'.
    - unfold dependency_of. simpl. apply delete_all_lookup. by apply Hskip.
    - unfold dependency_of. by rewrite E'. }
  rewrite <- Hs.
  set (skipped := match skipDependencies opts, dependencies stripped with
                  | Some names, Some deps => _
                  | _, _ => stripped
                  end).
  destruct (skipDevDependencies opts); [|done].
  by destruct (devDependencies skipped).
Qed.

(** C5, as amended.  When the merged manifest and the manifest of the
    template both have a [dependencies] object, and the diff options do not
    skip that dependency, the entry of the merged manifest for
    [@shopify/cli-hydrogen] is the version that the template declares, or
    [*] when the dependencies of the template do not declare it. *)
Theorem pins_cli_version_to_template
    (templatePkgJson : PackageJson) (diffOptions : DiffOptions)
    (pkgJson : PackageJson) (deps templateDeps : gmap string jsval) :
  dependencies pkgJson = Some deps ->
  dependencies templatePkgJson = Some templateDeps ->
  (forall names, skipDependencies diffOptions = Some names -> cli_hydrogen ∉ names) ->
  dependency_of (onResult templatePkgJson diffOptions pkgJson) cli_hydrogen
  = Some (nullish_or (templateDeps !! cli_hydrogen) (JStr "*")).
Proof.
  intros Hd Ht Hskip.
  rewrite (dependency_of_onResult _ _ _ _ Hskip), Hd, Ht.
  unfold dependency_of. simpl. apply lookup_insert_eq.
Qed.

Lemma pins_cli_version_witness :
  dependency_of (onResult template_manifest no_options one_flag) cli_hydrogen
  = Some (JStr "^3.0.0").
Proof.
  etrans.
  - apply (pins_cli_version_to_template template_manifest no_options one_flag
             {[ "a" := JStr "1.0.0" ]} {[ cli_hydrogen := JStr "^3.0.0" ]}).
    + reflexivity.
    + reflexivity.
    + intros names H. discriminate H.
  - vm_compute. reflexivity.
Defined.

(** C5, as stated, fails: the merged manifest has dependencies, the
    template declares none at all, and the entry is missing instead of
    being [*]. *)
Lemma no_pin_without_template_dependencies :
  is_Some (dependencies one_flag)
  /\ dependency_of empty_manifest cli_hydrogen = None
  /\ dependency_of (onResult empty_manifest no_options one_flag) cli_hydrogen
     = None.
Proof. split; [by eexists | split; reflexivity]. Qed.

(** The example of the specification: the flag is stripped, the version is
    restored from the template and the dependency of the diff is kept. *)
Example manifest_example :
  script_of (onResult template_manifest no_options one_flag) "build"
    = Some (JStr "vite build")
  /\ dependency_of (onResult template_manifest no_options one_flag) cli_hydrogen
     = Some (JStr "^3.0.0")
  /\ dependency_of (onResult template_manifest no_options one_flag) "a"
     = Some (JStr "1.0.0").
Proof. repeat split; reflexivity. Qed.

Example skipped_dependency_is_absent :
  dependency_of
    (onResult template_manifest
       {| skipFiles := None; skipDependencies := Some ["a"];
          skipDevDependencies := None |} one_flag) "a" = None.
Proof. reflexivity. Qed.

(** ** Facts about the file system *)

Lemma drop_prefix_Some p : forall k r, drop_prefix p k = Some r <-> k = p ++ r.
Proof.
  induction p as [|a p IH]; intros k r; simpl.
  - split; [by intros [= ->] | by intros ->].
  - destruct k as [|b k]; [done |].
    destruct (String.eqb a b) eqn:E.
    + apply String.eqb_eq in E as ->. rewrite IH. split; [by intros -> | by intros [= ->]].
    + apply String.eqb_neq in E. split; [done | by intros [= -> _]].
Qed.

Lemma drop_prefix_app p r : drop_prefix p (p ++ r) = Some r.
Proof. by apply drop_prefix_Some. Qed.

Lemma is_prefix_true p k : is_prefix p k = true <-> p `prefix_of` k.
Proof.
  unfold is_prefix. destruct (drop_prefix p k) as [r|] eqn:E.
  - apply drop_prefix_Some in E. split; [by exists r | done].
  - split; [done |]. intros [r ->]. by rewrite drop_prefix_app in E.
Qed.

Lemma is_prefix_false p k : is_prefix p k = false <-> ~ p `prefix_of` k.
Proof. rewrite <- is_prefix_true. by destruct (is_prefix p k). Qed.

Lemma prefix_app_cases (l a b : list string) :
  l `prefix_of` a ++ b -> l `prefix_of` a \/ exists r, l = a ++ r.
Proof.
  revert l. induction a as [|x a IH]; intros l H.
  - right. by exists l.
  - destruct l as [|y l]; [left; apply prefix_nil |].
    simpl in H. pose proof (prefix_cons_inv_1 _ _ _ _ H) as ->.
    apply prefix_cons_inv_2, IH in H as [H | [r ->]].
    + left. by apply prefix_cons.
    + right. by exists r.
Qed.

Lemma ancestors_elem q : forall k r, r <> [] -> k = q ++ r -> q ∈ ancestors k.
Proof.
  induction q as [|a q IH]; intros k r Hr ->.
  - destruct r; [done |]. simpl. by left.
  - simpl. right. apply list_elem_of_fmap. exists q. split; [done |].
    by apply (IH _ r).
Qed.

Lemma fs_wf_ancestor m k n q r :
  fs_wf m = true -> m !! k = Some n -> r <> [] -> k = q ++ r -> m !! q = Some Dir.
Proof.
  intros Hwf Hk Hr Heq. unfold fs_wf in Hwf.
  rewrite forallb_forall in Hwf.
  assert (In (k, n) (map_to_list m)) as Hin
    by by apply list_elem_of_In, elem_of_map_to_list.
  specialize (Hwf _ Hin). simpl in Hwf.
  rewrite forallb_forall in Hwf.
  assert (In q (ancestors k)) as Hq
    by by apply list_elem_of_In, (ancestors_elem q k r).
  specialize (Hwf _ Hq). by destruct (m !! q) as [[]|].
Qed.

Lemma mkdirs_lookup_Some p m k n :
  m !! k = Some n -> mkdirs p m !! k = Some n.
Proof.
  unfold mkdirs. induction (ancestors p) as [|q l IH]; [done |].
  intros H. simpl. specialize (IH H).
  destruct (fold_right _ m l !! q) eqn:E; [done |].
  rewrite lookup_insert_ne; [done |]. intros ->. congruence.
Qed.

Lemma selected_elem f src m r n :
  (r, n) ∈ selected f src m
  <-> m !! (resolve src ++ r) = Some n /\ included f src r = true.
Proof.
  unfold selected. rewrite list_elem_of_omap. split.
  - intros [[k n'] [Hk H]]. apply elem_of_map_to_list in Hk.
    destruct (drop_prefix (resolve src) k) as [r'|] eqn:E; [|done].
    apply drop_prefix_Some in E as ->.
    destruct (included f src r') eqn:Hi; [|done].
    by injection H as -> ->.
  - intros [Hk Hi]. exists (resolve src ++ r, n). split.
    + by apply elem_of_map_to_list.
    + by rewrite drop_prefix_app, Hi.
Qed.

Lemma copied_lookup_new f src d m r n :
  m !! (resolve src ++ r) = Some n -> included f src r = true ->
  copied f src d m !! (d ++ r) = Some n.
Proof.
  intros Hk Hi. unfold copied. apply elem_of_list_to_map_1'.
  - intros y Hy. apply list_elem_of_fmap in Hy as [[r' n'] [Heq Hy]].
    simpl in Heq. injection Heq as Heq ->. apply app_inv_head in Heq as <-.
    apply selected_elem in Hy as [Hy _]. congruence.
  - apply list_elem_of_fmap. exists (r, n). split; [done |].
    by apply selected_elem.
Qed.

Lemma copied_lookup_outside f src d m k :
  ~ d `prefix_of` k -> copied f src d m !! k = None.
Proof.
  intros Hn. unfold copied. apply not_elem_of_list_to_map_1.
  intros Hk. apply list_elem_of_fmap in Hk as [[k' n] [-> Hk]].
  apply list_elem_of_fmap in Hk as [[r n'] [[= -> ->] _]].
  apply Hn. by exists r.
Qed.

(** What a fulfilled [copy] leaves behind. *)
Lemma copy_fulfilled f src dest w w' :
  copy f src dest w = (Fulfilled tt, w') ->
  is_Some (fs w !! resolve src)
  /\ ~ resolve src `prefix_of` resolve dest
  /\ readonly w' = readonly w /\ unhandled w' = unhandled w
  /\ trace w' = trace w ++ [OpCopy src dest]
  /\ ((f src = false /\ fs w' = fs w)
      \/ (f src = true
          /\ fs w' = copied f src (resolve dest) (fs w) ∪ mkdirs (resolve dest) (fs w))).
Proof.
  unfold copy. simpl.
  destruct (fs w !! resolve src) as [n|] eqn:Hs; [|done].
  destruct (is_prefix (resolve src) (resolve dest)) eqn:Hp; [done |].
  apply is_prefix_false in Hp.
  destruct (clashes _ _ _); [done |].
  destruct (f src) eqn:Hf; simpl.
  - destruct (blocked _ _); [done |].
    destruct (bool_decide _); [done |].
    destruct (existsb _ _); [done |].
    intros [= <-]. simpl. repeat split; eauto.
  - intros [= <-]. simpl. repeat split; eauto.
Qed.

Lemma included_root f src r : included f src r = true -> f src = true.
Proof. destruct r; simpl; intros H; by apply andb_true_iff in H as [? _]. Qed.

Lemma copy_lookup_new f src dest w w' r n :
  copy f src dest w = (Fulfilled tt, w') ->
  fs w !! (resolve src ++ r) = Some n ->
  included f src r = true ->
  fs w' !! (resolve dest ++ r) = Some n.
Proof.
  intros Hc Hk Hi.
  destruct (copy_fulfilled _ _ _ _ _ Hc)
    as (_ & _ & _ & _ & _ & [[Hf _] | [Hf ->]]).
  - by rewrite (included_root _ _ _ Hi) in Hf.
  - apply lookup_union_Some_l. by apply copied_lookup_new.
Qed.

Lemma copy_lookup_old f src dest w w' k n :
  copy f src dest w = (Fulfilled tt, w') ->
  fs w !! k = Some n ->
  ~ resolve dest `prefix_of` k ->
  fs w' !! k = Some n.
Proof.
  intros Hc Hk Hn.
  destruct (copy_fulfilled _ _ _ _ _ Hc)
    as (_ & _ & _ & _ & _ & [[_ ->] | [_ ->]]); [done |].
  rewrite lookup_union_r; [by apply mkdirs_lookup_Some |].
  by apply copied_lookup_outside.
Qed.

Lemma resolve_manifest dir :
  resolve (joinPath dir "package.json") = resolve dir ++ ["package.json"].
Proof. exact (resolve_joinPath dir ["package.json"] eq_refl). Qed.

Lemma joinPath_mirror dest base r :
  forallb plain r = true ->
  joinPath dest (relativePath base (render base r)) = to_string (resolve dest ++ r).
Proof.
  intros H. rewrite relativePath_render by done. unfold joinPath. f_equal.
  by rewrite (resolve_app _ _ (join_clean _ H)), split_join.
Qed.

Lemma resolve_target dest r :
  forallb plain r = true -> resolve (to_string (resolve dest ++ r)) = resolve dest ++ r.
Proof.
  intros H. apply resolve_to_string. by rewrite forallb_app, resolve_plain.
Qed.

Section ProgramFacts.

Context (JSON_parse : string -> option PackageJson)
        (JSON_stringify : PackageJson -> string)
        (getStarterDir : bool -> string)
        (merge_documents : list string -> PackageJson -> PackageJson -> PackageJson).

Lemma read_world p w : (readAndParsePackageJson JSON_parse p w).2 = w.
Proof.
  unfold readAndParsePackageJson, fileExists, readFile. run_promise.
  simpl. destruct (bool_decide _); simpl; [|done].
  destruct (fs w !! resolve p) as [[]|]; simpl; try done.
  by destruct (JSON_parse data).
Qed.

Lemma read_fulfilled p w pkg w' :
  readAndParsePackageJson JSON_parse p w = (Fulfilled pkg, w') ->
  w' = w /\ exists text, fs w !! resolve p = Some (File text)
                         /\ JSON_parse text = Some pkg.
Proof.
  intros H. pose proof (read_world p w) as Hw. rewrite H in Hw. simpl in Hw.
  split; [done |]. revert H.
  unfold readAndParsePackageJson, fileExists, readFile. run_promise.
  simpl. destruct (bool_decide _); simpl; [|done].
  destruct (fs w !! resolve p) as [[]|]; simpl; try done.
  destruct (JSON_parse data) eqn:E; [|done].
  intros [= -> _]. eauto.
Qed.

Lemma read_total p w : exists r, readAndParsePackageJson JSON_parse p w = (r, w).
Proof.
  exists (readAndParsePackageJson JSON_parse p w).1.
  rewrite <- (read_world p w) at 3.
  by destruct (readAndParsePackageJson JSON_parse p w).
Qed.

(** The steps of a fulfilled [applyTemplateDiff]. *)
Lemma applyTemplateDiff_fulfilled targetDirectory diffDirectory templateDir w w' :
  applyTemplateDiff JSON_parse JSON_stringify getStarterDir merge_documents
    targetDirectory diffDirectory (Some templateDir) w = (Fulfilled tt, w') ->
  exists diffPkgJson templatePkgJson w1 w2,
    readAndParsePackageJson JSON_parse (joinPath diffDirectory "package.json") w
    = (Fulfilled diffPkgJson, w)
    /\ readAndParsePackageJson JSON_parse (joinPath templateDir "package.json") w
       = (Fulfilled templatePkgJson, w)
    /\ copy (templateFilter templateDir
               (match h2_diff diffPkgJson with Some o => o | None => no_options end))
         templateDir targetDirectory w = (Fulfilled tt, w1)
    /\ copy (diffFilter templateDir) diffDirectory targetDirectory w1
       = (Fulfilled tt, w2)
    /\ mergePackageJson JSON_parse JSON_stringify merge_documents
         diffDirectory targetDirectory ["h2:diff"]
         (onResult templatePkgJson
            (match h2_diff diffPkgJson with Some o => o | None => no_options end))
         w2 = (Fulfilled tt, w').
Proof.
  unfold applyTemplateDiff.
  unfold mbind at 1. unfold promise_bind, await. simpl Promise_all.
  destruct (read_total (joinPath diffDirectory "package.json") w) as [r1 H1].
  destruct (read_total (joinPath templateDir "package.json") w) as [r2 H2].
  rewrite H1, H2. unfold resolve_with.
  destruct r1 as [diffPkgJson|], r2 as [templatePkgJson|];
    cbv beta iota zeta; try done.
  unfold copyDirectory, mbind, promise_bind, await.
  destruct (copy (templateFilter _ _) _ _ w) as [[[]|] w1] eqn:Hc1; [|done].
  destruct (copy (diffFilter _) _ _ w1) as [[[]|] w2] eqn:Hc2; [|done].
  intros Hm. by exists diffPkgJson, templatePkgJson, w1, w2.
Qed.

Lemma mergePackageJson_fulfilled sourceDir targetDir keys transform w w' :
  mergePackageJson JSON_parse JSON_stringify merge_documents
    sourceDir targetDir keys transform w = (Fulfilled tt, w') ->
  exists targetPkgJson sourcePkgJson,
    readAndParsePackageJson JSON_parse (joinPath targetDir "package.json") w
    = (Fulfilled targetPkgJson, w)
    /\ readAndParsePackageJson JSON_parse (joinPath sourceDir "package.json") w
       = (Fulfilled sourcePkgJson, w)
    /\ fs w' = <[resolve targetDir ++ ["package.json"]
                 := File (JSON_stringify
                            (transform
                               (merge_documents keys sourcePkgJson targetPkgJson)))]>
                 (fs w).
Proof.
  unfold mergePackageJson. run_promise.
  destruct (read_total (joinPath targetDir "package.json") w) as [r1 H1].
  rewrite H1. destruct r1 as [t|]; [|done].
  destruct (read_total (joinPath sourceDir "package.json") w) as [r2 H2].
  rewrite H2. destruct r2 as [s|]; [|done].
  unfold writeFile. simpl. destruct (bool_decide _); [done |].
  rewrite resolve_manifest.
  destruct (fs w !! _) as [[]|]; intros [= <-]; simpl; eauto.
Qed.

(** The manifest that a completed [applyTemplateDiff] leaves in the target
    is the merged document after [onResult], closed over the manifest of
    the template and the options of the diff. *)
Lemma written_manifest_is_transformed
    targetDirectory diffDirectory templateDir w w' :
  applyTemplateDiff JSON_parse JSON_stringify getStarterDir merge_documents
    targetDirectory diffDirectory (Some templateDir) w = (Fulfilled tt, w') ->
  exists diffPkgJson templatePkgJson merged,
    readAndParsePackageJson JSON_parse (joinPath diffDirectory "package.json") w
    = (Fulfilled diffPkgJson, w)
    /\ readAndParsePackageJson JSON_parse (joinPath templateDir "package.json") w
       = (Fulfilled templatePkgJson, w)
    /\ fs w' !! (resolve targetDirectory ++ ["package.json"])
       = Some (File (JSON_stringify
                       (onResult templatePkgJson
                          (match h2_diff diffPkgJson with
                           | Some o => o
                           | None => no_options
                           end) merged))).
Proof.
  intros Hrun.
  apply applyTemplateDiff_fulfilled in Hrun
    as (dpkg & tpkg & w1 & w2 & Hr1 & Hr2 & _ & _ & Hm).
  apply mergePackageJson_fulfilled in Hm as (t & s & _ & _ & ->).
  exists dpkg, tpkg, (merge_documents ["h2:diff"] s t).
  split; [done |]. split; [done |]. apply lookup_insert_eq.
Qed.

(** C1.  When [applyTemplateDiff] completes, a file that is present at the
    same relative path in the template and in the diff, and that the filter
    of the diff pass lets through together with the directories above it,
    is in the target with the contents it has in the diff: the diff pass
    runs after the template pass and overwrites.  The file system is well
    formed and the diff directory does not lie inside the target. *)
Theorem diff_wins_on_overlap
    (targetDirectory diffDirectory templateDir : string) (w w' : World)
    (p : list string) (fromTemplate fromDiff : string) :
  applyTemplateDiff JSON_parse JSON_stringify getStarterDir merge_documents
    targetDirectory diffDirectory (Some templateDir) w = (Fulfilled tt, w') ->
  fs_wf (fs w) = true ->
  ~ resolve targetDirectory `prefix_of` resolve diffDirectory ->
  forallb plain p = true ->
  fs w !! (resolve templateDir ++ p) = Some (File fromTemplate) ->
  fs w !! (resolve diffDirectory ++ p) = Some (File fromDiff) ->
  included (diffFilter templateDir) diffDirectory p = true ->
  fs w' !! (resolve targetDirectory ++ p) = Some (File fromDiff).
Proof.
  intros Hrun Hwf Hsep Hp _ HD Hi.
  apply applyTemplateDiff_fulfilled in Hrun
    as (dpkg & tpkg & w1 & w2 & Hr1 & Hr2 & Hc1 & Hc2 & Hm).
  apply read_fulfilled in Hr1 as [_ (text1 & Hf1 & _)].
  apply read_fulfilled in Hr2 as [_ (text2 & Hf2 & _)].
  rewrite resolve_manifest in Hf1, Hf2.
  apply mergePackageJson_fulfilled in Hm as (t & s & _ & _ & ->).
  (* the manifest itself is not among the files of the second pass *)
  assert (p <> ["package.json"]) as Hpj.
  { intros ->. apply included_reached in Hi.
    assert (createFilter templateDir diffExclude None
              (render diffDirectory ["package.json"]) = false) as Hex;
      [| unfold diffFilter in Hi; congruence].
    apply (excluded_last diffExclude "package.json" templateDir diffDirectory [] None);
      [vm_compute; eauto | intros []; vm_compute; eauto | done |].
    intros [r Hr]. simpl in Hr.
    assert (fs w !! (resolve diffDirectory ++ ["package.json"]) = Some Dir) as Hdir;
      [| congruence].
    apply (fs_wf_ancestor (fs w) (resolve templateDir ++ ["package.json"])
             (File text2) _ (r ++ ["package.json"]));
      [done | done | by destruct r |].
    rewrite Hr. by rewrite <- !app_assoc. }
  rewrite lookup_insert_ne by (intros Heq; by apply app_inv_head in Heq).
  apply (copy_lookup_new _ _ _ _ _ _ _ Hc2); [|done].
  apply (copy_lookup_old _ _ _ _ _ _ _ Hc1); [done |].
  (* the first pass writes below the target only *)
  intros Hpre.
  destruct (copy_fulfilled _ _ _ _ _ Hc2) as (_ & Hnot & _).
  apply prefix_app_cases in Hpre as [Hpre | [r' Hpre]]; [done |].
  apply Hnot. rewrite Hpre. by exists r'.
Qed.


End ProgramFacts.

Lemma diff_wins_on_overlap_witness :
  fs before_merge !! ["t"; "app"; "root.tsx"] = Some (File "template root")
  /\ fs after_merge !! ["x"; "app"; "root.tsx"] = Some (File "diff root").
Proof.
  split; [reflexivity |].
  apply (diff_wins_on_overlap demo_parse demo_stringify demo_starter demo_merge
           "/x" "/d" "/t" before_merge after_merge ["app"; "root.tsx"]
           "template root" "diff root").
  - vm_compute. reflexivity.
  - vm_compute. reflexivity.
  - apply is_prefix_false. vm_compute. reflexivity.
  - reflexivity.
  - vm_compute. reflexivity.
  - vm_compute. reflexivity.
  - vm_compute. reflexivity.
Defined.


(** ** Facts about the primitives, whatever their outcome *)

Lemma copy_effects f src dest w res w' :
  copy f src dest w = (res, w') ->
  unhandled w' = unhandled w /\ readonly w' = readonly w
  /\ trace w' = trace w ++ [OpCopy src dest]
  /\ (forall e, res = Rejected e -> fs w' = fs w).
Proof.
  unfold copy. simpl.
  repeat match goal with
         | |- context [match ?x with _ => _ end] => destruct x
         end; intros [= <- <-]; simpl; repeat split; done.
Qed.

Lemma remove_effects p w res w' :
  remove p w = (res, w') ->
  unhandled w' = unhandled w /\ trace w' = trace w ++ [OpRemove p]
  /\ (resolve p ∉ readonly w ->
      res = Fulfilled tt
      /\ forall k, resolve p `prefix_of` k -> fs w' !! k = None).
Proof.
  unfold remove. simpl. case_bool_decide as Hro; intros [= <- <-]; simpl.
  - repeat split; done.
  - repeat split; try done.
    intros k Hk. apply map_lookup_filter_None. right. intros n _. simpl.
    apply is_prefix_true in Hk. by rewrite Hk.
Qed.

Lemma fileExists_run p w :
  fileExists p w = (Fulfilled (bool_decide (is_Some (fs w !! resolve p))), w).
Proof. reflexivity. Qed.

(** ** The callbacks *)

(** A batch never rejects, whatever happens to the promises of its
    events: their rejections, when nobody catches them, stay unhandled. *)
Lemma map_detached_fulfilled {A B} (f : A -> Promise B) (l : list A) :
  forall w, exists w', map_detached f l w = (Fulfilled tt, w').
Proof.
  induction l as [|x l IH]; intros w; [by eexists |].
  cbn [map_detached]. unfold detached. run_promise.
  destruct (f x w) as [[b|e] w1]; apply IH.
Qed.

(** The events of a batch are handled one after the other, each in the
    world that the events before it have left. *)
Lemma map_detached_snoc {A B} (f : A -> Promise B) (pre : list A) x post :
  forall w w1,
    map_detached f pre w = (Fulfilled tt, w1) ->
    map_detached f (pre ++ [x]) w = (Fulfilled tt, (detached (f x) w1).2)
    /\ map_detached f (pre ++ x :: post) w
       = map_detached f post (detached (f x) w1).2.
Proof.
  induction pre as [|a pre IH]; intros w w1.
  - intros [= <-]. cbn [app map_detached]. unfold detached. run_promise.
    by destruct (f x w) as [[b|e] w'].
  - cbn [app map_detached]. unfold detached. run_promise.
    destruct (f a w) as [[b|e] w']; apply IH.
Qed.

(** A delete event of the diff watch, on its own. *)
Lemma diffEvent_delete
    (targetDirectory diffDirectory templateDirectory : string)
    (r : list string) (w : World) :
  forallb plain r = true ->
  Str.has_char dollar templateDirectory = false ->
  let event := {| path := render diffDirectory r; type := ev_delete |} in
  let targetFile := to_string (resolve targetDirectory ++ r) in
  exists w',
    diffEvent targetDirectory diffDirectory templateDirectory event w
      = (Fulfilled tt, w')
    /\ unhandled w' = unhandled w
    /\ (forall n, fs w !! (resolve templateDirectory ++ r) = Some n ->
          trace w' = trace w ++ [OpCopy (render templateDirectory r) targetFile]
          /\ (forall w1, copyFile (render templateDirectory r) targetFile w
                           = (Fulfilled tt, w1) ->
                fs w' !! (resolve targetDirectory ++ r) = Some n))
    /\ (fs w !! (resolve templateDirectory ++ r) = None ->
          trace w' = trace w ++ [OpRemove targetFile]
          /\ (resolve targetDirectory ++ r ∉ readonly w ->
              fs w' !! (resolve targetDirectory ++ r) = None)).
Proof.
  intros Hr Hdollar event targetFile. unfold diffEvent. subst event. cbn [path type].
  rewrite (replace_render _ _ _ Hdollar), (joinPath_mirror _ _ _ Hr).
  fold targetFile.
  unfold catch_ignore, mbind, promise_bind, await.
  rewrite fileExists_run, (resolve_render _ _ Hr).
  destruct (fs w !! (resolve templateDirectory ++ r)) as [n|] eqn:Ht.
  - rewrite bool_decide_eq_true_2 by eauto.
    destruct (copyFile (render templateDirectory r) targetFile w) as [res w1] eqn:Hc.
    exists w1. unfold copyFile in Hc.
    destruct (copy_effects _ _ _ _ _ _ Hc) as (Hu & _ & Htr & _).
    split; [done |]. split; [done |]. split; [|done].
    intros n' [= <-]. split; [done |]. intros w2 [= -> <-].
    pose proof (copy_lookup_new _ _ _ _ _ [] n Hc) as Hnew.
    rewrite !app_nil_r in Hnew. unfold targetFile in Hnew.
    rewrite (resolve_target _ _ Hr), (resolve_render _ _ Hr) in Hnew.
    by apply Hnew.
  - rewrite bool_decide_eq_false_2 by (intros [? ?]; done).
    destruct (remove targetFile w) as [res w1] eqn:Hrm.
    exists w1.
    destruct (remove_effects _ _ _ _ Hrm) as (Hu & Htr & Hok).
    split; [done |]. split; [done |]. split; [done |].
    intros _. split; [done |].
    intros Hro. unfold targetFile in Hok. rewrite (resolve_target _ _ Hr) in Hok.
    by apply Hok.
Qed.

(** C2.  A delete event of the diff watch for the entry [r], wherever it
    stands in the batch that the watch delivers, is never dropped and never
    rejects.  It is handled in the world [w1] that the events before it
    have left, and the rest of the batch goes on from the world it leaves.
    When [r] exists in the template, the copy of the template's version
    over the target's path is attempted, and the target holds that version
    once the copy succeeds; otherwise the removal of the target's path is
    attempted, and the path is gone unless the removal fails.  A failure of
    either is swallowed: no rejection is left unhandled.  No link sits on
    the path that is looked up in the template, and the name of the
    template directory holds no dollar (it is the replacement text of a
    [replace]). *)
Theorem diff_delete_restores_or_removes
    (targetDirectory diffDirectory templateDirectory : string)
    (pre post : list Event) (r : list string) (w w1 : World) :
  forallb plain r = true ->
  Str.has_char dollar templateDirectory = false ->
  diffCallback targetDirectory diffDirectory templateDirectory None pre w
  = (Fulfilled tt, w1) ->
  no_link_on (fs w1) (resolve templateDirectory ++ r) = true ->
  let event := {| path := render diffDirectory r; type := ev_delete |} in
  let targetFile := to_string (resolve targetDirectory ++ r) in
  exists w2,
    diffCallback targetDirectory diffDirectory templateDirectory None
      (pre ++ [event]) w = (Fulfilled tt, w2)
    /\ diffCallback targetDirectory diffDirectory templateDirectory None
         (pre ++ event :: post) w
       = diffCallback targetDirectory diffDirectory templateDirectory None post w2
    /\ unhandled w2 = unhandled w1
    /\ (forall n, fs w1 !! (resolve templateDirectory ++ r) = Some n ->
          trace w2 = trace w1 ++ [OpCopy (render templateDirectory r) targetFile]
          /\ (forall w', copyFile (render templateDirectory r) targetFile w1
                           = (Fulfilled tt, w') ->
                fs w2 !! (resolve targetDirectory ++ r) = Some n))
    /\ (fs w1 !! (resolve templateDirectory ++ r) = None ->
          trace w2 = trace w1 ++ [OpRemove targetFile]
          /\ (resolve targetDirectory ++ r ∉ readonly w1 ->
              fs w2 !! (resolve targetDirectory ++ r) = None)).
Proof.
  intros Hr Hdollar Hpre _ event targetFile. unfold diffCallback in *.
  destruct (map_detached_snoc
              (diffEvent targetDirectory diffDirectory templateDirectory)
              pre event post w w1 Hpre) as [Hone Hrest].
  destruct (diffEvent_delete targetDirectory diffDirectory templateDirectory
              r w1 Hr Hdollar) as (w' & Hrun & Hfacts).
  fold event in Hrun. unfold detached in Hone, Hrest.
  rewrite Hrun in Hone, Hrest. simpl in Hone, Hrest.
  exists w'. split; [exact Hone |]. split; [exact Hrest | exact Hfacts].
Qed.

Lemma diff_delete_witness :
  exists w2,
    diffCallback "/x" "/d" "/t" None
      [{| path := "/d/app/new.tsx"; type := ev_create |};
       {| path := "/d/app/root.tsx"; type := ev_delete |}]
      live_diff_file_deleted
    = (Fulfilled tt, w2)
    /\ fs w2 !! ["x"; "app"; "root.tsx"] = Some (File "template root").
Proof.
  destruct (diff_delete_restores_or_removes "/x" "/d" "/t"
              [{| path := "/d/app/new.tsx"; type := ev_create |}] []
              ["app"; "root.tsx"] live_diff_file_deleted
              (diffCallback "/x" "/d" "/t" None
                 [{| path := "/d/app/new.tsx"; type := ev_create |}]
                 live_diff_file_deleted).2)
    as (w2 & Hrun & _ & _ & Hrestore & _).
  - reflexivity.
  - reflexivity.
  - vm_compute. reflexivity.
  - vm_compute. reflexivity.
  - exists w2. split; [exact Hrun |].
    destruct (Hrestore (File "template root")) as [_ Hfs]; [vm_compute; reflexivity |].
    apply (Hfs (copyFile "/t/app/root.tsx" "/x/app/root.tsx"
                  (diffCallback "/x" "/d" "/t" None
                     [{| path := "/d/app/new.tsx"; type := ev_create |}]
                     live_diff_file_deleted).2).2).
    vm_compute. reflexivity.
Defined.

(** A create or update event of the template watch, on its own. *)
Lemma templateEvent_change
    (targetDirectory diffDirectory templateDirectory : string)
    (r : list string) (ty : EventType) (w : World) :
  forallb plain r = true ->
  ty <> ev_delete ->
  Str.has_char dollar diffDirectory = false ->
  let event := {| path := render templateDirectory r; type := ty |} in
  let targetFile := to_string (resolve targetDirectory ++ r) in
  (is_Some (fs w !! (resolve diffDirectory ++ r)) ->
   templateEvent targetDirectory diffDirectory templateDirectory event w
   = (Fulfilled tt, w))
  /\ (fs w !! (resolve diffDirectory ++ r) = None ->
      templateEvent targetDirectory diffDirectory templateDirectory event w
      = copyFile (render templateDirectory r) targetFile w).
Proof.
  intros Hr Hty Hdollar event targetFile. unfold templateEvent. subst event.
  cbn [path type].
  rewrite (replace_render _ _ _ Hdollar), (joinPath_mirror _ _ _ Hr).
  fold targetFile.
  unfold mbind, promise_bind, await.
  rewrite fileExists_run, (resolve_render _ _ Hr).
  split.
  - intros Hd. by rewrite bool_decide_eq_true_2.
  - intros Hd. rewrite Hd.
    rewrite bool_decide_eq_false_2 by (intros [? ?]; done).
    by destruct ty.
Qed.

(** What a copy of one entry does when it is made from a callback. *)
Lemma detached_copyFile src dest (r : list string)
    (sourceDirectory targetDirectory : string) (w : World) :
  forallb plain r = true ->
  src = render sourceDirectory r ->
  dest = to_string (resolve targetDirectory ++ r) ->
  trace (detached (copyFile src dest) w).2 = trace w ++ [OpCopy src dest]
  /\ (forall w', copyFile src dest w = (Fulfilled tt, w') ->
        forall n, fs w !! (resolve sourceDirectory ++ r) = Some n ->
                  fs (detached (copyFile src dest) w).2
                    !! (resolve targetDirectory ++ r) = Some n).
Proof.
  intros Hr -> ->. unfold detached.
  destruct (copyFile _ _ w) as [res w1] eqn:Hc. unfold copyFile in Hc.
  destruct (copy_effects _ _ _ _ _ _ Hc) as (_ & _ & Htr & _).
  split; [by destruct res |].
  intros w' [= -> <-] n Hn. simpl.
  pose proof (copy_lookup_new _ _ _ _ _ [] n Hc) as Hnew.
  rewrite !app_nil_r, (resolve_target _ _ Hr), (resolve_render _ _ Hr) in Hnew.
  by apply Hnew.
Qed.

(** C6.  A create or update event of the template watch for the entry
    [r], wherever it stands in the batch that the watch delivers, is
    handled in the world [w1] that the events before it have left, and the
    rest of the batch goes on from the world it leaves.  When [r] exists in
    the diff directory, nothing is copied and the world is unchanged; only
    when it does not exist there is the copy of the template's file to the
    target's path made, after which, if the copy succeeds, the target
    holds the template's version.  No link sits on the path that is looked
    up in the diff directory, and the name of the diff directory holds no
    dollar (it is the replacement text of a [replace]). *)
Theorem template_change_yields_to_diff
    (targetDirectory diffDirectory templateDirectory : string)
    (pre post : list Event) (r : list string) (ty : EventType) (w w1 : World) :
  forallb plain r = true ->
  ty <> ev_delete ->
  Str.has_char dollar diffDirectory = false ->
  templateCallback targetDirectory diffDirectory templateDirectory None pre w
  = (Fulfilled tt, w1) ->
  no_link_on (fs w1) (resolve diffDirectory ++ r) = true ->
  let event := {| path := render templateDirectory r; type := ty |} in
  let targetFile := to_string (resolve targetDirectory ++ r) in
  exists w2,
    templateCallback targetDirectory diffDirectory templateDirectory None
      (pre ++ [event]) w = (Fulfilled tt, w2)
    /\ templateCallback targetDirectory diffDirectory templateDirectory None
         (pre ++ event :: post) w
       = templateCallback targetDirectory diffDirectory templateDirectory None
           post w2
    /\ (is_Some (fs w1 !! (resolve diffDirectory ++ r)) -> w2 = w1)
    /\ (fs w1 !! (resolve diffDirectory ++ r) = None ->
        trace w2 = trace w1 ++ [OpCopy (render templateDirectory r) targetFile]
        /\ (forall w', copyFile (render templateDirectory r) targetFile w1
                         = (Fulfilled tt, w') ->
              forall n, fs w1 !! (resolve templateDirectory ++ r) = Some n ->
                        fs w2 !! (resolve targetDirectory ++ r) = Some n)).
Proof.
  intros Hr Hty Hdollar Hpre _ event targetFile. unfold templateCallback in *.
  destruct (map_detached_snoc
              (templateEvent targetDirectory diffDirectory templateDirectory)
              pre event post w w1 Hpre) as [Hone Hrest].
  destruct (templateEvent_change targetDirectory diffDirectory templateDirectory
              r ty w1 Hr Hty Hdollar) as [Hskip Hcopy].
  fold event targetFile in Hskip, Hcopy.
  eexists. split; [exact Hone |]. split; [exact Hrest |]. split.
  - intros Hd. unfold detached. by rewrite (Hskip Hd).
  - intros Hd.
    assert (detached (templateEvent targetDirectory diffDirectory
                        templateDirectory event) w1
            = detached (copyFile (render templateDirectory r) targetFile) w1)
      as -> by (unfold detached; by rewrite (Hcopy Hd)).
    by apply (detached_copyFile _ _ r templateDirectory targetDirectory).
Qed.

Lemma template_change_witness :
  exists w2,
    templateCallback "/x" "/d" "/t" None
      [{| path := "/t/app/root.tsx"; type := ev_update |};
       {| path := "/t/app/entry.ts"; type := ev_update |}] live
    = (Fulfilled tt, w2)
    /\ fs w2 !! ["x"; "app"; "root.tsx"] = Some (File "diff root")
    /\ fs w2 !! ["x"; "app"; "entry.ts"] = Some (File "template entry, edited").
Proof.
  destruct (template_change_yields_to_diff "/x" "/d" "/t" []
              [{| path := "/t/app/entry.ts"; type := ev_update |}]
              ["app"; "root.tsx"] ev_update live live)
    as (w1 & Hone & Hrest & Hskip & _);
    [reflexivity | discriminate | reflexivity | reflexivity
     | vm_compute; reflexivity |].
  assert (w1 = live) as -> by (apply Hskip; vm_compute; eauto).
  destruct (template_change_yields_to_diff "/x" "/d" "/t"
              [{| path := "/t/app/root.tsx"; type := ev_update |}] []
              ["app"; "entry.ts"] ev_update live live)
    as (w2 & Hrun & _ & _ & Hcopy);
    [reflexivity | discriminate | reflexivity | exact Hone
     | vm_compute; reflexivity |].
  exists w2. split; [exact Hrun |].
  destruct Hcopy as [_ Hcopy]; [vm_compute; reflexivity |].
  pose proof (Hcopy (copyFile "/t/app/entry.ts" "/x/app/entry.ts" live).2
                ltac:(vm_compute; reflexivity)
                (File "template entry, edited")
                ltac:(vm_compute; reflexivity)) as Hentry.
  split; [| exact Hentry].
  revert Hrun. vm_compute. intros [= <-]. reflexivity.
Defined.

(** A delete event of the template watch, on its own. *)
Lemma templateEvent_delete
    (targetDirectory diffDirectory templateDirectory : string)
    (r : list string) (w : World) :
  forallb plain r = true ->
  Str.has_char dollar diffDirectory = false ->
  let event := {| path := render templateDirectory r; type := ev_delete |} in
  let targetFile := to_string (resolve targetDirectory ++ r) in
  (is_Some (fs w !! (resolve diffDirectory ++ r)) ->
   templateEvent targetDirectory diffDirectory templateDirectory event w
   = (Fulfilled tt, w))
  /\ (fs w !! (resolve diffDirectory ++ r) = None ->
      exists w',
        templateEvent targetDirectory diffDirectory templateDirectory event w
        = (Fulfilled tt, w')
        /\ unhandled w' = unhandled w
        /\ trace w' = trace w ++ [OpRemove targetFile]
        /\ (resolve targetDirectory ++ r ∉ readonly w ->
            fs w' !! (resolve targetDirectory ++ r) = None)).
Proof.
  intros Hr Hdollar event targetFile. unfold templateEvent. subst event.
  cbn [path type].
  rewrite (replace_render _ _ _ Hdollar), (joinPath_mirror _ _ _ Hr).
  fold targetFile.
  unfold catch_ignore, mbind, promise_bind, await.
  rewrite fileExists_run, (resolve_render _ _ Hr).
  split.
  - intros Hd. by rewrite bool_decide_eq_true_2.
  - intros Hd. rewrite Hd.
    rewrite bool_decide_eq_false_2 by (intros [? ?]; done).
    destruct (remove targetFile w) as [res w1] eqn:Hrm.
    exists w1.
    destruct (remove_effects _ _ _ _ Hrm) as (Hu & Htr & Hok).
    split; [done |]. split; [done |]. split; [done |].
    intros Hro. unfold targetFile in Hok. rewrite (resolve_target _ _ Hr) in Hok.
    by apply Hok.
Qed.

(** C7, as amended.  A delete event of the template watch for the entry
    [r], wherever it stands in the batch that the watch delivers, is
    handled in the world [w1] that the events before it have left, and the
    rest of the batch goes on from the world it leaves.  When [r] exists in
    the diff directory nothing is removed and the world is unchanged; when
    it does not, the removal of the target's path is attempted, the path is
    gone unless the removal fails, and a failure is swallowed.  No link
    sits on the path that is looked up in the diff directory, and the name
    of the diff directory holds no dollar. *)
Theorem template_delete_removes_unless_in_diff
    (targetDirectory diffDirectory templateDirectory : string)
    (pre post : list Event) (r : list string) (w w1 : World) :
  forallb plain r = true ->
  Str.has_char dollar diffDirectory = false ->
  templateCallback targetDirectory diffDirectory templateDirectory None pre w
  = (Fulfilled tt, w1) ->
  no_link_on (fs w1) (resolve diffDirectory ++ r) = true ->
  let event := {| path := render templateDirectory r; type := ev_delete |} in
  let targetFile := to_string (resolve targetDirectory ++ r) in
  exists w2,
    templateCallback targetDirectory diffDirectory templateDirectory None
      (pre ++ [event]) w = (Fulfilled tt, w2)
    /\ templateCallback targetDirectory diffDirectory templateDirectory None
         (pre ++ event :: post) w
       = templateCallback targetDirectory diffDirectory templateDirectory None
           post w2
    /\ (is_Some (fs w1 !! (resolve diffDirectory ++ r)) -> w2 = w1)
    /\ (fs w1 !! (resolve diffDirectory ++ r) = None ->
        unhandled w2 = unhandled w1
        /\ trace w2 = trace w1 ++ [OpRemove targetFile]
        /\ (resolve targetDirectory ++ r ∉ readonly w1 ->
            fs w2 !! (resolve targetDirectory ++ r) = None)).
Proof.
  intros Hr Hdollar Hpre _ event targetFile. unfold templateCallback in *.
  destruct (map_detached_snoc
              (templateEvent targetDirectory diffDirectory templateDirectory)
              pre event post w w1 Hpre) as [Hone Hrest].
  destruct (templateEvent_delete targetDirectory diffDirectory templateDirectory
              r w1 Hr Hdollar) as [Hskip Hremove].
  fold event targetFile in Hskip, Hremove.
  eexists. split; [exact Hone |]. split; [exact Hrest |]. split.
  - intros Hd. unfold detached. by rewrite (Hskip Hd).
  - intros Hd. destruct (Hremove Hd) as (w' & Hrun & Hfacts).
    unfold detached. by rewrite Hrun.
Qed.

Lemma template_delete_witness :
  exists w2,
    templateCallback "/x" "/d" "/t" None
      [{| path := "/t/app/entry.ts"; type := ev_update |};
       {| path := "/t/app/old.ts"; type := ev_delete |}] live
    = (Fulfilled tt, w2)
    /\ fs live !! ["x"; "app"; "old.ts"] = Some (File "old")
    /\ fs w2 !! ["x"; "app"; "old.ts"] = None.
Proof.
  destruct (template_delete_removes_unless_in_diff "/x" "/d" "/t"
              [{| path := "/t/app/entry.ts"; type := ev_update |}] []
              ["app"; "old.ts"] live
              (templateCallback "/x" "/d" "/t" None
                 [{| path := "/t/app/entry.ts"; type := ev_update |}] live).2)
    as (w2 & Hrun & _ & _ & Hgone).
  - reflexivity.
  - reflexivity.
  - vm_compute. reflexivity.
  - vm_compute. reflexivity.
  - exists w2. split; [exact Hrun |]. split; [vm_compute; reflexivity |].
    destruct Hgone as (_ & _ & Hgone); [vm_compute; reflexivity |].
    apply Hgone. apply not_elem_of_empty.
Defined.

(** C7, as stated, fails: the watch delivers the deletion of a template
    file that the diff overrides, and the target keeps its copy. *)
Lemma template_delete_spares_diff_files :
  templateCallback "/x" "/d" "/t" None
    [{| path := "/t/app/root.tsx"; type := ev_delete |}] live
  = (Fulfilled tt, live)
  /\ fs live !! ["x"; "app"; "root.tsx"] = Some (File "diff root").
Proof. split; vm_compute; reflexivity. Qed.

(** C8.  The copy branch has no rejection handler.  A create or update
    event of the diff watch whose file is gone when the copy runs leaves
    the rejection of [copyFile] unhandled, whereas the delete branch ends
    with [catch]. *)
Theorem copy_failure_is_left_unhandled
    (targetDirectory diffDirectory templateDirectory : string)
    (r : list string) (ty : EventType) (w : World) :
  forallb plain r = true ->
  ty <> ev_delete ->
  fs w !! (resolve diffDirectory ++ r) = None ->
  let event := {| path := render diffDirectory r; type := ty |} in
  exists w',
    diffCallback targetDirectory diffDirectory templateDirectory None [event] w
    = (Fulfilled tt, w')
    /\ unhandled w' = unhandled w ++ [ENOENT (render diffDirectory r)].
Proof.
  intros Hr Hty Hd event. unfold diffCallback, map_detached, detached.
  unfold mbind, promise_bind, await.
  assert (diffEvent targetDirectory diffDirectory templateDirectory event w
          = (Rejected (ENOENT (render diffDirectory r)),
             log_op (OpCopy (render diffDirectory r)
                       (joinPath targetDirectory
                          (relativePath diffDirectory (render diffDirectory r)))) w))
    as ->.
  { unfold diffEvent. subst event. cbn [path type].
    assert (forall a b, copyFile a b w
              = match fs w !! resolve a with
                | None => (Rejected (ENOENT a), log_op (OpCopy a b) w)
                | Some _ => copyFile a b w
                end) as Hcopy.
    { intros a b. unfold copyFile, copy. simpl. by destruct (fs w !! resolve a). }
    destruct ty; try done; rewrite Hcopy, (resolve_render _ _ Hr), Hd; done. }
  eexists. split; [reflexivity | done].
Qed.

Lemma copy_failure_witness :
  exists w',
    diffCallback "/x" "/d" "/t" None
      [{| path := "/d/app/new.tsx"; type := ev_create |}] live
    = (Fulfilled tt, w')
    /\ unhandled w' = [ENOENT "/d/app/new.tsx"].
Proof.
  apply (copy_failure_is_left_unhandled "/x" "/d" "/t" ["app"; "new.tsx"]
           ev_create live).
  - reflexivity.
  - discriminate.
  - vm_compute. reflexivity.
Defined.

(** ** Teardown *)

Lemma unsubscribe_effects s w r w' :
  unsubscribe s w = (r, w') ->
  fs w' = fs w /\ readonly w' = readonly w /\ stuck w' = stuck w
  /\ trace w' = trace w ++ [OpUnsubscribe (watched s)]
  /\ (forall d, d ∈ watching w' <->
                d ∈ watching w /\ (d = watched s -> d ∈ stuck w))
  /\ (r = Fulfilled tt <-> watched s ∉ stuck w).
Proof.
  unfold unsubscribe. simpl. case_bool_decide as Hst; intros [= <- <-]; simpl.
  - repeat (split; [done |]). split; [|done].
    intros d. split; [intros ?; split; [done | by intros ->] | by intros [? _]].
  - repeat (split; [done |]). split; [|done].
    intros d. rewrite elem_of_difference, elem_of_singleton. split.
    + intros [? ?]. split; done.
    + intros [? Hd]. split; [done |]. intros ->. by apply Hst, Hd.
Qed.

Lemma Promise_all_cons {A} (p : Promise A) ps w :
  Promise_all (p :: ps) w
  = match Promise_all ps (p w).2 with
    | (rs, w2) =>
        match (p w).1, rs with
        | Fulfilled a, Fulfilled l => (Fulfilled (a :: l), w2)
        | Rejected e, _ => (Rejected e, w2)
        | Fulfilled _, Rejected e => (Rejected e, w2)
        end
    end.
Proof. simpl. by destruct (p w). Qed.

Lemma unsubscribe_all subs : forall w res w',
  Promise_all (unsubscribe_each subs) w = (res, w') ->
  fs w' = fs w /\ readonly w' = readonly w /\ stuck w' = stuck w
  /\ trace w' = trace w ++ map OpUnsubscribe (watched_dirs subs)
  /\ (forall d, d ∈ watching w' <->
                d ∈ watching w /\ (d ∈ watched_dirs subs -> d ∈ stuck w))
  /\ ((exists l, res = Fulfilled l) <->
      forall d, d ∈ watched_dirs subs -> d ∉ stuck w).
Proof.
  induction subs as [|sub subs IH]; intros w res w'.
  - simpl. intros [= <- <-]. rewrite app_nil_r.
    repeat (split; [done |]). split.
    + intros d. split; [| by intros [? _]].
      intros ?. split; [done |]. intros Hd. by apply elem_of_nil in Hd.
    + split; [intros _ d Hd; by apply elem_of_nil in Hd | intros _; by eexists].
  - change (unsubscribe_each (sub :: subs))
      with ((match sub with Some s => unsubscribe s | None => mret tt end)
              :: unsubscribe_each subs).
    rewrite Promise_all_cons.
    destruct sub as [s|].
    + destruct (unsubscribe s w) as [r1 w1] eqn:Hu.
      destruct (unsubscribe_effects _ _ _ _ Hu) as (Hfs1 & Hro1 & Hs1 & Htr1 & Hw1 & Hr1).
      cbn [fst snd].
      destruct (Promise_all (unsubscribe_each subs) w1) as [rs w2] eqn:Hrest.
      destruct (IH _ _ _ Hrest) as (Hfs & Hro & Hs & Htr & Hw & Hres).
      change (watched_dirs (Some s :: subs)) with (watched s :: watched_dirs subs).
      intros Heq.
      assert (w' = w2) as -> by (destruct r1, rs; by injection Heq).
      split; [congruence |]. split; [congruence |]. split; [congruence |].
      split; [rewrite Htr, Htr1, <- app_assoc; done |]. split.
      * intros d. rewrite Hw, Hw1, Hs1. split.
        -- intros [[? Hd1] Hd2]. split; [done |].
           intros [-> | Hin]%elem_of_cons; [by apply Hd1 | by apply Hd2].
        -- intros [? Hd]. split; [split; [done |] |].
           ++ intros ->. apply Hd. by left.
           ++ intros Hin. apply Hd. by right.
      * rewrite Hs1 in Hres. split.
        -- intros [l ->]. destruct r1 as [[]|]; [|destruct rs; done].
           destruct rs as [l'|]; [|done].
           intros d [-> | Hin]%elem_of_cons; [by apply Hr1 |].
           apply Hres; [by eexists | done].
        -- intros Hall.
           assert (r1 = Fulfilled tt) as -> by (apply Hr1, Hall; by left).
           destruct Hres as [_ [l ->]].
           { intros d Hin. apply Hall. by right. }
           injection Heq as <-. by eexists.
    + change (watched_dirs (None :: subs)) with (watched_dirs subs).
      change ((mret tt : Promise unit) w) with (Fulfilled tt, w). cbn [fst snd].
      destruct (Promise_all (unsubscribe_each subs) w) as [rs w2] eqn:Hrest.
      destruct (IH _ _ _ Hrest) as (Hfs & Hro & Hs & Htr & Hw & Hres).
      intros Heq.
      assert (w' = w2) as -> by (destruct rs; by injection Heq).
      repeat (split; [done |]). rewrite <- Hres.
      destruct rs; injection Heq as <-; split; intros [? ?]; try done; by eexists.
Qed.

(** C3, as amended.  The cleanup starts the [unsubscribe] of every watch
    it holds, and the failure of one does not keep the others from being
    unsubscribed.  The removal of the target directory is attempted only
    when every [unsubscribe] succeeded, and then the directory and all that
    it holds are gone unless the removal fails; when some [unsubscribe]
    fails, the cleanup is rejected and the file system is left as it
    was. *)
Theorem cleanup_removes_target_only_after_all_unsubscribed
    (targetDirectory : string) (subs : list (option Subscription))
    (w : World) (res : Result unit) (w' : World) :
  cleanup targetDirectory subs w = (res, w') ->
  (forall d, d ∈ watched_dirs subs ->
     OpUnsubscribe d ∈ trace w' /\ (d ∉ stuck w -> d ∉ watching w'))
  /\ ((forall d, d ∈ watched_dirs subs -> d ∉ stuck w) ->
      trace w' = trace w ++ map OpUnsubscribe (watched_dirs subs)
                   ++ [OpRemove targetDirectory]
      /\ (resolve targetDirectory ∉ readonly w ->
          res = Fulfilled tt
          /\ forall k, resolve targetDirectory `prefix_of` k -> fs w' !! k = None))
  /\ ((exists d, d ∈ watched_dirs subs /\ d ∈ stuck w) ->
      (exists e, res = Rejected e)
      /\ fs w' = fs w
      /\ trace w' = trace w ++ map OpUnsubscribe (watched_dirs subs)).
Proof.
  unfold cleanup, mbind, promise_bind, await. fold (unsubscribe_each subs).
  destruct (Promise_all (unsubscribe_each subs) w) as [rs w1] eqn:Hall.
  destruct (unsubscribe_all _ _ _ _ Hall) as (Hfs & Hro & Hs & Htr & Hw & Hres).
  intros Hrun. split; [|split].
  - intros d Hd.
    assert (OpUnsubscribe d ∈ trace w1) as Hin.
    { rewrite Htr. apply elem_of_app. right. apply list_elem_of_fmap. by exists d. }
    assert (d ∉ stuck w -> d ∉ watching w1) as Hout.
    { intros Hst Hin'. apply Hw in Hin' as [_ Hin']. by apply Hst, Hin'. }
    destruct rs as [l|e].
    + destruct (remove_effects _ _ _ _ Hrun) as (_ & Htr' & _).
      split; [rewrite Htr'; apply elem_of_app; by left |].
      intros Hst. revert Hrun. unfold remove. simpl.
      case_bool_decide; intros [= _ <-]; simpl; by apply Hout.
    + injection Hrun as _ <-. done.
  - intros Hok. apply Hres in Hok as [l ->].
    destruct (remove_effects _ _ _ _ Hrun) as (_ & Htr' & Hrm).
    split; [by rewrite Htr', Htr, <- app_assoc |].
    rewrite <- Hro. exact Hrm.
  - intros (d & Hd & Hst).
    destruct rs as [l|e].
    + exfalso. destruct Hres as [Hres _]. by apply (Hres (ex_intro _ l eq_refl) d).
    + injection Hrun as <- <-. split; [by eexists | done].
Qed.

Lemma cleanup_witness :
  (cleanup "/x" all_subscriptions live_watching).1 = Fulfilled tt
  /\ fs (cleanup "/x" all_subscriptions live_watching).2
       !! ["x"; "app"; "root.tsx"] = None.
Proof.
  destruct (cleanup_removes_target_only_after_all_unsubscribed
              "/x" all_subscriptions live_watching
              (cleanup "/x" all_subscriptions live_watching).1
              (cleanup "/x" all_subscriptions live_watching).2)
    as (_ & Hok & _).
  - by destruct (cleanup "/x" all_subscriptions live_watching).
  - destruct Hok as [_ Hgone].
    + intros d _. apply not_elem_of_empty.
    + destruct Hgone as [Hres Hfs]; [apply not_elem_of_empty |].
      split; [exact Hres |]. apply Hfs. by exists ["app"; "root.tsx"].
Defined.

(** C3, as stated, fails: the watch of the diff directory refuses to
    unsubscribe; the other two are unsubscribed, the cleanup is rejected,
    and the removal of the target directory is not attempted. *)
Lemma stuck_unsubscribe_skips_removal :
  (cleanup "/x" all_subscriptions live_stuck).1
  = Rejected (UnsubscribeError "/d")
  /\ trace (cleanup "/x" all_subscriptions live_stuck).2
     = [OpUnsubscribe "/x"; OpUnsubscribe "/d"; OpUnsubscribe "/t"]
  /\ fs (cleanup "/x" all_subscriptions live_stuck).2 !! ["x"] = Some Dir
  /\ fs (cleanup "/x" all_subscriptions live_stuck).2
       !! ["x"; "app"; "root.tsx"] = Some (File "diff root").
Proof. vm_compute. repeat split. Qed.

(** ** More about the file system *)

Lemma ancestors_proper q : forall k,
  q ∈ ancestors k -> exists r, r <> [] /\ k = q ++ r.
Proof.
  intros k. revert q. induction k as [|a k IH]; intros q H.
  - by apply elem_of_nil in H.
  - simpl in H. apply elem_of_cons in H as [-> | H].
    + by exists (a :: k).
    + apply list_elem_of_fmap in H as [q' [-> H]].
      destruct (IH _ H) as (r & Hr & ->). by exists r.
Qed.

Lemma not_ancestor_below d r : d ++ r ∉ ancestors d.
Proof.
  intros H. apply ancestors_proper in H as (r' & Hr' & Heq).
  rewrite <- app_assoc in Heq.
  rewrite <- (app_nil_r d) in Heq at 1. apply app_inv_head in Heq.
  symmetry in Heq. apply app_eq_nil in Heq as [_ ->]. done.
Qed.

Lemma ancestor_is_prefix q k : q ∈ ancestors k -> q `prefix_of` k.
Proof. intros H. apply ancestors_proper in H as (r & _ & ->). by exists r. Qed.

Lemma mkdirs_lookup_inv p m k n :
  mkdirs p m !! k = Some n ->
  m !! k = Some n \/ (m !! k = None /\ n = Dir /\ k ∈ ancestors p).
Proof.
  unfold mkdirs.
  induction (ancestors p) as [|q l IH]; simpl; [by left |].
  destruct (fold_right _ m l !! q) eqn:E.
  - intros H. destruct (IH H) as [? | (? & ? & ?)]; [by left |].
    right. repeat split; try done. by right.
  - destruct (decide (q = k)) as [-> | Hne].
    + rewrite lookup_insert_eq. intros [= <-]. right.
      split; [| split; [done | by left]].
      destruct (m !! k) eqn:Hk; [|done].
      assert (fold_right
                (fun q acc => match acc !! q with
                              | Some _ => acc
                              | None => <[q:=Dir]> acc
                              end) m l !! k = Some n) as Hc.
      { clear -Hk. induction l as [|q l IH]; simpl; [done |].
        destruct (fold_right _ m l !! q) eqn:E; [done |].
        rewrite lookup_insert_ne; [done |]. intros ->. congruence. }
      congruence.
    + rewrite lookup_insert_ne by done. intros H.
      destruct (IH H) as [? | (? & ? & ?)]; [by left |].
      right. repeat split; try done. by right.
Qed.

Lemma mkdirs_lookup_off p m k :
  k ∉ ancestors p -> mkdirs p m !! k = m !! k.
Proof.
  intros Hk. destruct (mkdirs p m !! k) as [n|] eqn:E.
  - apply mkdirs_lookup_inv in E as [? | (_ & _ & ?)]; done.
  - destruct (m !! k) as [n|] eqn:E'; [|done].
    by rewrite (mkdirs_lookup_Some p m k n E') in E.
Qed.

Lemma copied_lookup_inv f src d m k n :
  copied f src d m !! k = Some n ->
  exists r, k = d ++ r /\ included f src r = true
            /\ m !! (resolve src ++ r) = Some n.
Proof.
  unfold copied. intros H. apply elem_of_list_to_map_2 in H.
  apply list_elem_of_fmap in H as [[r n'] [[= -> ->] H]].
  apply selected_elem in H as [? ?]. by exists r.
Qed.

Lemma copied_lookup_None f src d m r :
  m !! (resolve src ++ r) = None \/ included f src r = false ->
  copied f src d m !! (d ++ r) = None.
Proof.
  intros H. destruct (copied f src d m !! (d ++ r)) as [n|] eqn:E; [|done].
  apply copied_lookup_inv in E as (r' & Heq & Hi & Hs).
  apply app_inv_head in Heq as <-. destruct H; congruence.
Qed.

(** Where an entry of the world after a fulfilled [copy] comes from. *)
Lemma copy_lookup_inv f src dest w w' k n :
  copy f src dest w = (Fulfilled tt, w') ->
  fs w' !! k = Some n ->
  fs w !! k = Some n
  \/ (fs w !! k = None /\ n = Dir /\ k ∈ ancestors (resolve dest))
  \/ (exists r, k = resolve dest ++ r /\ included f src r = true
                /\ fs w !! (resolve src ++ r) = Some n).
Proof.
  intros Hc Hk.
  destruct (copy_fulfilled _ _ _ _ _ Hc)
    as (_ & _ & _ & _ & _ & [[_ Hfs] | [_ Hfs]]); rewrite Hfs in Hk.
  - by left.
  - apply lookup_union_Some_raw in Hk as [Hk | [_ Hk]].
    + right. right. by apply copied_lookup_inv.
    + apply mkdirs_lookup_inv in Hk as [? | ?]; [by left | by right; left].
Qed.

(** Below the destination, an entry that the walk does not reach stays as
    it was. *)
Lemma copy_lookup_unreached f src dest w w' r :
  copy f src dest w = (Fulfilled tt, w') ->
  fs w !! (resolve src ++ r) = None \/ included f src r = false ->
  fs w' !! (resolve dest ++ r) = fs w !! (resolve dest ++ r).
Proof.
  intros Hc Hr.
  destruct (copy_fulfilled _ _ _ _ _ Hc)
    as (_ & _ & _ & _ & _ & [[_ ->] | [_ ->]]); [done |].
  rewrite lookup_union_r by by apply copied_lookup_None.
  apply mkdirs_lookup_off, not_ancestor_below.
Qed.

(** A [copy], whatever its outcome, leaves alone what is neither below its
    destination nor above it. *)
Lemma copy_lookup_aside f src dest w res w' k :
  copy f src dest w = (res, w') ->
  ~ resolve dest `prefix_of` k ->
  ~ k `prefix_of` resolve dest ->
  fs w' !! k = fs w !! k.
Proof.
  intros Hc Hd Hk. destruct res as [[]|e].
  - destruct (copy_fulfilled _ _ _ _ _ Hc)
      as (_ & _ & _ & _ & _ & [[_ ->] | [_ ->]]); [done |].
    rewrite lookup_union_r by by apply copied_lookup_outside.
    apply mkdirs_lookup_off. intros H. by apply Hk, ancestor_is_prefix.
  - destruct (copy_effects _ _ _ _ _ _ Hc) as (_ & _ & _ & Hfs).
    by rewrite (Hfs e eq_refl).
Qed.

Lemma remove_lookup p w res w' k :
  remove p w = (res, w') ->
  ~ resolve p `prefix_of` k ->
  fs w' !! k = fs w !! k.
Proof.
  unfold remove. simpl. case_bool_decide; intros [= <- <-] Hk; simpl; [done |].
  destruct (fs w !! k) as [n|] eqn:E.
  - apply map_lookup_filter_Some. split; [done |]. simpl. by apply is_prefix_false.
  - apply map_lookup_filter_None. by left.
Qed.

Lemma prefix_app_same (a b c d : list string) :
  a ++ b = c ++ d -> a `prefix_of` c \/ c `prefix_of` a.
Proof.
  revert c. induction a as [|x a IH]; intros c H.
  - left. apply prefix_nil.
  - destruct c as [|y c]; [right; apply prefix_nil |].
    injection H as -> H. destruct (IH _ H); [left | right]; by apply prefix_cons.
Qed.

(** ** More about the callbacks *)

(** X1.  A create or update event of the diff watch for the entry [r],
    wherever it stands in the batch that the watch delivers, is handled in
    the world [w1] that the events before it have left, and the rest of the
    batch goes on from the world it leaves.  It makes one call, the copy of
    the diff's entry to the same relative path of the target, and when the
    copy succeeds the target holds the entry of the diff.  No link sits on
    the path of the entry in the diff directory or in the target. *)
Theorem diff_change_reaches_target
    (targetDirectory diffDirectory templateDirectory : string)
    (pre post : list Event) (r : list string) (ty : EventType) (w w1 : World) :
  forallb plain r = true ->
  ty <> ev_delete ->
  diffCallback targetDirectory diffDirectory templateDirectory None pre w
  = (Fulfilled tt, w1) ->
  no_link_on (fs w1) (resolve diffDirectory ++ r) = true ->
  no_link_on (fs w1) (resolve targetDirectory ++ r) = true ->
  let event := {| path := render diffDirectory r; type := ty |} in
  let targetFile := to_string (resolve targetDirectory ++ r) in
  exists w2,
    diffCallback targetDirectory diffDirectory templateDirectory None
      (pre ++ [event]) w = (Fulfilled tt, w2)
    /\ diffCallback targetDirectory diffDirectory templateDirectory None
         (pre ++ event :: post) w
       = diffCallback targetDirectory diffDirectory templateDirectory None post w2
    /\ trace w2 = trace w1 ++ [OpCopy (render diffDirectory r) targetFile]
    /\ (forall w', copyFile (render diffDirectory r) targetFile w1
                     = (Fulfilled tt, w') ->
          forall n, fs w1 !! (resolve diffDirectory ++ r) = Some n ->
                    fs w2 !! (resolve targetDirectory ++ r) = Some n).
Proof.
  intros Hr Hty Hpre _ _ event targetFile. unfold diffCallback in *.
  destruct (map_detached_snoc
              (diffEvent targetDirectory diffDirectory templateDirectory)
              pre event post w w1 Hpre) as [Hone Hrest].
  eexists. split; [exact Hone |]. split; [exact Hrest |].
  assert (diffEvent targetDirectory diffDirectory templateDirectory event
          = copyFile (render diffDirectory r) targetFile) as ->.
  { unfold diffEvent. subst event. cbn [path type].
    rewrite (joinPath_mirror _ _ _ Hr). by destruct ty. }
  by apply (detached_copyFile _ _ r diffDirectory targetDirectory).
Qed.

(** X2.  An event of the target watch for the entry [r], whatever its
    type and wherever it stands in the batch that the watch delivers, is
    handled in the world [w1] that the events before it have left, and the
    rest of the batch goes on from the world it leaves.  It makes one call,
    the copy of the target's entry to the same relative path of the diff
    directory, and when the copy succeeds the diff directory holds the
    entry of the target.  No link sits on the path of the entry in the
    target or in the diff directory. *)
Theorem generated_file_returns_to_diff
    (targetDirectory diffDirectory : string)
    (pre post : list Event) (r : list string) (ty : EventType) (w w1 : World) :
  forallb plain r = true ->
  targetCallback targetDirectory diffDirectory None pre w = (Fulfilled tt, w1) ->
  no_link_on (fs w1) (resolve targetDirectory ++ r) = true ->
  no_link_on (fs w1) (resolve diffDirectory ++ r) = true ->
  let event := {| path := render targetDirectory r; type := ty |} in
  let diffFile := to_string (resolve diffDirectory ++ r) in
  exists w2,
    targetCallback targetDirectory diffDirectory None (pre ++ [event]) w
    = (Fulfilled tt, w2)
    /\ targetCallback targetDirectory diffDirectory None (pre ++ event :: post) w
       = targetCallback targetDirectory diffDirectory None post w2
    /\ trace w2 = trace w1 ++ [OpCopy (render targetDirectory r) diffFile]
    /\ (forall w', copyFile (render targetDirectory r) diffFile w1
                     = (Fulfilled tt, w') ->
          forall n, fs w1 !! (resolve targetDirectory ++ r) = Some n ->
                    fs w2 !! (resolve diffDirectory ++ r) = Some n).
Proof.
  intros Hr Hpre _ _ event diffFile. unfold targetCallback in *.
  destruct (map_detached_snoc (targetEvent targetDirectory diffDirectory)
              pre event post w w1 Hpre) as [Hone Hrest].
  eexists. split; [exact Hone |]. split; [exact Hrest |].
  assert (targetEvent targetDirectory diffDirectory event
          = copyFile (render targetDirectory r) diffFile) as ->.
  { unfold targetEvent. subst event. cbn [path type].
    by rewrite (joinPath_mirror _ _ _ Hr). }
  by apply (detached_copyFile _ _ r targetDirectory diffDirectory).
Qed.

Lemma copy_trace f src dest w :
  trace (copy f src dest w).2 = trace w ++ [OpCopy src dest].
Proof.
  destruct (copy f src dest w) as [res w'] eqn:E.
  by destruct (copy_effects _ _ _ _ _ _ E) as (_ & _ & ? & _).
Qed.

Lemma remove_trace p w : trace (remove p w).2 = trace w ++ [OpRemove p].
Proof.
  destruct (remove p w) as [res w'] eqn:E.
  by destruct (remove_effects _ _ _ _ E) as (_ & ? & _).
Qed.

Lemma diffEvent_trace X D T event w :
  exists o, trace (diffEvent X D T event w).2 = trace w ++ [o]
            /\ writes_to o (joinPath X (relativePath D (path event))).
Proof.
  unfold diffEvent.
  destruct (type event).
  - eexists. split; [apply copy_trace | done].
  - eexists. split; [apply copy_trace | done].
  - unfold catch_ignore. run_promise. rewrite fileExists_run.
    destruct (bool_decide _).
    + exists (OpCopy (Str.replace D T (path event))
                (joinPath X (relativePath D (path event)))).
      split; [|done].
      pose proof (copy_trace (fun _ => true) (Str.replace D T (path event))
                    (joinPath X (relativePath D (path event))) w) as H.
      unfold copyFile. by destruct (copy _ _ _ w).
    + exists (OpRemove (joinPath X (relativePath D (path event)))).
      split; [|done].
      pose proof (remove_trace (joinPath X (relativePath D (path event))) w) as H.
      by destruct (remove _ w).
Qed.

Lemma targetEvent_trace X D event w :
  exists o, trace (targetEvent X D event w).2 = trace w ++ [o]
            /\ writes_to o (joinPath D (relativePath X (path event))).
Proof. eexists. split; [apply copy_trace | done]. Qed.

Lemma map_detached_trace {A B} (f : A -> Promise B) (P : A -> Op -> Prop) :
  (forall x w, exists o, trace (f x w).2 = trace w ++ [o] /\ P x o) ->
  forall l w, exists w' ops,
    map_detached f l w = (Fulfilled tt, w')
    /\ trace w' = trace w ++ ops /\ Forall2 P l ops.
Proof.
  intros Hf. induction l as [|x l IH]; intros w.
  - exists w, []. by rewrite app_nil_r.
  - cbn [map_detached]. unfold detached. run_promise.
    destruct (Hf x w) as (o & Ho & HP).
    destruct (f x w) as [[b|e] w1]; simpl in Ho.
    + destruct (IH w1) as (w' & ops & -> & Htr & Hall).
      exists w', (o :: ops). split; [done |]. split; [|by constructor].
      by rewrite Htr, Ho, <- app_assoc.
    + destruct (IH (log_unhandled e w1)) as (w' & ops & -> & Htr & Hall).
      exists w', (o :: ops). split; [done |]. split; [|by constructor].
      rewrite Htr. simpl. by rewrite Ho, <- app_assoc.
Qed.

(** X3.  A batch that arrives without an error is handled event by
    event, and the callback completes whatever becomes of the calls: for
    every event of the batch, the diff callback and the target callback
    each make a call that writes to the path mirroring the event's path
    (in the target for the diff watch, in the diff directory for the target
    watch). *)
Theorem every_event_of_a_batch_is_handled
    (targetDirectory diffDirectory templateDirectory : string)
    (events : list Event) (w : World) :
  (exists w',
     diffCallback targetDirectory diffDirectory templateDirectory None events w
     = (Fulfilled tt, w')
     /\ forall event, event ∈ events ->
          exists o, o ∈ trace w'
            /\ writes_to o (joinPath targetDirectory
                              (relativePath diffDirectory (path event))))
  /\ (exists w',
        targetCallback targetDirectory diffDirectory None events w
        = (Fulfilled tt, w')
        /\ forall event, event ∈ events ->
             exists o, o ∈ trace w'
               /\ writes_to o (joinPath diffDirectory
                                 (relativePath targetDirectory (path event)))).
Proof.
  split.
  - destruct (map_detached_trace
                (diffEvent targetDirectory diffDirectory templateDirectory)
                (fun event o =>
                   writes_to o (joinPath targetDirectory
                                  (relativePath diffDirectory (path event))))
                (diffEvent_trace _ _ _) events w) as (w' & ops & Hrun & Htr & Hall).
    exists w'. split; [exact Hrun |]. intros event Hin.
    apply list_elem_of_lookup in Hin as [i Hi].
    destruct (Forall2_lookup_l _ _ _ _ _ Hall Hi) as (o & Ho & HP).
    exists o. split; [| exact HP].
    rewrite Htr. apply elem_of_app. right. by apply list_elem_of_lookup_2 in Ho.
  - destruct (map_detached_trace
                (targetEvent targetDirectory diffDirectory)
                (fun event o =>
                   writes_to o (joinPath diffDirectory
                                  (relativePath targetDirectory (path event))))
                (targetEvent_trace _ _) events w) as (w' & ops & Hrun & Htr & Hall).
    exists w'. split; [exact Hrun |]. intros event Hin.
    apply list_elem_of_lookup in Hin as [i Hi].
    destruct (Forall2_lookup_l _ _ _ _ _ Hall Hi) as (o & Ho & HP).
    exists o. split; [| exact HP].
    rewrite Htr. apply elem_of_app. right. by apply list_elem_of_lookup_2 in Ho.
Qed.

(** ** The operations that bring results back to the diff directory *)

Lemma resolve_entry dir name :
  plain name = true -> resolve (joinPath dir name) = resolve dir ++ [name].
Proof.
  intros H. apply (resolve_joinPath dir [name]). simpl. by rewrite H.
Qed.

Lemma included_all cur r : included (fun _ => true) cur r = true.
Proof. revert cur. induction r as [|x r IH]; intros cur; [done | apply IH]. Qed.

Lemma remove_fulfilled p w w' :
  remove p w = (Fulfilled tt, w') ->
  (forall k, resolve p `prefix_of` k -> fs w' !! k = None)
  /\ (forall k, ~ resolve p `prefix_of` k -> fs w' !! k = fs w !! k).
Proof.
  intros H. split.
  - revert H. unfold remove. simpl. case_bool_decide; intros [= <-]; simpl.
    intros k Hk. apply map_lookup_filter_None. right. intros n _. simpl.
    apply is_prefix_true in Hk. by rewrite Hk.
  - intros k Hk. by apply (remove_lookup _ _ _ _ _ H).
Qed.

Lemma prefix_snoc_cases (l b : list string) y :
  l `prefix_of` b ++ [y] -> l `prefix_of` b \/ l = b ++ [y].
Proof.
  intros H. destruct (prefix_app_cases _ _ _ H) as [? | [r ->]]; [by left |].
  apply prefix_app_inv in H. destruct r as [|x r].
  - left. by rewrite app_nil_r.
  - right. pose proof (prefix_cons_inv_1 _ _ _ _ H) as ->.
    apply prefix_cons_inv_2, prefix_nil_inv in H. by subst.
Qed.

(** After the destination was removed and the source copied over it, the
    destination mirrors the source. *)
Lemma remove_then_copy_mirrors src dest w w1 w2 :
  remove dest w = (Fulfilled tt, w1) ->
  copy (fun _ => true) src dest w1 = (Fulfilled tt, w2) ->
  (forall r, fs w2 !! (resolve dest ++ r) = fs w !! (resolve src ++ r))
  /\ ~ resolve dest `prefix_of` resolve src
  /\ ~ resolve src `prefix_of` resolve dest.
Proof.
  intros Hrm Hc.
  destruct (remove_fulfilled _ _ _ Hrm) as [Hgone Hkept].
  destruct (copy_fulfilled _ _ _ _ _ Hc) as ([n Hn] & Hsd & _).
  assert (~ resolve dest `prefix_of` resolve src) as Hds.
  { intros H. by rewrite (Hgone _ H) in Hn. }
  split; [|done].
  intros r.
  assert (fs w1 !! (resolve src ++ r) = fs w !! (resolve src ++ r)) as Hsame.
  { apply Hkept. intros H.
    apply prefix_app_cases in H as [H | [r' H]]; [done |].
    apply Hsd. rewrite H. by exists r'. }
  destruct (fs w !! (resolve src ++ r)) as [m|] eqn:E.
  - apply (copy_lookup_new _ _ _ _ _ _ _ Hc Hsame), included_all.
  - rewrite (copy_lookup_unreached _ _ _ _ _ r Hc) by by left.
    apply Hgone. by exists r.
Qed.

(** X4.  [copyShopifyConfig] does nothing when the target has no
    [.shopify].  When it has one and the operation completes, the
    [.shopify] of the diff directory mirrors that of the target entry for
    entry: what the diff directory had there before is gone.  No link sits
    on the path of the target's [.shopify]. *)
Theorem copyShopifyConfig_mirrors_or_does_nothing
    (targetDirectory diffDirectory : string) (w : World) :
  no_link_on (fs w) (resolve targetDirectory ++ [".shopify"]) = true ->
  (fs w !! (resolve targetDirectory ++ [".shopify"]) = None ->
   copyShopifyConfig targetDirectory diffDirectory w = (Fulfilled tt, w))
  /\ (forall w',
        is_Some (fs w !! (resolve targetDirectory ++ [".shopify"])) ->
        copyShopifyConfig targetDirectory diffDirectory w = (Fulfilled tt, w') ->
        forall r, fs w' !! (resolve diffDirectory ++ [".shopify"] ++ r)
                  = fs w !! (resolve targetDirectory ++ [".shopify"] ++ r)).
Proof.
  intros _. unfold copyShopifyConfig. run_promise.
  rewrite fileExists_run, (resolve_entry targetDirectory ".shopify" eq_refl).
  split.
  - intros ->. by rewrite bool_decide_eq_false_2 by (intros [? ?]; done).
  - intros w' Hs. rewrite bool_decide_eq_true_2 by done. cbn [negb].
    destruct (remove _ w) as [[[]|e] w1] eqn:Hrm; [|done].
    unfold copyDirectory. intros Hc r.
    destruct (remove_then_copy_mirrors _ _ _ _ _ Hrm Hc) as [Hm _].
    specialize (Hm r).
    rewrite !(resolve_entry _ ".shopify" eq_refl), <- !app_assoc in Hm.
    exact Hm.
Qed.

(** X5.  When [copyDiffBuild] completes, the [dist] of the diff
    directory mirrors that of the target entry for entry (an older build
    does not survive), the target had a [.env], and the diff directory has
    the same [.env]. *)
Theorem copyDiffBuild_mirrors_the_build
    (targetDirectory diffDirectory : string) (w w' : World) :
  copyDiffBuild targetDirectory diffDirectory w = (Fulfilled tt, w') ->
  (forall r, fs w' !! (resolve diffDirectory ++ ["dist"] ++ r)
             = fs w !! (resolve targetDirectory ++ ["dist"] ++ r))
  /\ is_Some (fs w !! (resolve targetDirectory ++ [".env"]))
  /\ fs w' !! (resolve diffDirectory ++ [".env"])
     = fs w !! (resolve targetDirectory ++ [".env"]).
Proof.
  unfold copyDiffBuild. run_promise.
  destruct (remove _ w) as [[[]|e] w1] eqn:Hrm; [|done].
  cbn [Promise_all]. unfold copyDirectory, copyFile, resolve_with.
  destruct (copy _ (joinPath targetDirectory "dist") _ w1)
    as [[[]|e1] w2] eqn:Hc1;
    destruct (copy _ (joinPath targetDirectory ".env") _ w2)
      as [[[]|e2] w3] eqn:Hc2; try done.
  intros [= <-].
  destruct (remove_then_copy_mirrors _ _ _ _ _ Hrm Hc1) as (Hm & Hds & Hsd).
  destruct (remove_fulfilled _ _ _ Hrm) as [_ Hkept].
  destruct (copy_fulfilled _ _ _ _ _ Hc2) as (Henv & Hnot & _).
  rewrite !(resolve_entry _ "dist" eq_refl) in *.
  rewrite !(resolve_entry _ ".env" eq_refl) in *.
  (* the environment file is out of the way of the first two steps *)
  assert (fs w2 !! (resolve targetDirectory ++ [".env"])
          = fs w !! (resolve targetDirectory ++ [".env"])) as Hsame.
  { assert (~ (resolve diffDirectory ++ ["dist"])
                `prefix_of` (resolve targetDirectory ++ [".env"])) as Hout.
    { intros H. apply prefix_snoc_cases in H as [H | H].
      - apply Hds. by apply prefix_app_r.
      - by apply app_inj_tail in H as [_ [=]]. }
    rewrite <- Hkept by done.
    apply (copy_lookup_aside _ _ _ _ _ _ _ Hc1);
      rewrite (resolve_entry _ "dist" eq_refl); [done |].
    intros H. apply prefix_snoc_cases in H as [H | H].
    - apply Hnot. by apply prefix_app_r.
    - by apply app_inj_tail in H as [_ [=]]. }
  split; [|split].
  - intros r. rewrite !app_assoc, <- (Hm r).
    apply (copy_lookup_aside _ _ _ _ _ _ _ Hc2);
      rewrite (resolve_entry _ ".env" eq_refl).
    + intros [r' H]. rewrite <- !app_assoc in H.
      apply app_inv_head in H. discriminate H.
    + intros [r' H]. rewrite <- !app_assoc in H.
      apply app_inv_head in H. discriminate H.
  - by rewrite <- Hsame.
  - rewrite <- Hsame. destruct Henv as [n Hn]. rewrite Hn.
    pose proof (copy_lookup_new _ _ _ _ _ [] n Hc2) as Hnew.
    rewrite !app_nil_r, !(resolve_entry _ ".env" eq_refl) in Hnew.
    by apply Hnew.
Qed.

(** X6.  The old build is removed before the new one is looked at:
    when the target has no [dist], [copyDiffBuild] is rejected because the
    source is missing, and the [dist] that the diff directory had is gone
    all the same. *)
Theorem copyDiffBuild_without_build_drops_old_dist
    (targetDirectory diffDirectory : string) (w : World) :
  fs w !! (resolve targetDirectory ++ ["dist"]) = None ->
  resolve diffDirectory ++ ["dist"] ∉ readonly w ->
  exists w',
    copyDiffBuild targetDirectory diffDirectory w
    = (Rejected (ENOENT (joinPath targetDirectory "dist")), w')
    /\ forall r, fs w' !! (resolve diffDirectory ++ ["dist"] ++ r) = None.
Proof.
  intros Hnone Hro. unfold copyDiffBuild. run_promise.
  destruct (remove (joinPath diffDirectory "dist") w) as [res w1] eqn:Hrm.
  destruct (remove_effects _ _ _ _ Hrm) as (_ & _ & Hok).
  rewrite (resolve_entry _ "dist" eq_refl) in Hok.
  destruct (Hok Hro) as [-> Hgone].
  assert (fs w1 !! (resolve targetDirectory ++ ["dist"]) = None) as Hsrc.
  { destruct (fs w1 !! _) as [n|] eqn:E; [|done].
    revert Hrm E. unfold remove. simpl. case_bool_decide; intros [= <-]; simpl.
    intros E. apply map_lookup_filter_Some in E as [E _]. congruence. }
  cbn [Promise_all]. unfold copyDirectory, copyFile, resolve_with.
  assert (copy (fun _ => true) (joinPath targetDirectory "dist")
            (joinPath diffDirectory "dist") w1
          = (Rejected (ENOENT (joinPath targetDirectory "dist")),
             log_op (OpCopy (joinPath targetDirectory "dist")
                       (joinPath diffDirectory "dist")) w1)) as ->.
  { unfold copy. simpl. by rewrite (resolve_entry _ "dist" eq_refl), Hsrc. }
  destruct (copy _ (joinPath targetDirectory ".env") _ _) as [r2 w3] eqn:Hc2.
  exists w3. split; [destruct r2; reflexivity |].
  intros r.
  rewrite (copy_lookup_aside _ _ _ _ _ _ _ Hc2);
    rewrite ?(resolve_entry _ ".env" eq_refl).
  - simpl. apply Hgone. exists r. by rewrite <- app_assoc.
  - intros [r' H]. rewrite <- !app_assoc in H.
    apply app_inv_head in H. discriminate H.
  - intros [r' H]. rewrite <- !app_assoc in H.
    apply app_inv_head in H. discriminate H.
Qed.

(** ** More about the manifest transform *)

Lemma delete_all_None names : forall (m : gmap string jsval) name,
  m !! name = None -> delete_all names m !! name = None.
Proof.
  induction names as [|x names IH]; intros m name H; [done |].
  unfold delete_all in *. simpl. apply IH.
  destruct (decide (x = name)) as [-> | Hne];
    [apply lookup_delete_eq | by rewrite lookup_delete_ne].
Qed.

Lemma delete_all_lookup_in names : forall (m : gmap string jsval) name,
  name ∈ names -> delete_all names m !! name = None.
Proof.
  induction names as [|x names IH]; intros m name H.
  - by apply elem_of_nil in H.
  - unfold delete_all in *. simpl.
    destruct (decide (x = name)) as [-> | Hne].
    + apply (delete_all_None names), lookup_delete_eq.
    + apply IH. by apply elem_of_cons in H as [-> | H].
Qed.

Lemma devDependencies_strip p key :
  devDependencies (strip_flag p key) = devDependencies p.
Proof.
  unfold strip_flag. destruct (scripts p) as [sc|]; [|done].
  destruct (sc !! key) as [[| | |s]|]; try done.
  by destruct (truthy (JStr s)).
Qed.

Lemma devDependencies_stripped tpl pkg :
  devDependencies (stripped_manifest tpl pkg) = devDependencies pkg.
Proof.
  unfold stripped_manifest. simpl. rewrite !devDependencies_strip.
  by destruct (dependencies pkg), (dependencies tpl).
Qed.

Lemma onResult_unfold tpl opts pkg :
  onResult tpl opts pkg
  = let stripped := stripped_manifest tpl pkg in
    let skipped :=
      match skipDependencies opts, dependencies stripped with
      | Some names, Some deps => set_dependencies (delete_all names deps) stripped
      | _, _ => stripped
      end in
    match skipDevDependencies opts, devDependencies skipped with
    | Some names, Some deps => set_devDependencies (delete_all names deps) skipped
    | _, _ => skipped
    end.
Proof. reflexivity. Qed.

(** X7.  A name listed under [skipDependencies] is absent from the
    dependencies of the manifest that [onResult] returns, and a name listed
    under [skipDevDependencies] from its development dependencies.  The
    deletion comes last, so it also undoes the pin of
    [@shopify/cli-hydrogen]. *)
Theorem skipped_dependencies_are_absent
    (templatePkgJson : PackageJson) (diffOptions : DiffOptions)
    (pkgJson : PackageJson) (name : string) :
  (forall names, skipDependencies diffOptions = Some names -> name ∈ names ->
     dependency_of (onResult templatePkgJson diffOptions pkgJson) name = None)
  /\ (forall names, skipDevDependencies diffOptions = Some names -> name ∈ names ->
        devDependency_of (onResult templatePkgJson diffOptions pkgJson) name
        = None).
Proof.
  rewrite onResult_unfold. cbv zeta.
  set (stripped := stripped_manifest templatePkgJson pkgJson).
  split.
  - intros names Hs Hin. rewrite Hs.
    destruct (dependencies stripped) as [deps|] eqn:Hd.
    + set (skipped := set_dependencies _ _).
      assert (dependency_of skipped name = None) as H
        by (unfold dependency_of; simpl; by apply delete_all_lookup_in).
      destruct (skipDevDependencies diffOptions); [|done].
      by destruct (devDependencies skipped).
    + assert (dependency_of stripped name = None) as H
        by (unfold dependency_of; by rewrite Hd).
      destruct (skipDevDependencies diffOptions); [|done].
      by destruct (devDependencies stripped).
  - intros names Hs Hin. rewrite Hs.
    set (skipped := match skipDependencies diffOptions, dependencies stripped with
                    | Some names, Some deps => _
                    | _, _ => stripped
                    end).
    destruct (devDependencies skipped) as [deps|] eqn:Hd.
    + unfold devDependency_of. simpl. by apply delete_all_lookup_in.
    + unfold devDependency_of. by rewrite Hd.
Qed.

(** X8.  [onResult] leaves every other dependency as it was: a
    dependency other than [@shopify/cli-hydrogen] that is not listed under
    [skipDependencies], and a development dependency that is not listed
    under [skipDevDependencies], have in the result the value they had. *)
Theorem other_dependencies_are_kept
    (templatePkgJson : PackageJson) (diffOptions : DiffOptions)
    (pkgJson : PackageJson) (name : string) :
  (name <> cli_hydrogen ->
   (forall names, skipDependencies diffOptions = Some names -> name ∉ names) ->
   dependency_of (onResult templatePkgJson diffOptions pkgJson) name
   = dependency_of pkgJson name)
  /\ ((forall names, skipDevDependencies diffOptions = Some names -> name ∉ names) ->
      devDependency_of (onResult templatePkgJson diffOptions pkgJson) name
      = devDependency_of pkgJson name).
Proof.
  split.
  - intros Hne Hskip. rewrite (dependency_of_onResult _ _ _ _ Hskip).
    destruct (dependencies pkgJson) as [deps|] eqn:Hd; [|reflexivity].
    destruct (dependencies templatePkgJson); [|reflexivity].
    unfold dependency_of. simpl. by rewrite Hd, lookup_insert_ne.
  - intros Hskip. rewrite onResult_unfold. cbv zeta.
    set (stripped := stripped_manifest templatePkgJson pkgJson).
    set (skipped := match skipDependencies diffOptions, dependencies stripped with
                    | Some names, Some deps => _
                    | _, _ => stripped
                    end).
    assert (devDependencies skipped = devDependencies pkgJson) as Hsame.
    { rewrite <- (devDependencies_stripped templatePkgJson pkgJson).
      fold stripped. unfold skipped.
      destruct (skipDependencies diffOptions); [|done].
      by destruct (dependencies stripped). }
    destruct (skipDevDependencies diffOptions) as [names|] eqn:Hs.
    + destruct (devDependencies skipped) as [deps|] eqn:Hd.
      * unfold devDependency_of. simpl. rewrite <- Hsame.
        apply delete_all_lookup. by apply Hskip.
      * unfold devDependency_of. by rewrite Hd, <- Hsame.
    + unfold devDependency_of. by rewrite Hsame.
Qed.

(** X9.  [onResult] touches the scripts [build], [dev] and [preview]
    only, and those only where the flag occurs: a script under another key,
    or one whose line has no [--diff] preceded by white space, is in the
    result as it was. *)
Theorem scripts_without_flag_are_kept
    (templatePkgJson : PackageJson) (diffOptions : DiffOptions)
    (pkgJson : PackageJson) (key : string) :
  key ∉ ["build"; "dev"; "preview"]
  \/ (forall s, script_of pkgJson key = Some (JStr s) ->
                Regex.test diffFlag s = false) ->
  script_of (onResult templatePkgJson diffOptions pkgJson) key
  = script_of pkgJson key.
Proof.
  intros H. destruct (decide (key ∈ ["build"; "dev"; "preview"])) as [Hin | Hout].
  - destruct H as [H | H]; [done |].
    rewrite (onResult_script _ _ _ _ Hin).
    destruct (script_of pkgJson key) as [[| | |s]|] eqn:E; try done.
    specialize (H s eq_refl). unfold Regex.test in H. unfold Regex.replace.
    by destruct (search _ _ _ s).
  - rewrite script_of_onResult, <- (script_of_pinned templatePkgJson pkgJson key).
    simpl fold_left.
    rewrite !script_strip_other; [done | | |];
      intros <-; apply Hout; repeat constructor.
Qed.

(** ** The [i] flag *)

Lemma canonicalize_line_terminator c :
  is_line_terminator (canonicalize c) = is_line_terminator c.
Proof. destruct c as [[] [] [] [] [] [] [] []]; reflexivity. Qed.

Lemma canonicalize_space c : is_space (canonicalize c) = is_space c.
Proof. destruct c as [[] [] [] [] [] [] [] []]; reflexivity. Qed.

Lemma atom_ok_same a c c' :
  canonicalize c = canonicalize c' -> atom_ok true a c = atom_ok true a c'.
Proof.
  intros H. destruct a; simpl.
  - by rewrite H.
  - by rewrite <- (canonicalize_line_terminator c), H, canonicalize_line_terminator.
  - by rewrite <- (canonicalize_space c), H, canonicalize_space.
Qed.

Lemma same_letters_refl a : same_letters a a = true.
Proof. induction a as [|x a IH]; [done |]. simpl. by rewrite Ascii.eqb_refl. Qed.

Lemma same_letters_app a a' b b' :
  same_letters a a' = true -> same_letters b b' = true ->
  same_letters (a +:+ b) (a' +:+ b') = true.
Proof.
  revert a'. induction a as [|x a IH]; intros [|y a'] Ha Hb; try done.
  rewrite !append_cons. simpl in *.
  apply andb_true_iff in Ha as [-> Ha]. by apply IH.
Qed.

Lemma is_Some_orelse {A} (x y : option A) :
  is_Some (match x with Some r => Some r | None => y end)
  <-> is_Some x \/ is_Some y.
Proof.
  destruct x; split; eauto.
  - intros [[? ?] | ?]; done.
Qed.

Lemma plus_match_same a s : forall s' k k',
  same_letters s s' = true -> cont_same k k' ->
  is_Some (plus_match true a s k) <-> is_Some (plus_match true a s' k').
Proof.
  induction s as [|c s IH]; intros [|c' s'] k k' Hs Hk; try done.
  simpl in Hs. apply andb_true_iff in Hs as [Hc Hs].
  apply Ascii.eqb_eq in Hc. cbn [plus_match].
  rewrite (atom_ok_same a c c' Hc). destruct (atom_ok true a c'); [|done].
  rewrite !is_Some_orelse, (IH s' k k' Hs Hk), (Hk false s s' Hs). done.
Qed.

Lemma rmatch_same r : forall b s s' k k',
  same_letters s s' = true -> cont_same k k' ->
  is_Some (rmatch true r b s k) <-> is_Some (rmatch true r b s' k').
Proof.
  induction r as [| a | | | r1 IH1 r2 IH2 | r1 IH1 r2 IH2 | a];
    intros b s s' k k' Hs Hk; cbn [rmatch].
  - by apply Hk.
  - destruct s as [|c s], s' as [|c' s']; try done.
    simpl in Hs. apply andb_true_iff in Hs as [Hc Hs].
    apply Ascii.eqb_eq in Hc. rewrite (atom_ok_same a c c' Hc).
    destruct (atom_ok true a c'); [by apply Hk | done].
  - destruct b; [by apply Hk | done].
  - destruct s, s'; try done. by apply Hk.
  - apply IH1; [done |]. intros b' t t' Ht. by apply IH2.
  - rewrite !is_Some_orelse, (IH1 b s s' k k' Hs Hk), (IH2 b s s' k k' Hs Hk).
    done.
  - by apply plus_match_same.
Qed.

Lemma search_same r s : forall b s',
  same_letters s s' = true ->
  is_Some (search true r b s) <-> is_Some (search true r b s').
Proof.
  assert (forall b t t', same_letters t t' = true ->
            is_Some (match_here true r b t) <-> is_Some (match_here true r b t'))
    as Hhere.
  { intros b t t' Ht. apply rmatch_same; [done |]. intros ? ? ? ?. split; eauto. }
  assert (forall (c : ascii) (x : option (string * string)),
            is_Some (match x with
                     | Some (pre, rest) => Some (String c pre, rest)
                     | None => None
                     end) <-> is_Some x) as Hmap.
  { intros c [[? ?]|]; split; intros [? ?]; eauto; done. }
  assert (forall (x : option string) (y : option (string * string)),
            is_Some (match x with
                     | Some rest => Some ("", rest)
                     | None => y
                     end) <-> is_Some x \/ is_Some y) as Hor.
  { intros [?|] y; split; eauto. intros [[? ?] | ?]; done. }
  induction s as [|c s IH]; intros b [|c' s'] Hs; try done.
  simpl in Hs. apply andb_true_iff in Hs as [Hc Hs].
  rewrite !search_cons, !Hor, !Hmap, (IH false s' Hs).
  rewrite (Hhere b (String c s) (String c' s')); [done |].
  simpl. by rewrite Hc, Hs.
Qed.

Lemma test_same re s s' :
  ignoreCase re = true -> same_letters s s' = true ->
  Regex.test re s = Regex.test re s'.
Proof.
  intros Hi Hs. unfold Regex.test. rewrite Hi.
  pose proof (search_same (pattern re) s true s' Hs) as H.
  destruct (search true (pattern re) true s), (search true (pattern re) true s');
    try done.
  - destruct H as [H _]. by destruct H.
  - destruct H as [_ H]. by destruct H.
Qed.

(** ** Excluded names, at any depth and in any case *)

Lemma join_app sep l l' :
  l <> [] -> l' <> [] ->
  Str.join sep (l ++ l') = Str.join sep l +:+ sep +:+ Str.join sep l'.
Proof.
  intros Hl Hl'. induction l as [|x l IH]; [done |].
  destruct l as [|y l].
  - destruct l' as [|z l']; [done | reflexivity].
  - change (Str.join sep ((x :: y :: l) ++ l'))
      with (x +:+ sep +:+ Str.join sep ((y :: l) ++ l')).
    rewrite IH; [|done].
    change (Str.join sep (x :: y :: l)) with (x +:+ sep +:+ Str.join sep (y :: l)).
    by rewrite !append_assoc.
Qed.

(** The text around one segment of a joined path. *)
Lemma join_middle l seg b :
  exists pre post,
    Str.join "/" (l ++ [seg] ++ b) = pre +:+ seg +:+ post
    /\ (pre = "" \/ exists pre0, pre = pre0 +:+ "/")
    /\ (post = "" \/ exists post0, post = "/" +:+ post0).
Proof.
  destruct l as [|x l], b as [|y b].
  - exists "", "". split; [simpl; by rewrite append_empty_r |].
    split; by left.
  - exists "", ("/" +:+ Str.join "/" (y :: b)). split; [reflexivity |].
    split; [by left | right; by eexists].
  - exists (Str.join "/" (x :: l) +:+ "/"), "". split.
    + rewrite append_empty_r, join_app, append_assoc by done. reflexivity.
    + split; [right; by eexists | by left].
  - exists (Str.join "/" (x :: l) +:+ "/"), ("/" +:+ Str.join "/" (y :: b)).
    split.
    + rewrite (join_app _ (x :: l)) by done.
      rewrite (join_app _ [seg]) by done. by rewrite !append_assoc.
    + split; right; by eexists.
Qed.

(** The name of [p] relative to [templateDir] spells every segment of [p]
    that is not shared with [templateDir]. *)
Lemma relativePath_through templateDir p a seg b :
  resolve p = a ++ [seg] ++ b ->
  ~ (a ++ [seg]) `prefix_of` resolve templateDir ->
  exists pre post,
    relativePath templateDir p = pre +:+ seg +:+ post
    /\ (pre = "" \/ exists pre0, pre = pre0 +:+ "/")
    /\ (post = "" \/ exists post0, post = "/" +:+ post0).
Proof.
  intros Hp Hn. unfold relativePath. rewrite Hp.
  destruct (drop_common _ _) as [f' t'] eqn:E.
  apply drop_common_spec in E as (c & Hf & Ht).
  assert (exists a', t' = a' ++ [seg] ++ b) as [a' ->].
  { apply app_eq_app in Ht as (l & [[-> Hl] | [Hc Hl]]).
    - exists l. done.
    - destruct l as [|z l].
      + exists []. by rewrite app_nil_l in Hl.
      + exfalso. apply Hn. injection Hl as <- _. rewrite Hf, Hc.
        exists (l ++ f'). by rewrite <- !app_assoc. }
  rewrite app_assoc. apply join_middle.
Qed.

Lemma template_excluded_matches name b post :
  name ∈ template_excluded ->
  (post = "" \/ exists post0, post = "/" +:+ post0) ->
  is_Some (search true (pattern templateExclude) b ("/" +:+ name +:+ post))
  /\ is_Some (search true (pattern templateExclude) true (name +:+ post)).
Proof.
  intros Hn Hpost. unfold template_excluded in Hn.
  repeat (apply elem_of_cons in Hn as [-> | Hn]);
    try (by apply elem_of_nil in Hn);
    destruct Hpost as [-> | [post0 ->]], b; vm_compute; eauto.
Qed.

Lemma diff_excluded_matches name b post :
  name ∈ diff_excluded ->
  (post = "" \/ exists post0, post = "/" +:+ post0) ->
  is_Some (search true (pattern diffExclude) b ("/" +:+ name +:+ post))
  /\ is_Some (search true (pattern diffExclude) true (name +:+ post)).
Proof.
  intros Hn Hpost. unfold diff_excluded in Hn.
  repeat (apply elem_of_cons in Hn as [-> | Hn]);
    try (by apply elem_of_nil in Hn);
    destruct Hpost as [-> | [post0 ->]], b; vm_compute; eauto.
Qed.

(** A path whose name relative to the template passes through a segment
    that an exclusion pattern spells, in any case, is refused. *)
Lemma excluded_through re (names : list string) templateDir skip p a seg b name :
  ignoreCase re = true ->
  (forall name b post, name ∈ names ->
     (post = "" \/ exists post0, post = "/" +:+ post0) ->
     is_Some (search true (pattern re) b ("/" +:+ name +:+ post))
     /\ is_Some (search true (pattern re) true (name +:+ post))) ->
  name ∈ names ->
  same_letters seg name = true ->
  resolve p = a ++ [seg] ++ b ->
  ~ (a ++ [seg]) `prefix_of` resolve templateDir ->
  createFilter templateDir re skip p = false.
Proof.
  intros Hi Hre Hname Hs Hp Hn. unfold createFilter.
  destruct (relativePath_through _ _ _ _ _ Hp Hn) as (pre & post & -> & Hpre & Hpost).
  unfold Regex.test. rewrite Hi.
  assert (is_Some (search true (pattern re) true (pre +:+ seg +:+ post))) as [x ->];
    [|done].
  apply search_last_segment; [| |done].
  - apply (search_same _ _ _ (name +:+ post)).
    + apply same_letters_app; [done | apply same_letters_refl].
    + by destruct (Hre name true post Hname Hpost) as [_ H].
  - intros b'. apply (search_same _ _ _ ("/" +:+ name +:+ post)).
    + apply (same_letters_app "/" "/"); [done |].
      apply same_letters_app; [done | apply same_letters_refl].
    + by destruct (Hre name b' post Hname Hpost) as [H _].
Qed.

Lemma resolve_below base q seg :
  forallb plain (q ++ [seg]) = true ->
  resolve (render base (q ++ [seg])) = (resolve base ++ q) ++ [seg] ++ [].
Proof. intros H. rewrite resolve_render by done. by rewrite !app_assoc, app_nil_r. Qed.

Lemma not_below_itself (d q : list string) (seg : string) :
  ~ (d ++ q ++ [seg]) `prefix_of` d.
Proof.
  intros [l Hl]. rewrite <- !app_assoc in Hl.
  rewrite <- (app_nil_r d) in Hl at 1.
  apply app_inv_head in Hl. by destruct q.
Qed.

(** An entry whose name a pattern spells, in any case, is refused together
    with everything below it. *)
Lemma names_refused re (names : list string) templateDir skip base
    (q below : list string) (seg name : string) :
  ignoreCase re = true ->
  (forall name b post, name ∈ names ->
     (post = "" \/ exists post0, post = "/" +:+ post0) ->
     is_Some (search true (pattern re) b ("/" +:+ name +:+ post))
     /\ is_Some (search true (pattern re) true (name +:+ post))) ->
  name ∈ names ->
  same_letters seg name = true ->
  forallb plain (q ++ [seg]) = true ->
  ~ (resolve base ++ q ++ [seg]) `prefix_of` resolve templateDir ->
  included (createFilter templateDir re skip) base (q ++ [seg] ++ below) = false.
Proof.
  intros Hi Hre Hn Hs Hp Hout. rewrite app_assoc. apply included_refused.
  apply (excluded_through re names _ _ _ (resolve base ++ q) seg [] name);
    try done.
  - by apply resolve_below.
  - by rewrite <- app_assoc.
Qed.

(** X10.  The exclusion patterns are matched without regard to case
    and at any depth.  An entry whose name is, up to the case of its
    letters, one of the names that a pattern spells is refused by the
    filter of that pass wherever it sits below the directory, and so is
    everything below it.  For the diff pass the name is taken relative to
    the template directory, so the entry must not lie on the path to the
    template. *)
Theorem excluded_names_are_refused_in_any_case
    (templateDir diffDirectory : string) (diffOptions : DiffOptions)
    (q below : list string) (seg name : string) :
  same_letters seg name = true ->
  forallb plain (q ++ [seg]) = true ->
  (name ∈ template_excluded ->
   included (templateFilter templateDir diffOptions) templateDir
     (q ++ [seg] ++ below) = false)
  /\ (name ∈ diff_excluded ->
      ~ (resolve diffDirectory ++ q ++ [seg]) `prefix_of` resolve templateDir ->
      included (diffFilter templateDir) diffDirectory (q ++ [seg] ++ below) = false).
Proof.
  intros Hs Hp. split.
  - intros Hn.
    apply (names_refused templateExclude template_excluded _ _ _ _ _ seg name);
      try done.
    + intros. by apply template_excluded_matches.
    + apply not_below_itself.
  - intros Hn Hout.
    apply (names_refused diffExclude diff_excluded _ _ _ _ _ seg name);
      try done.
    intros. by apply diff_excluded_matches.
Qed.

Lemma skipped_refused
    (templateDir : string) (diffOptions : DiffOptions) (l : list string)
    (p below : list string) :
  skipFiles diffOptions = Some l ->
  Str.join "/" p ∈ l ->
  forallb plain p = true ->
  included (templateFilter templateDir diffOptions) templateDir (p ++ below) = false.
Proof.
  intros Hl Hin Hp. apply included_refused.
  unfold templateFilter, createFilter. rewrite Hl.
  rewrite (relativePath_render _ _ Hp), (bool_decide_eq_true_2 _ Hin).
  apply andb_false_r.
Qed.

(** X11.  The filter of the diff pass reads the path of an entry
    relative to the template directory.  When the diff directory itself
    lies at or below a directory with an excluded name, such as [dist], that
    is not on the path to the template, the diff directory is refused as a
    whole: the diff pass takes no entry from it. *)
Theorem diff_directory_below_excluded_name_is_not_copied
    (templateDir diffDirectory : string) (a b : list string) (seg name : string) :
  name ∈ diff_excluded ->
  same_letters seg name = true ->
  resolve diffDirectory = a ++ [seg] ++ b ->
  ~ (a ++ [seg]) `prefix_of` resolve templateDir ->
  forall r, included (diffFilter templateDir) diffDirectory r = false.
Proof.
  intros Hn Hs Hd Hout r.
  apply (included_refused _ r [] diffDirectory). simpl.
  apply (excluded_through _ diff_excluded _ _ _ a seg b name); try done.
  intros; by apply diff_excluded_matches.
Qed.

(** ** The merge as an overlay *)

Lemma never_copied_spec name :
  name ∈ never_copied -> name ∈ template_excluded /\ name ∈ diff_excluded.
Proof.
  unfold never_copied, template_excluded, diff_excluded.
  rewrite !elem_of_cons, !elem_of_nil. tauto.
Qed.

Lemma left_to_the_template_spec name :
  name ∈ left_to_the_template -> name ∈ diff_excluded.
Proof.
  unfold left_to_the_template, diff_excluded.
  rewrite !elem_of_cons, !elem_of_nil. tauto.
Qed.

Lemma copy_lookup_pass f src dest w w' r :
  copy f src dest w = (Fulfilled tt, w') ->
  fs w' !! (resolve dest ++ r)
  = match taken f src (fs w) r with
    | Some n => Some n
    | None => fs w !! (resolve dest ++ r)
    end.
Proof.
  intros Hc. unfold taken.
  destruct (included f src r) eqn:Hi.
  - destruct (fs w !! (resolve src ++ r)) as [n|] eqn:Hs.
    + by apply (copy_lookup_new _ _ _ _ _ _ _ Hc).
    + apply (copy_lookup_unreached _ _ _ _ _ _ Hc). by left.
  - apply (copy_lookup_unreached _ _ _ _ _ _ Hc). by right.
Qed.

Section MergeFacts.

Context (JSON_parse : string -> option PackageJson)
        (JSON_stringify : PackageJson -> string)
        (getStarterDir : bool -> string)
        (merge_documents : list string -> PackageJson -> PackageJson -> PackageJson).

Lemma applyTemplateDiff_lookup targetDirectory diffDirectory templateDir w w'
    diffPkgJson r :
  applyTemplateDiff JSON_parse JSON_stringify getStarterDir merge_documents
    targetDirectory diffDirectory (Some templateDir) w = (Fulfilled tt, w') ->
  ~ resolve targetDirectory `prefix_of` resolve diffDirectory ->
  readAndParsePackageJson JSON_parse (joinPath diffDirectory "package.json") w
  = (Fulfilled diffPkgJson, w) ->
  r <> ["package.json"] ->
  fs w' !! (resolve targetDirectory ++ r)
  = overlay (taken (diffFilter templateDir) diffDirectory (fs w) r)
      (taken (templateFilter templateDir (options_of diffPkgJson))
         templateDir (fs w) r)
      (fs w !! (resolve targetDirectory ++ r)).
Proof.
  intros Hrun Hsep Hread Hr.
  apply applyTemplateDiff_fulfilled in Hrun
    as (dpkg & tpkg & w1 & w2 & Hr1 & _ & Hc1 & Hc2 & Hm).
  rewrite Hread in Hr1. injection Hr1 as <-.
  apply mergePackageJson_fulfilled in Hm as (t & s & _ & _ & ->).
  rewrite lookup_insert_ne by (intros Heq; by apply app_inv_head in Heq).
  rewrite (copy_lookup_pass _ _ _ _ _ r Hc2), (copy_lookup_pass _ _ _ _ _ r Hc1).
  destruct (copy_fulfilled _ _ _ _ _ Hc2) as (_ & Hnot & _).
  assert (fs w1 !! (resolve diffDirectory ++ r) = fs w !! (resolve diffDirectory ++ r))
    as Hsame.
  { apply (copy_lookup_aside _ _ _ _ _ _ _ Hc1).
    - intros [l Hl]. symmetry in Hl.
      destruct (prefix_app_same _ _ _ _ Hl); done.
    - intros [l Hl]. apply Hnot. exists (r ++ l). by rewrite app_assoc. }
  unfold taken at 1 2. rewrite Hsame. unfold overlay, taken, options_of.
  by destruct (included (diffFilter templateDir) diffDirectory r),
    (fs w !! (resolve diffDirectory ++ r)).
Qed.

(** X12.  A completed [applyTemplateDiff] has read the manifest of the
    diff, and the target is the overlay of three layers.  At every relative
    path other than the manifest of the target, the target holds the entry
    of the diff if the diff pass takes one there, else the entry of the
    template if the template pass takes one there, else what the target
    held before.  The diff directory does not lie inside the target. *)
Theorem merge_is_an_overlay
    (targetDirectory diffDirectory templateDir : string) (w w' : World) :
  applyTemplateDiff JSON_parse JSON_stringify getStarterDir merge_documents
    targetDirectory diffDirectory (Some templateDir) w = (Fulfilled tt, w') ->
  ~ resolve targetDirectory `prefix_of` resolve diffDirectory ->
  exists diffPkgJson,
    readAndParsePackageJson JSON_parse (joinPath diffDirectory "package.json") w
    = (Fulfilled diffPkgJson, w)
    /\ forall r, r <> ["package.json"] ->
         fs w' !! (resolve targetDirectory ++ r)
         = overlay (taken (diffFilter templateDir) diffDirectory (fs w) r)
             (taken (templateFilter templateDir (options_of diffPkgJson))
                templateDir (fs w) r)
             (fs w !! (resolve targetDirectory ++ r)).
Proof.
  intros Hrun Hsep.
  destruct (applyTemplateDiff_fulfilled _ _ _ _ _ _ _ _ _ Hrun)
    as (dpkg & _ & _ & _ & Hr1 & _).
  exists dpkg. split; [done |]. intros r Hr.
  by apply applyTemplateDiff_lookup.
Qed.

Lemma not_the_manifest q seg below name :
  same_letters seg name = true ->
  same_letters "package.json" name = false ->
  q ++ [seg] ++ below <> ["package.json"].
Proof.
  intros Hs Hn Heq.
  destruct q as [|x [|y q]]; [|by destruct below | done].
  injection Heq as -> _. congruence.
Qed.

(** X13.  [dist], [node_modules], [.cache] and [.turbo], in any case
    and at any depth, are copied by neither pass: after a completed
    [applyTemplateDiff] the target holds at such a path, and below it, what
    it held before. *)
Theorem build_and_cache_directories_are_never_copied
    (targetDirectory diffDirectory templateDir : string) (w w' : World)
    (q below : list string) (seg name : string) :
  applyTemplateDiff JSON_parse JSON_stringify getStarterDir merge_documents
    targetDirectory diffDirectory (Some templateDir) w = (Fulfilled tt, w') ->
  ~ resolve targetDirectory `prefix_of` resolve diffDirectory ->
  name ∈ never_copied ->
  same_letters seg name = true ->
  forallb plain (q ++ [seg]) = true ->
  ~ (resolve diffDirectory ++ q ++ [seg]) `prefix_of` resolve templateDir ->
  fs w' !! (resolve targetDirectory ++ q ++ [seg] ++ below)
  = fs w !! (resolve targetDirectory ++ q ++ [seg] ++ below).
Proof.
  intros Hrun Hsep Hn Hs Hp Hout.
  destruct (applyTemplateDiff_fulfilled _ _ _ _ _ _ _ _ _ Hrun)
    as (dpkg & _ & _ & _ & Hr1 & _).
  rewrite (applyTemplateDiff_lookup _ _ _ _ _ dpkg _ Hrun Hsep Hr1).
  - apply never_copied_spec in Hn as [Hnt Hnd].
    unfold taken, templateFilter, diffFilter.
    rewrite (names_refused templateExclude template_excluded _ _ _ _ _ seg name),
      (names_refused diffExclude diff_excluded _ _ _ _ _ seg name);
      try done.
    + intros. by apply diff_excluded_matches.
    + intros. by apply template_excluded_matches.
    + apply not_below_itself.
  - apply (not_the_manifest _ _ _ name Hs).
    unfold never_copied in Hn. rewrite !elem_of_cons, elem_of_nil in Hn.
    destruct Hn as [-> | [-> | [-> | [-> | []]]]]; reflexivity.
Qed.

(** X15.  A [package.json] or [tsconfig.json] of the diff, in any
    case and at any depth, is not copied: after a completed
    [applyTemplateDiff] the target holds at such a path the entry of the
    template if the template pass takes one, else what it held before.
    (The manifest at the root of the target is the one path that is
    written afterwards, by the merge of the manifests.) *)
Theorem manifests_and_tsconfig_of_the_diff_are_not_copied
    (targetDirectory diffDirectory templateDir : string) (w w' : World)
    (diffPkgJson : PackageJson) (q below : list string) (seg name : string) :
  applyTemplateDiff JSON_parse JSON_stringify getStarterDir merge_documents
    targetDirectory diffDirectory (Some templateDir) w = (Fulfilled tt, w') ->
  ~ resolve targetDirectory `prefix_of` resolve diffDirectory ->
  readAndParsePackageJson JSON_parse (joinPath diffDirectory "package.json") w
  = (Fulfilled diffPkgJson, w) ->
  name ∈ left_to_the_template ->
  same_letters seg name = true ->
  forallb plain (q ++ [seg]) = true ->
  ~ (resolve diffDirectory ++ q ++ [seg]) `prefix_of` resolve templateDir ->
  q ++ [seg] ++ below <> ["package.json"] ->
  fs w' !! (resolve targetDirectory ++ q ++ [seg] ++ below)
  = match taken (templateFilter templateDir (options_of diffPkgJson))
            templateDir (fs w) (q ++ [seg] ++ below) with
    | Some n => Some n
    | None => fs w !! (resolve targetDirectory ++ q ++ [seg] ++ below)
    end.
Proof.
  intros Hrun Hsep Hread Hn Hs Hp Hout Hr.
  rewrite (applyTemplateDiff_lookup _ _ _ _ _ diffPkgJson _ Hrun Hsep Hread Hr).
  apply left_to_the_template_spec in Hn.
  unfold taken at 1. unfold diffFilter.
  rewrite (names_refused diffExclude diff_excluded _ _ _ _ _ seg name);
    try done.
  intros. by apply diff_excluded_matches.
Qed.

(** X14.  A path that the manifest of the diff lists under
    [skipFiles], written relative to the template with [/] between the
    segments, is not taken from the template, nor is anything below it:
    after a completed [applyTemplateDiff] the target holds there the entry
    of the diff if the diff pass takes one, else what it held before. *)
Theorem skipFiles_are_not_taken_from_the_template
    (targetDirectory diffDirectory templateDir : string) (w w' : World)
    (diffPkgJson : PackageJson) (diffOptions : DiffOptions) (l : list string)
    (p below : list string) :
  applyTemplateDiff JSON_parse JSON_stringify getStarterDir merge_documents
    targetDirectory diffDirectory (Some templateDir) w = (Fulfilled tt, w') ->
  ~ resolve targetDirectory `prefix_of` resolve diffDirectory ->
  readAndParsePackageJson JSON_parse (joinPath diffDirectory "package.json") w
  = (Fulfilled diffPkgJson, w) ->
  h2_diff diffPkgJson = Some diffOptions ->
  skipFiles diffOptions = Some l ->
  Str.join "/" p ∈ l ->
  forallb plain p = true ->
  p ++ below <> ["package.json"] ->
  fs w' !! (resolve targetDirectory ++ p ++ below)
  = match taken (diffFilter templateDir) diffDirectory (fs w) (p ++ below) with
    | Some n => Some n
    | None => fs w !! (resolve targetDirectory ++ p ++ below)
    end.
Proof.
  intros Hrun Hsep Hread Ho Hl Hin Hp Hr.
  rewrite (applyTemplateDiff_lookup _ _ _ _ _ diffPkgJson _ Hrun Hsep Hread Hr).
  unfold taken at 2. unfold options_of. rewrite Ho.
  by rewrite (skipped_refused templateDir diffOptions l p below Hl Hin Hp).
Qed.

End MergeFacts.

(** ** What a run leaves alone *)

#[export] Instance extends_preorder : PreOrder extends.
Proof.
  split.
  - intros w. by repeat split.
  - intros w1 w2 w3 (H1 & H2 & H3 & H4 & H5 & H6 & H7)
      (K1 & K2 & K3 & K4 & K5 & K6 & K7).
    repeat split; try congruence. intros k Hk. by apply K7, H7.
Qed.

#[export] Instance same_outside_preorder dir : PreOrder (same_outside dir).
Proof.
  split.
  - by intros w k _ _.
  - intros w1 w2 w3 H K k H1 H2. by rewrite K, H.
Qed.

Section Preserving.

Context (R : relation World) `{!PreOrder R}.

Lemma preserving_bind {A B} (m : Promise A) (k : A -> Promise B) :
  preserving R m -> (forall a, preserving R (k a)) -> preserving R (m ≫= k).
Proof.
  intros Hm Hk w. unfold mbind, promise_bind, await.
  pose proof (Hm w) as H. destruct (m w) as [[a|e] w1]; simpl in *; [|done].
  transitivity w1; [exact H | apply Hk].
Qed.

Lemma preserving_ret {A} (a : A) : preserving R (mret a : Promise A).
Proof. by intros w. Qed.

Lemma preserving_all {A} (ps : list (Promise A)) :
  Forall (preserving R) ps -> preserving R (Promise_all ps).
Proof.
  induction 1 as [|p ps Hp _ IH]; intros w; [done |].
  rewrite Promise_all_cons.
  pose proof (Hp w) as H1. pose proof (IH (p w).2) as H2.
  destruct (Promise_all ps (p w).2) as [rs w2]. simpl in H2.
  assert (R w w2) by by transitivity (p w).2.
  by destruct (p w).1, rs.
Qed.

End Preserving.

Lemma extends_log_op o w : extends w (log_op o w).
Proof. by repeat split. Qed.

Lemma extends_new_entry w p n o :
  extends w (set_fs (<[p := n]> (mkdirs p (fs w))) (log_op o w)).
Proof.
  repeat split; try done. simpl. intros k [n' Hk].
  destruct (decide (k = p)) as [-> | Hne].
  - rewrite lookup_insert_eq. eauto.
  - rewrite lookup_insert_ne by done. exists n'. by apply mkdirs_lookup_Some.
Qed.

Lemma same_outside_new_entry dir w p n o :
  dir `prefix_of` p ->
  same_outside dir w (set_fs (<[p := n]> (mkdirs p (fs w))) (log_op o w)).
Proof.
  intros Hp k H1 H2. simpl.
  rewrite lookup_insert_ne by (by intros <-).
  apply mkdirs_lookup_off. intros Hk.
  apply ancestors_proper in Hk as (r & Hr & ->).
  destruct Hp as [l Hl].
  destruct (prefix_app_same k r dir l Hl) as [H | H]; done.
Qed.

Lemma extends_copy f src dest : preserving extends (copy f src dest).
Proof.
  intros w. unfold copy. simpl.
  repeat (match goal with
          | |- context [match ?x with _ => _ end] => destruct x
          end; simpl; try apply extends_log_op).
  repeat split; try done. simpl. intros k [x Hk].
  destruct (copied f src (resolve dest) (fs w) !! k) as [y|] eqn:E.
  - exists y. by apply lookup_union_Some_l.
  - exists x. rewrite lookup_union_r by done. by apply mkdirs_lookup_Some.
Qed.

Lemma same_outside_copy f src dest :
  preserving (same_outside (resolve dest)) (copy f src dest).
Proof.
  intros w k H1 H2.
  destruct (copy f src dest w) as [res w'] eqn:E.
  by apply (copy_lookup_aside _ _ _ _ _ _ _ E).
Qed.

Lemma extends_writeFile p data : preserving extends (writeFile p data).
Proof.
  intros w. unfold writeFile. simpl.
  assert (extends w (set_fs (<[resolve p := File data]> (fs w)) (log_op (OpWrite p) w))).
  { repeat split; try done. simpl. intros k Hk.
    destruct (decide (k = resolve p)) as [-> | Hne].
    - rewrite lookup_insert_eq. eauto.
    - by rewrite lookup_insert_ne. }
  case_bool_decide; [apply extends_log_op |].
  destruct (fs w !! resolve p) as [[]|]; simpl;
    first [assumption | apply extends_log_op].
Qed.

Lemma same_outside_writeFile dir p data :
  dir `prefix_of` resolve p ->
  preserving (same_outside dir) (writeFile p data).
Proof.
  intros Hp w k H1 H2. unfold writeFile. simpl.
  case_bool_decide; [done |].
  destruct (fs w !! resolve p) as [[]|]; simpl; try done;
    by rewrite lookup_insert_ne by (by intros <-).
Qed.

Lemma extends_createSymlink src dest : preserving extends (createSymlink src dest).
Proof.
  intros w. unfold createSymlink. simpl.
  destruct (fs w !! resolve src); [|apply extends_log_op].
  destruct (fs w !! resolve dest) as [[]|]; try apply extends_log_op.
  - destruct (String.eqb _ _); apply extends_log_op.
  - destruct (blocked _ _); [apply extends_log_op |].
    exact (extends_new_entry w (resolve dest) (Symlink src) (OpSymlink src dest)).
Qed.

Lemma same_outside_createSymlink dir src dest :
  dir `prefix_of` resolve dest ->
  preserving (same_outside dir) (createSymlink src dest).
Proof.
  intros Hp w. unfold createSymlink. simpl.
  destruct (fs w !! resolve src); [|done].
  destruct (fs w !! resolve dest) as [[]|]; try done.
  - by destruct (String.eqb _ _).
  - destruct (blocked _ _); [done |].
    exact (same_outside_new_entry dir w (resolve dest) (Symlink src)
             (OpSymlink src dest) Hp).
Qed.

Lemma same_outside_subscribe dir d : preserving (same_outside dir) (subscribe d).
Proof. intros w k _ _. unfold subscribe. simpl. by case_bool_decide. Qed.

Section PrepareFacts.

Context (JSON_parse : string -> option PackageJson)
        (JSON_stringify : PackageJson -> string)
        (getStarterDir : bool -> string)
        (isHydrogenMonorepo : bool)
        (getRepoNodeModules : string)
        (temporaryName : string)
        (merge_documents : list string -> PackageJson -> PackageJson -> PackageJson).

Lemma preserving_read R `{!PreOrder R} p :
  preserving R (readAndParsePackageJson JSON_parse p).
Proof. intros w. by rewrite read_world. Qed.

(** What holds of the copies into the target and of the write of its
    manifest holds of [applyTemplateDiff]. *)
Lemma preserving_applyTemplateDiff R `{!PreOrder R}
    targetDirectory diffDirectory templateDir :
  (forall f src, preserving R (copy f src targetDirectory)) ->
  (forall data, preserving R (writeFile (joinPath targetDirectory "package.json") data)) ->
  preserving R (applyTemplateDiff JSON_parse JSON_stringify getStarterDir
                  merge_documents targetDirectory diffDirectory templateDir).
Proof.
  intros Hcopy Hwrite. unfold applyTemplateDiff.
  apply preserving_bind; [done | |].
  { apply preserving_all; [done |]. repeat constructor; by apply preserving_read. }
  intros [|d [|t [|? ?]]]; try by apply preserving_ret.
  apply preserving_bind; [done | apply Hcopy | intros _].
  apply preserving_bind; [done | apply Hcopy | intros _].
  unfold mergePackageJson.
  apply preserving_bind; [done | by apply preserving_read | intros ?].
  apply preserving_bind; [done | by apply preserving_read | intros ?].
  apply Hwrite.
Qed.

Lemma extends_applyTemplateDiff targetDirectory diffDirectory templateDir :
  preserving extends
    (applyTemplateDiff JSON_parse JSON_stringify getStarterDir
       merge_documents targetDirectory diffDirectory templateDir).
Proof.
  apply preserving_applyTemplateDiff; [apply _ | |].
  - intros. apply extends_copy.
  - intros. apply extends_writeFile.
Qed.

Lemma same_outside_applyTemplateDiff targetDirectory diffDirectory templateDir :
  preserving (same_outside (resolve targetDirectory))
    (applyTemplateDiff JSON_parse JSON_stringify getStarterDir
       merge_documents targetDirectory diffDirectory templateDir).
Proof.
  apply preserving_applyTemplateDiff; [apply _ | |].
  - intros. apply same_outside_copy.
  - intros. apply same_outside_writeFile.
    rewrite resolve_manifest. by eexists.
Qed.

End PrepareFacts.

(** ** The session from its preparation to its cleanup *)

Lemma createSymlink_fulfilled src dest w w' :
  createSymlink src dest w = (Fulfilled tt, w') ->
  fs w' !! resolve dest = Some (Symlink src).
Proof.
  unfold createSymlink. simpl.
  destruct (fs w !! resolve src); [|done].
  destruct (fs w !! resolve dest) as [[| |to]|] eqn:E; try done.
  - destruct (String.eqb to src) eqn:Eq; [|done].
    apply String.eqb_eq in Eq as ->. by intros [= <-].
  - destruct (blocked _ _); [done |]. intros [= <-]. simpl.
    apply lookup_insert_eq.
Qed.

Section SessionFacts.

Context (JSON_parse : string -> option PackageJson)
        (JSON_stringify : PackageJson -> string)
        (getStarterDir : bool -> string)
        (isHydrogenMonorepo : bool)
        (getRepoNodeModules : string)
        (temporaryName : string)
        (merge_documents : list string -> PackageJson -> PackageJson -> PackageJson).

(** X16.  Whatever its outcome, [applyTemplateDiff] writes at and
    below the target directory only, apart from creating the directories
    above it: every other path, the diff directory and the template among
    them, holds what it held before.  No entry anywhere disappears, and
    neither the watches nor the console are touched. *)
Theorem applyTemplateDiff_writes_below_the_target_only
    (targetDirectory diffDirectory : string) (templateDir : option string)
    (w : World) (res : Result unit) (w' : World) :
  applyTemplateDiff JSON_parse JSON_stringify getStarterDir merge_documents
    targetDirectory diffDirectory templateDir w = (res, w') ->
  (forall k, ~ resolve targetDirectory `prefix_of` k ->
             ~ k `prefix_of` resolve targetDirectory ->
             fs w' !! k = fs w !! k)
  /\ (forall k, is_Some (fs w !! k) -> is_Some (fs w' !! k))
  /\ watching w' = watching w /\ console w' = console w.
Proof.
  intros Hrun.
  pose proof (same_outside_applyTemplateDiff JSON_parse JSON_stringify
                getStarterDir merge_documents targetDirectory diffDirectory
                templateDir w) as Ho.
  pose proof (extends_applyTemplateDiff JSON_parse JSON_stringify
                getStarterDir merge_documents targetDirectory diffDirectory
                templateDir w) as (Hw & _ & _ & Hc & _ & _ & Hk).
  rewrite Hrun in *. simpl in *. done.
Qed.

(** The last steps, whatever their outcome: every subscription is
    attempted, and those that the backend accepts are left running. *)
Lemma start_watching_run X D T watch w :
  exists res w',
    start_watching X D T watch w = (res, w')
    /\ fs w' = fs w /\ stuck w' = stuck w /\ readonly w' = readonly w
    /\ if watch && watcher_loads w
       then (forall d, d ∈ watching w' <->
               (d ∈ [X; D; T] /\ d ∉ unwatchable w) \/ d ∈ watching w)
            /\ console w' = console w
            /\ (if watchable w [X; D; T]
                then res = Fulfilled
                             {| sessionTarget := X; sessionTemplate := T;
                                subscriptions :=
                                  [Some {| watched := X |};
                                   Some {| watched := D |};
                                   Some {| watched := T |}] |}
                else exists e, res = Rejected e)
       else res = Fulfilled {| sessionTarget := X; sessionTemplate := T;
                               subscriptions := [None; None; None] |}
            /\ watching w' = watching w
            /\ console w' = console w ++ (if watch then [ImportError] else []).
Proof.
  unfold start_watching, import_watcher, subscribe_with, subscribe, watchable.
  run_promise.
  destruct watch; [destruct (watcher_loads w) eqn:E |]; simpl.
  - rewrite ?E.
    destruct (bool_decide (X ∈ unwatchable w)) eqn:EX; simpl;
      destruct (bool_decide (D ∈ unwatchable w)) eqn:ED; simpl;
      destruct (bool_decide (T ∈ unwatchable w)) eqn:ET; simpl;
      do 2 eexists; (split; [reflexivity |]); simpl;
      repeat (split; [reflexivity |]);
      (split; [| split; [reflexivity | first [reflexivity | by eexists]]]);
      intros d;
      rewrite ?elem_of_union, ?elem_of_singleton, !elem_of_cons, elem_of_nil;
      first [apply bool_decide_eq_true in EX | apply bool_decide_eq_false in EX];
      first [apply bool_decide_eq_true in ED | apply bool_decide_eq_false in ED];
      first [apply bool_decide_eq_true in ET | apply bool_decide_eq_false in ET];
      intuition (subst; tauto).
  - rewrite ?E. do 2 eexists. split; [reflexivity |]. by simpl.
  - do 2 eexists. split; [reflexivity |]. simpl. by rewrite app_nil_r.
Qed.

(** The last steps when they succeed. *)
Lemma start_watching_fulfilled X D T watch w s w' :
  start_watching X D T watch w = (Fulfilled s, w') ->
  sessionTarget s = X /\ sessionTemplate s = T
  /\ fs w' = fs w /\ stuck w' = stuck w /\ readonly w' = readonly w
  /\ if watch && watcher_loads w
     then subscriptions s
          = [Some {| watched := X |}; Some {| watched := D |};
             Some {| watched := T |}]
          /\ (forall d, d ∈ watching w' <-> d ∈ [X; D; T] \/ d ∈ watching w)
          /\ console w' = console w
     else subscriptions s = [None; None; None]
          /\ watching w' = watching w
          /\ console w' = console w ++ (if watch then [ImportError] else []).
Proof.
  intros Hrun.
  destruct (start_watching_run X D T watch w)
    as (res & w3 & Hs & Hfs & Hstuck & Hread & Hcases).
  rewrite Hs in Hrun. injection Hrun as -> ->.
  destruct (watch && watcher_loads w).
  - destruct Hcases as (Hw & Hc & Hres).
    destruct (watchable w [X; D; T]) eqn:Hok; [|by destruct Hres].
    injection Hres as ->. simpl. repeat (split; [done |]).
    split; [|done].
    intros d. rewrite Hw. split; [tauto |].
    intros [Hd | Hd]; [left | by right]. split; [done |].
    unfold watchable in Hok. simpl in Hok.
    apply andb_true_iff in Hok as [HX Hok].
    apply andb_true_iff in Hok as [HD Hok].
    apply andb_true_iff in Hok as [HT _].
    apply negb_true_iff, bool_decide_eq_false in HX.
    apply negb_true_iff, bool_decide_eq_false in HD.
    apply negb_true_iff, bool_decide_eq_false in HT.
    rewrite !elem_of_cons, elem_of_nil in Hd.
    destruct Hd as [-> | [-> | [-> | []]]]; done.
  - destruct Hcases as (Hres & Hw & Hc). injection Hres as ->. done.
Qed.

(** The steps of [prepareDiffDirectory] and where a failure stops it. *)
Lemma prepare_steps diffDirectory watch w :
  prepareDiffDirectory JSON_parse JSON_stringify getStarterDir
    isHydrogenMonorepo getRepoNodeModules temporaryName
    merge_documents diffDirectory watch w
  = match applyTemplateDiff JSON_parse JSON_stringify getStarterDir
            merge_documents temporaryName diffDirectory
            (Some (getStarterDir isHydrogenMonorepo))
            (temporaryDirectory temporaryName w).2 with
    | (Fulfilled _, w1) =>
        match createSymlink getRepoNodeModules
                (joinPath temporaryName "node_modules") w1 with
        | (Fulfilled _, w2) =>
            start_watching temporaryName diffDirectory
              (getStarterDir isHydrogenMonorepo) watch w2
        | (Rejected e, w2) => (Rejected e, w2)
        end
    | (Rejected e, w1) => (Rejected e, w1)
    end.
Proof. reflexivity. Qed.

(** The run of [prepareDiffDirectory] up to the link to the modules. *)
Lemma prepare_run diffDirectory watch w :
  exists w2,
    extends w w2
    /\ same_outside (resolve temporaryName) w w2
    /\ is_Some (fs w2 !! resolve temporaryName)
    /\ ((exists e, prepareDiffDirectory JSON_parse JSON_stringify getStarterDir
                     isHydrogenMonorepo getRepoNodeModules temporaryName
                     merge_documents diffDirectory watch w = (Rejected e, w2))
        \/ (fs w2 !! (resolve temporaryName ++ ["node_modules"])
            = Some (Symlink getRepoNodeModules)
            /\ prepareDiffDirectory JSON_parse JSON_stringify getStarterDir
                 isHydrogenMonorepo getRepoNodeModules temporaryName
                 merge_documents diffDirectory watch w
               = start_watching temporaryName diffDirectory
                   (getStarterDir isHydrogenMonorepo) watch w2)).
Proof.
  rewrite prepare_steps.
  set (T := getStarterDir isHydrogenMonorepo).
  set (w0 := (temporaryDirectory temporaryName w).2).
  assert (extends w w0) as He0.
  { exact (extends_new_entry w (resolve temporaryName) Dir (OpMkdir temporaryName)). }
  assert (same_outside (resolve temporaryName) w w0) as Ho0.
  { exact (same_outside_new_entry _ w (resolve temporaryName) Dir
             (OpMkdir temporaryName) (reflexivity _)). }
  assert (is_Some (fs w0 !! resolve temporaryName)) as Hs0.
  { simpl. rewrite lookup_insert_eq. eauto. }
  pose proof (extends_applyTemplateDiff JSON_parse JSON_stringify getStarterDir
                merge_documents temporaryName diffDirectory (Some T) w0) as He1.
  pose proof (same_outside_applyTemplateDiff JSON_parse JSON_stringify getStarterDir
                merge_documents temporaryName diffDirectory (Some T) w0) as Ho1.
  destruct (applyTemplateDiff _ _ _ _ _ _ _ w0) as [[[]|e1] w1]; simpl in He1, Ho1.
  2: { exists w1. split; [by transitivity w0 |]. split; [by transitivity w0 |].
       split; [by apply He1 | left; by eexists]. }
  pose proof (extends_createSymlink getRepoNodeModules
                (joinPath temporaryName "node_modules") w1) as He2.
  assert (same_outside (resolve temporaryName) w1
            (createSymlink getRepoNodeModules
               (joinPath temporaryName "node_modules") w1).2) as Ho2.
  { apply same_outside_createSymlink.
    rewrite (resolve_entry _ "node_modules") by done. by eexists. }
  assert (extends w w1) as He by by transitivity w0.
  assert (same_outside (resolve temporaryName) w w1) as Ho by by transitivity w0.
  destruct (createSymlink _ _ w1) as [[[]|e2] w2] eqn:Hl; simpl in He2, Ho2.
  2: { exists w2. split; [by transitivity w1 |]. split; [by transitivity w1 |].
       split; [by apply He2, He1 | left; by eexists]. }
  exists w2. split; [by transitivity w1 |]. split; [by transitivity w1 |].
  split; [by apply He2, He1 |]. right. split; [|reflexivity].
  apply createSymlink_fulfilled in Hl.
  by rewrite (resolve_entry _ "node_modules") in Hl.
Qed.

(** X17.  Once the merge into the temporary directory and the link to the
    modules have succeeded, [prepareDiffDirectory] completes, provided that
    the backend, if it is used, can watch the three directories.  It returns
    the temporary directory and the starter directory, and [node_modules]
    of the temporary directory is linked to the modules of the repository.
    When watching was asked for and the watch backend loads, the session
    holds the subscriptions of the temporary, the diff and the template
    directory, in this order, and these three are watched besides what was
    watched before.  Otherwise it holds three empty slots and nothing more
    is watched: a backend that was asked for and does not load is reported
    on the console and stops nothing. *)
Theorem prepared_session_links_modules_and_watches
    (diffDirectory : string) (watch : bool) (w w1 w2 : World) :
  applyTemplateDiff JSON_parse JSON_stringify getStarterDir merge_documents
    temporaryName diffDirectory (Some (getStarterDir isHydrogenMonorepo))
    (temporaryDirectory temporaryName w).2 = (Fulfilled tt, w1) ->
  createSymlink getRepoNodeModules (joinPath temporaryName "node_modules") w1
  = (Fulfilled tt, w2) ->
  (watch && watcher_loads w = true ->
   watchable w [temporaryName; diffDirectory;
                getStarterDir isHydrogenMonorepo] = true) ->
  exists s w',
    prepareDiffDirectory JSON_parse JSON_stringify getStarterDir
      isHydrogenMonorepo getRepoNodeModules temporaryName merge_documents
      diffDirectory watch w
    = (Fulfilled s, w')
    /\ sessionTarget s = temporaryName
    /\ sessionTemplate s = getStarterDir isHydrogenMonorepo
    /\ fs w' !! (resolve temporaryName ++ ["node_modules"])
       = Some (Symlink getRepoNodeModules)
    /\ if watch && watcher_loads w
       then subscriptions s
            = [Some {| watched := temporaryName |};
               Some {| watched := diffDirectory |};
               Some {| watched := getStarterDir isHydrogenMonorepo |}]
            /\ (forall d, d ∈ watching w' <->
                  d ∈ [temporaryName; diffDirectory;
                       getStarterDir isHydrogenMonorepo] \/ d ∈ watching w)
            /\ console w' = console w
       else subscriptions s = [None; None; None]
            /\ watching w' = watching w
            /\ console w' = console w ++ (if watch then [ImportError] else []).
Proof.
  intros Hmerge Hlink Hok. rewrite prepare_steps, Hmerge, Hlink.
  pose proof (extends_new_entry w (resolve temporaryName) Dir
                (OpMkdir temporaryName)) as He0.
  pose proof (extends_applyTemplateDiff JSON_parse JSON_stringify getStarterDir
                merge_documents temporaryName diffDirectory
                (Some (getStarterDir isHydrogenMonorepo))
                (temporaryDirectory temporaryName w).2) as He1.
  pose proof (extends_createSymlink getRepoNodeModules
                (joinPath temporaryName "node_modules") w1) as He2.
  rewrite Hmerge in He1. rewrite Hlink in He2. simpl in He1, He2.
  assert (extends w w2) as (Hw & _ & Hl & Hc & _ & Hu & _).
  { transitivity w1; [|done].
    transitivity (temporaryDirectory temporaryName w).2; done. }
  apply createSymlink_fulfilled in Hlink.
  rewrite (resolve_entry _ "node_modules") in Hlink by done.
  destruct (start_watching_run temporaryName diffDirectory
              (getStarterDir isHydrogenMonorepo) watch w2)
    as (res & w3 & Hs & Hfs & _ & _ & Hcases).
  rewrite Hl in Hcases. unfold watchable in Hcases. rewrite Hu in Hcases.
  fold (watchable w [temporaryName; diffDirectory;
                     getStarterDir isHydrogenMonorepo]) in Hcases.
  destruct (watch && watcher_loads w) eqn:Hwatch.
  - destruct Hcases as (Hwatching & Hconsole & Hres).
    rewrite (Hok eq_refl) in Hres. subst res.
    eexists _, w3. split; [exact Hs |]. simpl.
    split; [done |]. split; [done |]. split; [by rewrite Hfs |].
    split; [done |]. split; [|by rewrite Hconsole, Hc].
    destruct (start_watching_fulfilled _ _ _ _ _ _ _ Hs)
      as (_ & _ & _ & _ & _ & Hful).
    rewrite Hl, Hwatch in Hful. destruct Hful as (_ & Hful & _).
    intros d. by rewrite Hful, Hw.
  - destruct Hcases as (-> & Hwatching & Hconsole).
    eexists _, w3. split; [exact Hs |]. simpl.
    split; [done |]. split; [done |]. split; [by rewrite Hfs |].
    split; [done |]. split; [by rewrite Hwatching, Hw |].
    by rewrite Hconsole, Hc.
Qed.

(** X18.  [prepareDiffDirectory] has no error path of its own.  When it is
    rejected, the temporary directory that it made is still there, no entry
    has been removed and no watch has been stopped.  In particular, when
    the merge and the link have succeeded and the backend then fails to
    subscribe to one of the three directories, the call is rejected while
    the subscriptions that were accepted are left running. *)
Theorem failed_preparation_leaves_the_temporary_directory
    (diffDirectory : string) (watch : bool) (w : World) :
  (forall e w',
     prepareDiffDirectory JSON_parse JSON_stringify getStarterDir
       isHydrogenMonorepo getRepoNodeModules temporaryName merge_documents
       diffDirectory watch w
     = (Rejected e, w') ->
     is_Some (fs w' !! resolve temporaryName)
     /\ (forall k, is_Some (fs w !! k) -> is_Some (fs w' !! k))
     /\ (forall d, d ∈ watching w -> d ∈ watching w'))
  /\ (forall w1 w2,
        applyTemplateDiff JSON_parse JSON_stringify getStarterDir merge_documents
          temporaryName diffDirectory (Some (getStarterDir isHydrogenMonorepo))
          (temporaryDirectory temporaryName w).2 = (Fulfilled tt, w1) ->
        createSymlink getRepoNodeModules (joinPath temporaryName "node_modules")
          w1 = (Fulfilled tt, w2) ->
        watch && watcher_loads w = true ->
        watchable w [temporaryName; diffDirectory;
                     getStarterDir isHydrogenMonorepo] = false ->
        exists e w',
          prepareDiffDirectory JSON_parse JSON_stringify getStarterDir
            isHydrogenMonorepo getRepoNodeModules temporaryName merge_documents
            diffDirectory watch w
          = (Rejected e, w')
          /\ forall d, d ∈ watching w' <->
               (d ∈ [temporaryName; diffDirectory;
                     getStarterDir isHydrogenMonorepo]
                /\ d ∉ unwatchable w)
               \/ d ∈ watching w).
Proof.
  split.
  - intros e w' Hrun.
    destruct (prepare_run diffDirectory watch w)
      as (w2 & (Hw & _ & Hl & _ & _ & Hu & Hk) & _ & Htmp & [[e' He] | [_ Heq]]).
    + rewrite He in Hrun. injection Hrun as _ <-.
      split; [done |]. split; [done |]. intros d. by rewrite Hw.
    + rewrite Heq in Hrun.
      destruct (start_watching_run temporaryName diffDirectory
                  (getStarterDir isHydrogenMonorepo) watch w2)
        as (res & w3 & Hs & Hfs & _ & _ & Hcases).
      rewrite Hs in Hrun. injection Hrun as -> <-.
      rewrite Hfs. split; [done |]. split; [done |].
      intros d Hd. destruct (watch && watcher_loads w2).
      * destruct Hcases as (Hwatching & _). apply Hwatching. right.
        by rewrite Hw.
      * by destruct Hcases as (Hres & _).
  - intros w1 w2 Hmerge Hlink Hwatch Hbad.
    rewrite prepare_steps, Hmerge, Hlink.
    pose proof (extends_new_entry w (resolve temporaryName) Dir
                  (OpMkdir temporaryName)) as He0.
    pose proof (extends_applyTemplateDiff JSON_parse JSON_stringify getStarterDir
                  merge_documents temporaryName diffDirectory
                  (Some (getStarterDir isHydrogenMonorepo))
                  (temporaryDirectory temporaryName w).2) as He1.
    pose proof (extends_createSymlink getRepoNodeModules
                  (joinPath temporaryName "node_modules") w1) as He2.
    rewrite Hmerge in He1. rewrite Hlink in He2. simpl in He1, He2.
    assert (extends w w2) as (Hw & _ & Hl & _ & _ & Hu & _).
    { transitivity w1; [|done].
      transitivity (temporaryDirectory temporaryName w).2; done. }
    destruct (start_watching_run temporaryName diffDirectory
                (getStarterDir isHydrogenMonorepo) watch w2)
      as (res & w3 & Hs & _ & _ & _ & Hcases).
    rewrite Hl, Hwatch in Hcases. unfold watchable in Hcases.
    rewrite Hu in Hcases.
    fold (watchable w [temporaryName; diffDirectory;
                       getStarterDir isHydrogenMonorepo]) in Hcases.
    rewrite Hbad in Hcases. destruct Hcases as (Hwatching & _ & [e ->]).
    exists e, w3. split; [exact Hs |]. intros d. by rewrite Hwatching, Hw.
Qed.

(** X19.  Whatever its outcome, [prepareDiffDirectory] writes at
    and below the temporary directory only, apart from creating the
    directories above it: every other path holds what it held before, and
    no entry anywhere disappears. *)
Theorem preparation_writes_below_the_temporary_directory_only
    (diffDirectory : string) (watch : bool) (w : World)
    (res : Result Session) (w' : World) :
  prepareDiffDirectory JSON_parse JSON_stringify getStarterDir isHydrogenMonorepo
    getRepoNodeModules temporaryName merge_documents diffDirectory watch w
  = (res, w') ->
  (forall k, ~ resolve temporaryName `prefix_of` k ->
             ~ k `prefix_of` resolve temporaryName ->
             fs w' !! k = fs w !! k)
  /\ (forall k, is_Some (fs w !! k) -> is_Some (fs w' !! k)).
Proof.
  intros Hrun.
  destruct (prepare_run diffDirectory watch w)
    as (w2 & (_ & _ & _ & _ & _ & _ & Hk) & Ho & _ & [[e' He] | [_ Heq]]).
  - rewrite He in Hrun. injection Hrun as _ <-. done.
  - rewrite Heq in Hrun.
    destruct (start_watching_run temporaryName diffDirectory
                (getStarterDir isHydrogenMonorepo) watch w2)
      as (res' & w3 & Hs & Hfs & _).
    rewrite Hs in Hrun. injection Hrun as _ <-. rewrite Hfs. done.
Qed.

(** X20.  The [cleanup] of a prepared session undoes the
    preparation.  When the temporary directory can be removed and none of
    the three watches refuses to stop, it completes; nothing is left at or
    below the temporary directory; every path that is neither there nor
    above it holds what it held before the preparation; and what is watched
    is what was watched before, the three directories excepted when the
    preparation subscribed to them. *)
Theorem cleanup_undoes_the_preparation
    (diffDirectory : string) (watch : bool) (w : World) (s : Session) (w1 : World) :
  prepareDiffDirectory JSON_parse JSON_stringify getStarterDir isHydrogenMonorepo
    getRepoNodeModules temporaryName merge_documents diffDirectory watch w
  = (Fulfilled s, w1) ->
  resolve temporaryName ∉ readonly w ->
  (forall d, d ∈ [temporaryName; diffDirectory; getStarterDir isHydrogenMonorepo] ->
             d ∉ stuck w) ->
  exists w2,
    cleanup (sessionTarget s) (subscriptions s) w1 = (Fulfilled tt, w2)
    /\ (forall k, resolve temporaryName `prefix_of` k -> fs w2 !! k = None)
    /\ (forall k, ~ resolve temporaryName `prefix_of` k ->
                  ~ k `prefix_of` resolve temporaryName ->
                  fs w2 !! k = fs w !! k)
    /\ (forall d, d ∈ watching w2 <->
          d ∈ watching w
          /\ (watch && watcher_loads w = true ->
              d ∉ [temporaryName; diffDirectory;
                   getStarterDir isHydrogenMonorepo])).
Proof.
  intros Hrun Hro Hst.
  destruct (prepare_run diffDirectory watch w)
    as (w2 & (Hw & Hstuck & Hl & _ & Hread & _) & Ho & _ & [[e' He] | [_ Heq]]);
    [congruence |].
  rewrite Heq in Hrun.
  destruct (start_watching_fulfilled _ _ _ _ _ _ _ Hrun)
    as (Ht & _ & Hfs & Hstuck3 & Hread3 & Hsubs).
  rewrite Ht. rename s into s'. rename w1 into w3.
  unfold cleanup, mbind, promise_bind, await.
  destruct (Promise_all (unsubscribe_each (subscriptions s')) w3) as [rs wA] eqn:Hall.
  destruct (unsubscribe_all _ _ _ _ Hall) as (HfsA & HroA & _ & _ & HwA & HresA).
  assert (forall d, d ∈ watched_dirs (subscriptions s') ->
            d ∈ [temporaryName; diffDirectory; getStarterDir isHydrogenMonorepo])
    as Hdirs.
  { destruct (watch && watcher_loads w2); destruct Hsubs as (-> & _); [done |].
    simpl. intros d Hd. by apply elem_of_nil in Hd. }
  destruct HresA as [_ HresA].
  destruct HresA as [l ->].
  { intros d Hd. rewrite Hstuck3, Hstuck. by apply Hst, Hdirs. }
  destruct (remove temporaryName wA) as [r wB] eqn:Hrm.
  destruct (remove_effects _ _ _ _ Hrm) as (_ & _ & Hgone).
  destruct Hgone as [-> Hgone]; [by rewrite HroA, Hread3, Hread |].
  exists wB. split; [done |]. split; [done |]. split.
  - intros k H1 H2.
    rewrite (remove_lookup _ _ _ _ _ Hrm H1), HfsA, Hfs. by apply Ho.
  - intros d.
    assert (watching wB = watching wA) as ->.
    { revert Hrm. unfold remove. simpl. case_bool_decide; by intros [= <-]. }
    rewrite HwA, Hstuck3, Hstuck, <- Hl.
    destruct (watch && watcher_loads w2); destruct Hsubs as (-> & Hwatch & _).
    + rewrite Hwatch. simpl. split.
      * intros [[Hin | Hin] Hout]; [|split; [by rewrite <- Hw | intros _ Hd]].
        -- exfalso. exact (Hst d Hin (Hout Hin)).
        -- exact (Hst d Hd (Hout Hd)).
      * intros [Hin Hout]. split; [right; by rewrite Hw |].
        intros Hd. by destruct (Hout eq_refl).
    + rewrite Hwatch, Hw. simpl. split.
      * intros [Hin _]. split; [done | done].
      * intros [Hin _]. split; [done |]. intros Hd. by apply elem_of_nil in Hd.
Qed.

End SessionFacts.

(** ** The theorems at work *)

Lemma diff_change_witness :
  exists w2,
    diffCallback "/x" "/d" "/t" None
      [{| path := "/d/app/gone.tsx"; type := ev_delete |};
       {| path := "/d/app/root.tsx"; type := ev_update |}] live
    = (Fulfilled tt, w2)
    /\ fs w2 !! ["x"; "app"; "root.tsx"] = Some (File "diff root").
Proof.
  destruct (diff_change_reaches_target "/x" "/d" "/t"
              [{| path := "/d/app/gone.tsx"; type := ev_delete |}] []
              ["app"; "root.tsx"] ev_update live
              (diffCallback "/x" "/d" "/t" None
                 [{| path := "/d/app/gone.tsx"; type := ev_delete |}] live).2)
    as (w2 & Hrun & _ & _ & H).
  - reflexivity.
  - discriminate.
  - vm_compute. reflexivity.
  - vm_compute. reflexivity.
  - vm_compute. reflexivity.
  - exists w2. split; [exact Hrun |].
    apply (H (copyFile "/d/app/root.tsx" "/x/app/root.tsx"
                (diffCallback "/x" "/d" "/t" None
                   [{| path := "/d/app/gone.tsx"; type := ev_delete |}]
                   live).2).2);
      vm_compute; reflexivity.
Defined.

Lemma generated_file_witness :
  exists w2,
    targetCallback "/x" "/d" None
      [{| path := "/x/env.generated.d.ts"; type := ev_create |}] built
    = (Fulfilled tt, w2)
    /\ fs w2 !! ["d"; "env.generated.d.ts"] = Some (File "declarations").
Proof.
  destruct (generated_file_returns_to_diff "/x" "/d" [] []
              ["env.generated.d.ts"] ev_create built built)
    as (w2 & Hrun & _ & _ & H).
  - reflexivity.
  - reflexivity.
  - vm_compute. reflexivity.
  - vm_compute. reflexivity.
  - exists w2. split; [exact Hrun |].
    apply (H (copyFile "/x/env.generated.d.ts" "/d/env.generated.d.ts" built).2);
      vm_compute; reflexivity.
Defined.

Lemma batch_witness :
  exists w' o,
    diffCallback "/x" "/d" "/t" None
      [{| path := "/d/app/root.tsx"; type := ev_update |};
       {| path := "/d/app/gone.tsx"; type := ev_delete |}] live
    = (Fulfilled tt, w')
    /\ o ∈ trace w' /\ writes_to o "/x/app/gone.tsx".
Proof.
  destruct (every_event_of_a_batch_is_handled "/x" "/d" "/t"
              [{| path := "/d/app/root.tsx"; type := ev_update |};
               {| path := "/d/app/gone.tsx"; type := ev_delete |}] live)
    as [(w' & Hrun & Hall) _].
  destruct (Hall {| path := "/d/app/gone.tsx"; type := ev_delete |})
    as (o & Ho & Hw); [repeat constructor |].
  exists w', o. split; [exact Hrun |]. split; [exact Ho | exact Hw].
Defined.

Lemma copyShopifyConfig_witness :
  copyShopifyConfig "/x" "/d" not_built = (Fulfilled tt, not_built)
  /\ fs (copyShopifyConfig "/x" "/d" built).2 !! ["d"; ".shopify"; "project.json"]
     = Some (File "tunnel").
Proof.
  destruct (copyShopifyConfig_mirrors_or_does_nothing "/x" "/d" not_built)
    as [Hnone _]; [vm_compute; reflexivity |].
  destruct (copyShopifyConfig_mirrors_or_does_nothing "/x" "/d" built)
    as [_ Hsome]; [vm_compute; reflexivity |].
  split.
  - apply Hnone. vm_compute. reflexivity.
  - etrans.
    + apply (Hsome (copyShopifyConfig "/x" "/d" built).2
               ltac:(vm_compute; eauto) ltac:(vm_compute; reflexivity)
               ["project.json"]).
    + vm_compute. reflexivity.
Defined.

Lemma copyDiffBuild_witness :
  fs (copyDiffBuild "/x" "/d" built).2 !! ["d"; "dist"; "index.js"]
  = Some (File "new build")
  /\ fs (copyDiffBuild "/x" "/d" built).2 !! ["d"; "dist"; "old.js"] = None.
Proof.
  destruct (copyDiffBuild_mirrors_the_build "/x" "/d" built
              (copyDiffBuild "/x" "/d" built).2) as (H & _ & _).
  - vm_compute. reflexivity.
  - split.
    + etrans; [apply (H ["index.js"]) | vm_compute; reflexivity].
    + etrans; [apply (H ["old.js"]) | vm_compute; reflexivity].
Defined.

Lemma copyDiffBuild_without_build_witness :
  exists w',
    copyDiffBuild "/x" "/d" not_built = (Rejected (ENOENT "/x/dist"), w')
    /\ fs w' !! ["d"; "dist"; "old.js"] = None.
Proof.
  destruct (copyDiffBuild_without_build_drops_old_dist "/x" "/d" not_built)
    as (w' & Hrun & Hgone).
  - vm_compute. reflexivity.
  - apply not_elem_of_empty.
  - exists w'. split; [exact Hrun | exact (Hgone ["old.js"])].
Defined.

Lemma skipped_dependencies_witness :
  dependency_of (onResult template_manifest skipping merged_manifest) "b" = None
  /\ devDependency_of (onResult template_manifest skipping merged_manifest) "c"
     = None.
Proof.
  destruct (skipped_dependencies_are_absent template_manifest skipping
              merged_manifest "b") as [H _].
  destruct (skipped_dependencies_are_absent template_manifest skipping
              merged_manifest "c") as [_ H'].
  split.
  - apply (H ["b"]); [reflexivity | repeat constructor].
  - apply (H' ["c"]); [reflexivity | repeat constructor].
Defined.

Lemma other_dependencies_witness :
  dependency_of (onResult template_manifest skipping merged_manifest) "a"
  = Some (JStr "1.0.0")
  /\ devDependency_of (onResult template_manifest skipping merged_manifest) "d"
     = Some (JStr "4.0.0").
Proof.
  destruct (other_dependencies_are_kept template_manifest skipping
              merged_manifest "a") as [H _].
  destruct (other_dependencies_are_kept template_manifest skipping
              merged_manifest "d") as [_ H'].
  split.
  - etrans; [apply H | vm_compute; reflexivity].
    + discriminate.
    + intros names [= <-]. rewrite elem_of_cons, elem_of_nil.
      intros [? | []]; discriminate.
  - etrans; [apply H' | vm_compute; reflexivity].
    intros names [= <-]. rewrite elem_of_cons, elem_of_nil.
    intros [? | []]; discriminate.
Defined.

Lemma scripts_without_flag_witness :
  script_of (onResult template_manifest skipping merged_manifest) "test"
  = Some (JStr "vitest --diff").
Proof.
  etrans.
  - apply (scripts_without_flag_are_kept template_manifest skipping
             merged_manifest "test").
    left. rewrite !elem_of_cons, elem_of_nil.
    intros [? | [? | [? | []]]]; discriminate.
  - vm_compute. reflexivity.
Defined.

Lemma excluded_names_witness :
  included (templateFilter "/t" no_options) "/t" ["app"; "Node_Modules"; "x.js"]
  = false
  /\ included (diffFilter "/t") "/d" ["app"; "Node_Modules"; "x.js"] = false.
Proof.
  destruct (excluded_names_are_refused_in_any_case "/t" "/d" no_options
              ["app"] ["x.js"] "Node_Modules" "node_modules")
    as [Ht Hd]; [reflexivity | reflexivity |].
  split.
  - apply Ht. vm_compute. repeat constructor.
  - apply Hd; [vm_compute; repeat constructor |].
    apply is_prefix_false. vm_compute. reflexivity.
Defined.

Lemma diff_directory_below_excluded_name_witness :
  included (diffFilter "/repo/templates/skeleton") "/repo/dist/example"
    ["app"; "root.tsx"] = false.
Proof.
  apply (diff_directory_below_excluded_name_is_not_copied
           "/repo/templates/skeleton" "/repo/dist/example"
           ["repo"] ["example"] "dist" "dist").
  - vm_compute. repeat constructor.
  - reflexivity.
  - vm_compute. reflexivity.
  - apply is_prefix_false. vm_compute. reflexivity.
Defined.

Lemma merge_is_an_overlay_witness :
  fs after_merge !! ["x"; "app"; "root.tsx"] = Some (File "diff root")
  /\ fs after_merge !! ["x"; "app"; "entry.ts"] = Some (File "template entry").
Proof.
  destruct (merge_is_an_overlay demo_parse demo_stringify demo_starter demo_merge
              "/x" "/d" "/t" before_merge after_merge)
    as (pkg & Hread & H).
  - vm_compute. reflexivity.
  - apply is_prefix_false. vm_compute. reflexivity.
  - assert (pkg = empty_manifest) as ->.
    { vm_compute in Hread. by injection Hread as <-. }
    split.
    + etrans; [apply (H ["app"; "root.tsx"]); discriminate | vm_compute; reflexivity].
    + etrans; [apply (H ["app"; "entry.ts"]); discriminate | vm_compute; reflexivity].
Defined.

Lemma build_and_cache_directories_witness :
  fs before_merge !! ["t"; ".turbo"; "log"] = Some (File "template log")
  /\ fs after_merge !! ["x"; ".turbo"; "log"] = None.
Proof.
  split; [reflexivity |].
  etrans.
  - apply (build_and_cache_directories_are_never_copied demo_parse demo_stringify
             demo_starter demo_merge "/x" "/d" "/t" before_merge after_merge
             [] ["log"] ".turbo" ".turbo").
    + vm_compute. reflexivity.
    + apply is_prefix_false. vm_compute. reflexivity.
    + vm_compute. repeat constructor.
    + reflexivity.
    + reflexivity.
    + apply is_prefix_false. vm_compute. reflexivity.
  - vm_compute. reflexivity.
Defined.

Lemma skipFiles_witness :
  fs before_skipping_merge !! ["t"; "app"; "entry.ts"] = Some (File "template entry")
  /\ fs after_skipping_merge !! ["x"; "app"; "entry.ts"] = None
  /\ fs after_skipping_merge !! ["x"; "app"; "root.tsx"] = Some (File "template root").
Proof.
  split; [reflexivity |]. split; [|vm_compute; reflexivity].
  etrans.
  - apply (skipFiles_are_not_taken_from_the_template options_parse demo_stringify
             demo_starter demo_merge "/x" "/d" "/t" before_skipping_merge
             after_skipping_merge skipping_manifest skipping ["app/entry.ts"]
             ["app"; "entry.ts"] []).
    + vm_compute. reflexivity.
    + apply is_prefix_false. vm_compute. reflexivity.
    + vm_compute. reflexivity.
    + reflexivity.
    + reflexivity.
    + vm_compute. repeat constructor.
    + reflexivity.
    + discriminate.
  - vm_compute. reflexivity.
Defined.

Lemma tsconfig_witness :
  fs before_skipping_merge !! ["d"; "tsconfig.json"] = Some (File "diff tsconfig")
  /\ fs after_skipping_merge !! ["x"; "tsconfig.json"]
     = Some (File "template tsconfig").
Proof.
  split; [reflexivity |].
  etrans.
  - apply (manifests_and_tsconfig_of_the_diff_are_not_copied options_parse
             demo_stringify demo_starter demo_merge "/x" "/d" "/t"
             before_skipping_merge after_skipping_merge skipping_manifest
             [] [] "tsconfig.json" "tsconfig.json").
    + vm_compute. reflexivity.
    + apply is_prefix_false. vm_compute. reflexivity.
    + vm_compute. reflexivity.
    + vm_compute. repeat constructor.
    + reflexivity.
    + reflexivity.
    + apply is_prefix_false. vm_compute. reflexivity.
    + discriminate.
  - vm_compute. reflexivity.
Defined.

Lemma writes_below_the_target_witness :
  fs after_merge !! ["d"; "app"; "root.tsx"] = Some (File "diff root")
  /\ fs after_merge !! ["t"; "app"; "root.tsx"] = Some (File "template root").
Proof.
  destruct (applyTemplateDiff_writes_below_the_target_only demo_parse
              demo_stringify demo_starter demo_merge "/x" "/d" (Some "/t")
              before_merge (Fulfilled tt) after_merge) as (H & _).
  - vm_compute. reflexivity.
  - split.
    + etrans; [apply H | vm_compute; reflexivity];
        apply is_prefix_false; vm_compute; reflexivity.
    + etrans; [apply H | vm_compute; reflexivity];
        apply is_prefix_false; vm_compute; reflexivity.
Defined.

Lemma prepared_session_witness :
  (exists s w',
     prepareDiffDirectory demo_parse demo_stringify demo_starter true
       "/node_modules" "/tmp/h2" demo_merge "/d" true before_session
     = (Fulfilled s, w')
     /\ subscriptions s = subscriptions demo_session
     /\ fs w' !! ["tmp"; "h2"; "node_modules"] = Some (Symlink "/node_modules"))
  /\ (exists s w',
        prepareDiffDirectory demo_parse demo_stringify demo_starter true
          "/node_modules" "/tmp/h2" demo_merge "/d" true
          before_session_without_backend
        = (Fulfilled s, w')
        /\ subscriptions s = [None; None; None]
        /\ console w' = [ImportError]).
Proof.
  split.
  - destruct (prepared_session_links_modules_and_watches demo_parse
                demo_stringify demo_starter true "/node_modules" "/tmp/h2"
                demo_merge "/d" true before_session
                (applyTemplateDiff demo_parse demo_stringify demo_starter
                   demo_merge "/tmp/h2" "/d" (Some "/t")
                   (temporaryDirectory "/tmp/h2" before_session).2).2
                (createSymlink "/node_modules" "/tmp/h2/node_modules"
                   (applyTemplateDiff demo_parse demo_stringify demo_starter
                      demo_merge "/tmp/h2" "/d" (Some "/t")
                      (temporaryDirectory "/tmp/h2" before_session).2).2).2)
      as (s & w' & Hrun & _ & _ & Hnm & Hcases).
    + vm_compute. reflexivity.
    + vm_compute. reflexivity.
    + intros _. vm_compute. reflexivity.
    + destruct Hcases as (Hsubs & _).
      exists s, w'. split; [exact Hrun |]. split; [exact Hsubs | exact Hnm].
  - destruct (prepared_session_links_modules_and_watches demo_parse
                demo_stringify demo_starter true "/node_modules" "/tmp/h2"
                demo_merge "/d" true before_session_without_backend
                (applyTemplateDiff demo_parse demo_stringify demo_starter
                   demo_merge "/tmp/h2" "/d" (Some "/t")
                   (temporaryDirectory "/tmp/h2"
                      before_session_without_backend).2).2
                (createSymlink "/node_modules" "/tmp/h2/node_modules"
                   (applyTemplateDiff demo_parse demo_stringify demo_starter
                      demo_merge "/tmp/h2" "/d" (Some "/t")
                      (temporaryDirectory "/tmp/h2"
                         before_session_without_backend).2).2).2)
      as (s & w' & Hrun & _ & _ & _ & Hcases).
    + vm_compute. reflexivity.
    + vm_compute. reflexivity.
    + intros H. vm_compute in H. discriminate H.
    + destruct Hcases as (Hsubs & _ & Hconsole).
      exists s, w'. split; [exact Hrun |]. split; [exact Hsubs | exact Hconsole].
Defined.

Lemma failed_preparation_witness :
  (is_Some (fs after_failed_prepare !! ["tmp"; "h2"])
   /\ fs without_diff_manifest !! ["tmp"; "h2"] = None)
  /\ (exists e w',
        prepareDiffDirectory demo_parse demo_stringify demo_starter true
          "/node_modules" "/tmp/h2" demo_merge "/d" true
          before_session_unwatchable
        = (Rejected e, w')
        /\ "/d" ∈ watching w' /\ "/t" ∉ watching w').
Proof.
  split.
  - split; [|reflexivity].
    destruct (proj1 (failed_preparation_leaves_the_temporary_directory
                       demo_parse demo_stringify demo_starter true
                       "/node_modules" "/tmp/h2" demo_merge "/d" true
                       without_diff_manifest)
                (ENOENT "/d/package.json") after_failed_prepare) as (H & _);
      [vm_compute; reflexivity | exact H].
  - destruct (proj2 (failed_preparation_leaves_the_temporary_directory
                       demo_parse demo_stringify demo_starter true
                       "/node_modules" "/tmp/h2" demo_merge "/d" true
                       before_session_unwatchable)
                (applyTemplateDiff demo_parse demo_stringify demo_starter
                   demo_merge "/tmp/h2" "/d" (Some "/t")
                   (temporaryDirectory "/tmp/h2" before_session_unwatchable).2).2
                (createSymlink "/node_modules" "/tmp/h2/node_modules"
                   (applyTemplateDiff demo_parse demo_stringify demo_starter
                      demo_merge "/tmp/h2" "/d" (Some "/t")
                      (temporaryDirectory "/tmp/h2"
                         before_session_unwatchable).2).2).2)
      as (e & w' & Hrun & Hw).
    + vm_compute. reflexivity.
    + vm_compute. reflexivity.
    + reflexivity.
    + vm_compute. reflexivity.
    + exists e, w'. split; [exact Hrun |]. split.
      * apply Hw. left. split; [rewrite !elem_of_cons; auto |].
        simpl. intros H. apply elem_of_singleton in H. discriminate H.
      * intros H. apply Hw in H as [[_ Hbad] | H].
        -- apply Hbad. simpl. by apply elem_of_singleton.
        -- simpl in H. by apply elem_of_empty in H.
Defined.

Lemma preparation_writes_witness :
  fs after_prepare !! ["d"; "app"; "root.tsx"] = Some (File "diff root")
  /\ is_Some (fs after_prepare !! ["t"; "app"; "root.tsx"]).
Proof.
  destruct (preparation_writes_below_the_temporary_directory_only demo_parse
              demo_stringify demo_starter true "/node_modules" "/tmp/h2"
              demo_merge "/d" true before_session (Fulfilled demo_session)
              after_prepare) as (H & Hk).
  - vm_compute. reflexivity.
  - split.
    + etrans; [apply H | vm_compute; reflexivity];
        apply is_prefix_false; vm_compute; reflexivity.
    + apply Hk. vm_compute. eauto.
Defined.

Lemma cleanup_undoes_witness :
  exists w2,
    cleanup "/tmp/h2" (subscriptions demo_session) after_prepare = (Fulfilled tt, w2)
    /\ fs w2 !! ["tmp"; "h2"; "app"; "root.tsx"] = None
    /\ fs w2 !! ["d"; "app"; "root.tsx"] = Some (File "diff root")
    /\ "/d" ∉ watching w2.
Proof.
  destruct (cleanup_undoes_the_preparation demo_parse demo_stringify
              demo_starter true "/node_modules" "/tmp/h2" demo_merge
              "/d" true before_session demo_session after_prepare)
    as (w2 & Hrun & Hgone & Hkept & Hw).
  - vm_compute. reflexivity.
  - apply not_elem_of_empty.
  - intros d _. apply not_elem_of_empty.
  - exists w2. split; [exact Hrun |]. split; [|split].
    + apply Hgone. by exists ["app"; "root.tsx"].
    + etrans; [apply Hkept | vm_compute; reflexivity];
        apply is_prefix_false; vm_compute; reflexivity.
    + intros Hin. apply Hw in Hin as [_ Hout].
      apply (Hout eq_refl). repeat constructor.
Defined.
